(** * GameCanvas: the per-frame simulation of the arcade shooter

    A shallow embedding of [src/components/game/GameCanvas.tsx]: the entity
    records, the React state and refs of the component, the [update] step
    with its collision passes, [hitPlayer], [spawnWave], [emitExplosion],
    [initGame], the frame [loop], the event handlers, [toCanvas] and
    [draw].

    JavaScript numbers are read as exact numbers.  The arithmetic the code
    uses is collected in the interface [Number]; it has two models: exact
    rationals ([NumQ], executable, the host functions [Math.hypot],
    [Math.cos], [Math.sin] and [Math.PI] being parameters) and the real
    numbers ([NumR], where [Math.hypot] is the exact square root).  What a
    NaN does to a step is stated for every model that has one. *)

From Stdlib Require Import QArith Qround Qminmax ZArith List Bool String Ascii Reals Lia.
From Stdlib Require Lqa Lra.
Import ListNotations.

Set Implicit Arguments.

(* ================================================================== *)
(** ** Numbers *)

(** The operations on [number] that the component uses. *)
Class Number (num : Type) : Type := {
  lit : Q -> num;                  (* a numeric literal *)
  add : num -> num -> num;
  sub : num -> num -> num;
  mul : num -> num -> num;
  div : num -> num -> num;
  leb : num -> num -> bool;        (* a <= b *)
  Math_hypot : num -> num -> num;
  Math_cos : num -> num;
  Math_sin : num -> num;
  Math_PI : num;
  Math_floor : num -> Z
}.

Declare Scope num_scope.
Delimit Scope num_scope with num.
Infix "+" := add : num_scope.
Infix "-" := sub : num_scope.
Infix "*" := mul : num_scope.
Infix "/" := div : num_scope.
Infix "<=?" := leb : num_scope.

Section NumberOps.
Context {num : Type} {N : Number num}.
Local Open Scope num_scope.

Definition of_Z (z : Z) : num := lit (inject_Z z).

(** [a < b] and [a > b] *)
Definition ltb (a b : num) : bool := negb (b <=? a).
Definition gtb (a b : num) : bool := ltb b a.

(** [Math.max(a, b)], [Math.min(a, b)] *)
Definition Math_max (a b : num) : num := if a <=? b then b else a.
Definition Math_min (a b : num) : num := if a <=? b then a else b.

(** [v || d] on numbers: [0] is the falsy number. *)
Definition is_zero (v : num) : bool := (v <=? lit 0) && (lit 0 <=? v).
Definition or_else (v d : num) : num := if is_zero v then d else v.

(** [b ? 1 : 0] *)
Definition bit (b : bool) : num := if b then lit 1 else lit 0.
End NumberOps.

Notation "a <? b" := (ltb a b) : num_scope.
Notation "a >? b" := (gtb a b) : num_scope.

(** *** Exact rationals *)

(** The host's transcendental functions. *)
Class Host : Type := {
  host_hypot : Q -> Q -> Q;
  host_cos : Q -> Q;
  host_sin : Q -> Q;
  host_PI : Q
}.

(** Results are kept in lowest terms, so that iterated steps stay small. *)
#[export] Instance NumQ {h : Host} : Number Q := {
  lit := fun q => q;
  add := fun a b => Qred (a + b);
  sub := fun a b => Qred (a - b);
  mul := fun a b => Qred (a * b);
  div := fun a b => Qred (a / b);
  leb := Qle_bool;
  Math_hypot := host_hypot;
  Math_cos := host_cos;
  Math_sin := host_sin;
  Math_PI := host_PI;
  Math_floor := Qfloor
}.

(** *** Real numbers *)

Definition Rleb (a b : R) : bool := if Rle_dec a b then true else false.

#[export] Instance NumR : Number R := {
  lit := Q2R;
  add := Rplus;
  sub := Rminus;
  mul := Rmult;
  div := Rdiv;
  leb := Rleb;
  Math_hypot := fun a b => sqrt (a * a + b * b);
  Math_cos := cos;
  Math_sin := sin;
  Math_PI := PI;
  Math_floor := fun r => (up r - 1)%Z
}.

(** *** Numbers with NaN *)

(** Exact rationals and NaN, which is [None]: arithmetic with NaN gives
    NaN, and every comparison with NaN is false.  ([Math.floor] is applied
    to products of [Math.random()] and to quotients of the score only.) *)
Module NaN.

Definition lift1 (f : Q -> Q) (a : option Q) : option Q :=
  match a with Some u => Some (f u) | None => None end.

Definition lift2 (f : Q -> Q -> Q) (a b : option Q) : option Q :=
  match a, b with Some u, Some v => Some (f u v) | _, _ => None end.

Definition le (a b : option Q) : bool :=
  match a, b with Some u, Some v => Qle_bool u v | _, _ => false end.

Definition NumNaN {h : Host} : Number (option Q) := {|
  lit := fun q => Some q;
  add := lift2 (fun a b => Qred (a + b));
  sub := lift2 (fun a b => Qred (a - b));
  mul := lift2 (fun a b => Qred (a * b));
  div := lift2 (fun a b => Qred (a / b));
  leb := le;
  Math_hypot := lift2 host_hypot;
  Math_cos := lift1 host_cos;
  Math_sin := lift1 host_sin;
  Math_PI := Some host_PI;
  Math_floor := fun a => match a with Some u => Qfloor u | None => 0%Z end
|}.

End NaN.

(* ================================================================== *)
(** ** Types *)

Set Primitive Projections.

(** [interface Vec2] *)
Record Vec2 (num : Type) : Type := mkVec2 { x : num; y : num }.

(** What [Entity] and [Particle] have in common. *)
Record Body (num : Type) : Type := mkBody {
  pos : Vec2 num;
  vel : Vec2 num
}.

(** [interface Entity] *)
Record Entity (num : Type) : Type := mkEntity {
  entity_body :> Body num;
  radius : num;
  alive : bool
}.

(** [interface Player extends Entity] *)
Record Player (num : Type) : Type := mkPlayer {
  player_entity :> Entity num;
  speed : num;
  cooldown : num
}.

(** [interface Bullet extends Entity] *)
Record Bullet (num : Type) : Type := mkBullet {
  bullet_entity :> Entity num;
  fromPlayer : bool
}.

(** [interface Enemy extends Entity] *)
Record Enemy (num : Type) : Type := mkEnemy {
  enemy_entity :> Entity num;
  hp : Z;
  pattern : Z;
  t : num
}.

(** [interface Particle] *)
Record Particle (num : Type) : Type := mkParticle {
  particle_body :> Body num;
  life : num;
  color : string
}.

(** The component: its React state, its refs, and what the game-loop effect
    last captured.

    [update] and [hitPlayer] are closures of one render; the effect that
    installs [loop] has the dependencies [[running, paused, gameOver]], so
    the [score] and [lives] that [update] and [hitPlayer] read are those of
    the render in which one of the three flags last changed
    ([seen_score], [seen_lives]).  [setScore] and [setLives] are called with
    updater functions and act on the current state. *)
Record State (num : Type) : Type := mkState {
  (* useState *)
  running : bool;
  paused : bool;
  gameOver : bool;
  score : Z;
  lives : Z;
  (* useRef *)
  keys : string -> bool;
  player : option (Player num);
  bullets : list (Bullet num);
  enemies : list (Enemy num);
  particles : list (Particle num);
  time : num;
  lastTime : option num;
  spawnTimer : num;
  aim : Vec2 num;
  firing : bool;
  (* the render captured by the game-loop effect *)
  seen_score : Z;
  seen_lives : Z;
  (* number of calls of Math.random so far *)
  rng : nat
}.

Unset Primitive Projections.

Arguments mkVec2 {num} _ _.
Arguments mkBody {num} _ _.
Arguments mkEntity {num} _ _ _.
Arguments mkPlayer {num} _ _ _.
Arguments mkBullet {num} _ _.
Arguments mkEnemy {num} _ _ _ _.
Arguments mkParticle {num} _ _ _.

(** *** Assignments to fields *)

Section Setters.
Context {num : Type}.

Definition set_pos (p : Vec2 num) (e : Entity num) : Entity num :=
  mkEntity (mkBody p (vel e)) (radius e) (alive e).
Definition set_vel (v : Vec2 num) (e : Entity num) : Entity num :=
  mkEntity (mkBody (pos e) v) (radius e) (alive e).
Definition set_alive (a : bool) (e : Entity num) : Entity num :=
  mkEntity (entity_body e) (radius e) a.

Definition player_with (f : Entity num -> Entity num) (p : Player num) : Player num :=
  mkPlayer (f p) (speed p) (cooldown p).
Definition set_cooldown (c : num) (p : Player num) : Player num :=
  mkPlayer p (speed p) c.
Definition bullet_with (f : Entity num -> Entity num) (b : Bullet num) : Bullet num :=
  mkBullet (f b) (fromPlayer b).
Definition enemy_with (f : Entity num -> Entity num) (e : Enemy num) : Enemy num :=
  mkEnemy (f e) (hp e) (pattern e) (t e).
Definition set_hp (h : Z) (e : Enemy num) : Enemy num :=
  mkEnemy e h (pattern e) (t e).
Definition set_t (a : num) (e : Enemy num) : Enemy num :=
  mkEnemy e (hp e) (pattern e) a.

Definition set_running (v : bool) (s : State num) : State num :=
  mkState v (paused s) (gameOver s) (score s) (lives s) (keys s) (player s)
    (bullets s) (enemies s) (particles s) (time s) (lastTime s) (spawnTimer s)
    (aim s) (firing s) (seen_score s) (seen_lives s) (rng s).
Definition set_paused (v : bool) (s : State num) : State num :=
  mkState (running s) v (gameOver s) (score s) (lives s) (keys s) (player s)
    (bullets s) (enemies s) (particles s) (time s) (lastTime s) (spawnTimer s)
    (aim s) (firing s) (seen_score s) (seen_lives s) (rng s).
Definition set_gameOver (v : bool) (s : State num) : State num :=
  mkState (running s) (paused s) v (score s) (lives s) (keys s) (player s)
    (bullets s) (enemies s) (particles s) (time s) (lastTime s) (spawnTimer s)
    (aim s) (firing s) (seen_score s) (seen_lives s) (rng s).
Definition set_score (v : Z) (s : State num) : State num :=
  mkState (running s) (paused s) (gameOver s) v (lives s) (keys s) (player s)
    (bullets s) (enemies s) (particles s) (time s) (lastTime s) (spawnTimer s)
    (aim s) (firing s) (seen_score s) (seen_lives s) (rng s).
Definition set_lives (v : Z) (s : State num) : State num :=
  mkState (running s) (paused s) (gameOver s) (score s) v (keys s) (player s)
    (bullets s) (enemies s) (particles s) (time s) (lastTime s) (spawnTimer s)
    (aim s) (firing s) (seen_score s) (seen_lives s) (rng s).
Definition set_keys (v : string -> bool) (s : State num) : State num :=
  mkState (running s) (paused s) (gameOver s) (score s) (lives s) v (player s)
    (bullets s) (enemies s) (particles s) (time s) (lastTime s) (spawnTimer s)
    (aim s) (firing s) (seen_score s) (seen_lives s) (rng s).
Definition set_player (v : option (Player num)) (s : State num) : State num :=
  mkState (running s) (paused s) (gameOver s) (score s) (lives s) (keys s) v
    (bullets s) (enemies s) (particles s) (time s) (lastTime s) (spawnTimer s)
    (aim s) (firing s) (seen_score s) (seen_lives s) (rng s).
Definition set_bullets (v : list (Bullet num)) (s : State num) : State num :=
  mkState (running s) (paused s) (gameOver s) (score s) (lives s) (keys s) (player s)
    v (enemies s) (particles s) (time s) (lastTime s) (spawnTimer s)
    (aim s) (firing s) (seen_score s) (seen_lives s) (rng s).
Definition set_enemies (v : list (Enemy num)) (s : State num) : State num :=
  mkState (running s) (paused s) (gameOver s) (score s) (lives s) (keys s) (player s)
    (bullets s) v (particles s) (time s) (lastTime s) (spawnTimer s)
    (aim s) (firing s) (seen_score s) (seen_lives s) (rng s).
Definition set_particles (v : list (Particle num)) (s : State num) : State num :=
  mkState (running s) (paused s) (gameOver s) (score s) (lives s) (keys s) (player s)
    (bullets s) (enemies s) v (time s) (lastTime s) (spawnTimer s)
    (aim s) (firing s) (seen_score s) (seen_lives s) (rng s).
Definition set_time (v : num) (s : State num) : State num :=
  mkState (running s) (paused s) (gameOver s) (score s) (lives s) (keys s) (player s)
    (bullets s) (enemies s) (particles s) v (lastTime s) (spawnTimer s)
    (aim s) (firing s) (seen_score s) (seen_lives s) (rng s).
Definition set_lastTime (v : option num) (s : State num) : State num :=
  mkState (running s) (paused s) (gameOver s) (score s) (lives s) (keys s) (player s)
    (bullets s) (enemies s) (particles s) (time s) v (spawnTimer s)
    (aim s) (firing s) (seen_score s) (seen_lives s) (rng s).
Definition set_spawnTimer (v : num) (s : State num) : State num :=
  mkState (running s) (paused s) (gameOver s) (score s) (lives s) (keys s) (player s)
    (bullets s) (enemies s) (particles s) (time s) (lastTime s) v
    (aim s) (firing s) (seen_score s) (seen_lives s) (rng s).
Definition set_aim (v : Vec2 num) (s : State num) : State num :=
  mkState (running s) (paused s) (gameOver s) (score s) (lives s) (keys s) (player s)
    (bullets s) (enemies s) (particles s) (time s) (lastTime s) (spawnTimer s)
    v (firing s) (seen_score s) (seen_lives s) (rng s).
Definition set_firing (v : bool) (s : State num) : State num :=
  mkState (running s) (paused s) (gameOver s) (score s) (lives s) (keys s) (player s)
    (bullets s) (enemies s) (particles s) (time s) (lastTime s) (spawnTimer s)
    (aim s) v (seen_score s) (seen_lives s) (rng s).
Definition set_seen (sc lv : Z) (s : State num) : State num :=
  mkState (running s) (paused s) (gameOver s) (score s) (lives s) (keys s) (player s)
    (bullets s) (enemies s) (particles s) (time s) (lastTime s) (spawnTimer s)
    (aim s) (firing s) sc lv (rng s).
Definition set_rng (v : nat) (s : State num) : State num :=
  mkState (running s) (paused s) (gameOver s) (score s) (lives s) (keys s) (player s)
    (bullets s) (enemies s) (particles s) (time s) (lastTime s) (spawnTimer s)
    (aim s) (firing s) (seen_score s) (seen_lives s) v.
End Setters.

(** Evaluating assignments and field reads, innermost first. *)
Ltac eval_fields :=
  cbv [set_running set_paused set_gameOver set_score set_lives set_keys
       set_player set_bullets set_enemies set_particles set_time set_lastTime
       set_spawnTimer set_aim set_firing set_seen set_rng
       running paused gameOver score lives keys player bullets enemies
       particles time lastTime spawnTimer aim firing seen_score seen_lives rng].

Ltac eval_fields_in H :=
  cbv [set_running set_paused set_gameOver set_score set_lives set_keys
       set_player set_bullets set_enemies set_particles set_time set_lastTime
       set_spawnTimer set_aim set_firing set_seen set_rng
       running paused gameOver score lives keys player bullets enemies
       particles time lastTime spawnTimer aim firing seen_score seen_lives rng] in H.

(* ================================================================== *)
(** ** The component *)

Section GameCanvas.
Context {num : Type} {N : Number num}.
Local Open Scope num_scope.

(** [Math.random]: the result of its [i]-th call. *)
Variable random : nat -> num.

Definition INTERNAL_WIDTH : num := lit 480.
Definition INTERNAL_HEIGHT : num := lit 720.

Definition clamp (v min max : num) : num := Math_max min (Math_min max v).

Definition dist2 (a b : Vec2 num) : num :=
  let dx := x a - x b in
  let dy := y a - y b in
  dx * dx + dy * dy.

(** The overlap test of both collision passes:
    [dist2(a.pos, b.pos) <= r * r] with [r = a.radius + b.radius]. *)
Definition overlaps (a b : Entity num) : bool :=
  let r := radius a + radius b in
  dist2 (pos a) (pos b) <=? r * r.

(** *** emitExplosion *)

(** One turn of the loop of [emitExplosion], for the index [i]. *)
Definition emitParticle (px py : num) (c : string) (i : Z) (s : State num) : State num :=
  let a := Math_PI * lit 2 * of_Z i / lit 16 + random (rng s) * lit 0.3 in
  let sp := lit 60 + random (S (rng s)) * lit 80 in
  let p := mkParticle
             (mkBody (mkVec2 px py) (mkVec2 (Math_cos a * sp) (Math_sin a * sp)))
             (lit 0.4 + random (S (S (rng s))) * lit 0.3) c in
  set_rng (3 + rng s) (set_particles (particles s ++ [p]) s).

Fixpoint emitLoop (n : nat) (px py : num) (c : string) (i : Z) (s : State num) : State num :=
  match n with
  | O => s
  | S n' => emitLoop n' px py c (i + 1) (emitParticle px py c i s)
  end.

Definition emitExplosion (px py : num) (c : string) (s : State num) : State num :=
  emitLoop 16 px py c 0 s.

(** *** spawnWave *)

(** One turn of the loop of [spawnWave]. *)
Definition spawnEnemy (s : State num) : State num :=
  let side := Math_floor (random (rng s) * lit 4) in
  let r := random (S (rng s)) in
  let p :=
    if (side =? 0)%Z then mkVec2 (r * INTERNAL_WIDTH) (lit (-25))
    else if (side =? 1)%Z then mkVec2 (INTERNAL_WIDTH + lit 25) (r * INTERNAL_HEIGHT)
    else if (side =? 2)%Z then mkVec2 (r * INTERNAL_WIDTH) (INTERNAL_HEIGHT + lit 25)
    else mkVec2 (lit (-25)) (r * INTERNAL_HEIGHT) in
  let e := mkEnemy
             (mkEntity (mkBody p (mkVec2 (lit 0) (lit 0))) (lit 14) true)
             (1 + Math_floor (of_Z (seen_score s) / lit 800))
             (Math_floor (random (S (S (rng s))) * lit 3))
             (lit 0) in
  set_rng (3 + rng s) (set_enemies (enemies s ++ [e]) s).

Fixpoint spawnLoop (n : nat) (s : State num) : State num :=
  match n with
  | O => s
  | S n' => spawnLoop n' (spawnEnemy s)
  end.

Definition waveCount (s : State num) : Z :=
  4 + Math_floor (random (rng s) * lit 3)
    + Math_floor (of_Z (seen_score s) / lit 500).

Definition spawnWave (s : State num) : State num :=
  spawnLoop (Z.to_nat (waveCount s)) (set_rng (S (rng s)) s).

(** *** hitPlayer *)

Definition startPos : Vec2 num :=
  mkVec2 (INTERNAL_WIDTH / lit 2) (INTERNAL_HEIGHT / lit 2).

(** [lives] is the captured one; [setLives] acts on the current one. *)
Definition hitPlayer (p : Player num) (s : State num) : State num :=
  let s := emitExplosion (x (pos p)) (y (pos p)) "hsl(var(--destructive))" s in
  let s := set_lives (lives s - 1) s in
  if (seen_lives s - 1 <=? 0)%Z then
    set_running false
      (set_gameOver true (set_player (Some (player_with (set_alive false) p)) s))
  else
    set_player (Some (player_with (set_pos startPos) p)) s.

(** *** initGame *)

Definition newPlayer : Player num :=
  mkPlayer (mkEntity (mkBody startPos (mkVec2 (lit 0) (lit 0))) (lit 12) true)
           (lit 180) (lit 0).

Definition initGame (s : State num) : State num :=
  let s := set_score 0 s in
  let s := set_lives 3 s in
  let s := set_gameOver false s in
  let s := set_paused false s in
  let s := set_player (Some newPlayer) s in
  let s := set_bullets [] s in
  let s := set_enemies [] s in
  let s := set_particles [] s in
  let s := set_spawnTimer (lit 0) s in
  let s := set_lastTime None s in
  set_running true s.

(** *** update, block by block *)

(** Move player. *)

(** The movement intent read from the held keys: [player.vel]. *)
Definition intent (s : State num) : Vec2 num :=
  let left := keys s "arrowleft" || keys s "a" in
  let right := keys s "arrowright" || keys s "d" in
  let up := keys s "arrowup" || keys s "w" in
  let down := keys s "arrowdown" || keys s "s" in
  mkVec2 (bit right - bit left) (bit down - bit up).

Definition movePlayer (dt : num) (s : State num) : State num :=
  match player s with
  | None => s
  | Some p =>
    let v := intent s in
    let len := or_else (Math_hypot (x v) (y v)) (lit 1) in
    let px := clamp (x (pos p) + x v / len * speed p * dt)
                    (lit 15) (INTERNAL_WIDTH - lit 15) in
    let py := clamp (y (pos p) + y v / len * speed p * dt)
                    (lit 15) (INTERNAL_HEIGHT - lit 15) in
    set_player (Some (player_with (fun e => set_pos (mkVec2 px py) (set_vel v e)) p)) s
  end.

(** The bullet pushed when the player fires. *)
Definition newBullet (p : Player num) (target : Vec2 num) : Bullet num :=
  let ax := x target - x (pos p) in
  let ay := y target - y (pos p) in
  let L := or_else (Math_hypot ax ay) (lit 1) in
  let dirx := ax / L in
  let diry := ay / L in
  let speed := lit 400 in
  mkBullet
    (mkEntity
       (mkBody (mkVec2 (x (pos p) + dirx * lit 15) (y (pos p) + diry * lit 15))
               (mkVec2 (dirx * speed) (diry * speed)))
       (lit 2) true)
    true.

Definition isFiring (s : State num) : bool :=
  firing s || keys s " " || keys s "space".

(** Rapid-fire shooting. *)
Definition shoot (dt : num) (s : State num) : State num :=
  match player s with
  | None => s
  | Some p =>
    let p := set_cooldown (cooldown p - dt) p in
    if isFiring s && (cooldown p <=? lit 0) then
      set_player (Some (set_cooldown (lit 0.08) p))
        (set_bullets (bullets s ++ [newBullet p (aim s)]) s)
    else set_player (Some p) s
  end.

(** Update bullets. *)
Definition outOfField (p : Vec2 num) : bool :=
  (y p <? lit (-10)) || (y p >? INTERNAL_HEIGHT + lit 10)
  || (x p <? lit (-10)) || (x p >? INTERNAL_WIDTH + lit 10).

Definition moveBullet (dt : num) (b : Bullet num) : Bullet num :=
  let p := mkVec2 (x (pos b) + x (vel b) * dt) (y (pos b) + y (vel b) * dt) in
  let b := bullet_with (set_pos p) b in
  if outOfField p then bullet_with (set_alive false) b else b.

Definition updateBullets (dt : num) (s : State num) : State num :=
  set_bullets (filter (fun b : Bullet num => alive b) (map (moveBullet dt) (bullets s))) s.

(** Spawn enemies. *)
Definition spawnInterval (sc : Z) : num :=
  Math_max (lit 0.8) (lit 2.0 - of_Z sc * lit 0.001).

Definition spawnEnemies (dt : num) (s : State num) : State num :=
  let s := set_spawnTimer (spawnTimer s - dt) s in
  if spawnTimer s <=? lit 0 then
    let s := spawnWave s in
    set_spawnTimer (spawnInterval (seen_score s)) s
  else s.

(** Update enemies. *)
Definition moveEnemy (dt : num) (pl : option (Player num)) (sc : Z) (e : Enemy num)
  : Enemy num :=
  let e := set_t (t e + dt) e in
  match pl with
  | None => e
  | Some p =>
    let dx := x (pos p) - x (pos e) in
    let dy := y (pos p) - y (pos e) in
    let l := or_else (Math_hypot dx dy) (lit 1) in
    let base := lit 35 + Math_min (lit 80) (of_Z sc * lit 0.03) in
    enemy_with
      (set_pos (mkVec2 (x (pos e) + dx / l * base * dt) (y (pos e) + dy / l * base * dt)))
      e
  end.

Definition updateEnemies (dt : num) (s : State num) : State num :=
  set_enemies
    (filter (fun e : Enemy num => alive e)
            (map (moveEnemy dt (player s) (seen_score s)) (enemies s))) s.

(** Collisions bullets -> enemies. *)

(** The body of the overlap branch, for the enemy [e]. *)
Definition damage (e : Enemy num) (s : State num) : Enemy num * State num :=
  let e := set_hp (hp e - 1) e in
  let s := emitExplosion (x (pos e)) (y (pos e)) "hsl(var(--accent))" s in
  if (hp e <=? 0)%Z then
    (enemy_with (set_alive false) e,
     emitExplosion (x (pos e)) (y (pos e)) "hsl(var(--primary))"
                   (set_score (score s + 100) s))
  else (e, s).

(** The inner loop: the first enemy, in collection order, that the bullet
    overlaps is damaged; [None] when the bullet overlaps no enemy. *)
Fixpoint scanEnemies (b : Bullet num) (es : list (Enemy num)) (s : State num)
  : option (list (Enemy num) * State num) :=
  match es with
  | [] => None
  | e :: es' =>
    if overlaps b e then
      let (e', s') := damage e s in Some (e' :: es', s')
    else
      match scanEnemies b es' s with
      | Some (es'', s') => Some (e :: es'', s')
      | None => None
      end
  end.

(** The outer loop, over the bullets. *)
Fixpoint bulletPass (bs : list (Bullet num)) (es : list (Enemy num)) (s : State num)
  : list (Bullet num) * list (Enemy num) * State num :=
  match bs with
  | [] => ([], es, s)
  | b :: bs' =>
    if negb (fromPlayer b) then
      let '(bs'', es', s') := bulletPass bs' es s in (b :: bs'', es', s')
    else
      match scanEnemies b es s with
      | Some (es1, s1) =>
        let '(bs'', es', s') := bulletPass bs' es1 s1 in
        (bullet_with (set_alive false) b :: bs'', es', s')
      | None =>
        let '(bs'', es', s') := bulletPass bs' es s in (b :: bs'', es', s')
      end
  end.

Definition collideBullets (s : State num) : State num :=
  let '(bs, es, s') := bulletPass (bullets s) (enemies s) s in
  set_enemies es (set_bullets bs s').

(** Collisions enemies -> player. *)
Fixpoint playerScan (p : Player num) (es : list (Enemy num)) (s : State num)
  : option (list (Enemy num) * State num) :=
  match es with
  | [] => None
  | e :: es' =>
    if negb (alive p) then None
    else if overlaps p e then
      Some (enemy_with (set_alive false) e :: es', hitPlayer p s)
    else
      match playerScan p es' s with
      | Some (es'', s') => Some (e :: es'', s')
      | None => None
      end
  end.

Definition collidePlayer (s : State num) : State num :=
  match player s with
  | None => s
  | Some p =>
    match playerScan p (enemies s) s with
    | Some (es, s') => set_enemies es s'
    | None => s
    end
  end.

(** Update particles. *)
Definition moveParticle (dt : num) (p : Particle num) : Particle num :=
  mkParticle
    (mkBody (mkVec2 (x (pos p) + x (vel p) * dt) (y (pos p) + y (vel p) * dt)) (vel p))
    (life p - dt) (color p).

Definition updateParticles (dt : num) (s : State num) : State num :=
  set_particles
    (filter (fun p : Particle num => life p >? lit 0) (map (moveParticle dt) (particles s))) s.

(** The state in which the collision passes of a step start. *)
Definition beforeCollisions (dt : num) (s : State num) : State num :=
  updateEnemies dt (spawnEnemies dt (updateBullets dt (shoot dt (movePlayer dt s)))).

Definition update (dt : num) (s : State num) : State num :=
  let s := set_time (time s + dt) s in
  match player s with
  | None => s
  | Some _ =>
    updateParticles dt (collidePlayer (collideBullets (beforeCollisions dt s)))
  end.

(** *** The frame loop *)

Definition loop (now : num) (s : State num) : State num :=
  if negb (running s) || paused s || gameOver s then set_lastTime (Some now) s
  else
    let last := match lastTime s with Some l => l | None => now end in
    let dt := Math_min (lit 0.033) ((now - last) / lit 1000) in
    update dt (set_lastTime (Some now) s).

(** *** Events and renders *)

Inductive Event : Type :=
| Frame (now : num)                 (* the animation-frame callback *)
| KeyDown (key code : string)
| KeyUp (key code : string)
| PointerDown (cx cy : num)         (* canvas coordinates *)
| PointerMove (cx cy : num)
| PointerUp
| ClickStart                        (* "Start Game" and "Play Again" *)
| ClickResume.                      (* "Resume Game" *)

(** [String.prototype.toLowerCase] on names of ASCII characters, as the
    names that the game reads are: the letters A to Z are lowered. *)
Definition lowerChar (c : ascii) : ascii :=
  let n := nat_of_ascii c in
  if Nat.leb 65 n && Nat.leb n 90 then ascii_of_nat (n + 32) else c.

Fixpoint toLowerCase (k : string) : string :=
  match k with
  | EmptyString => EmptyString
  | String c k' => String (lowerChar c) (toLowerCase k')
  end.

Definition assign (k : string) (v : bool) (m : string -> bool) : string -> bool :=
  fun k' => if String.eqb k' k then v else m k'.

(** The handlers; a button acts only while it is rendered. *)
Definition handle (ev : Event) (s : State num) : State num :=
  match ev with
  | Frame now => loop now s
  | KeyDown key code =>
    let s := set_keys (assign (toLowerCase code) true
                         (assign (toLowerCase key) true (keys s))) s in
    if String.eqb key "p" || String.eqb key "P"
    then set_paused (negb (paused s)) s else s
  | KeyUp key code =>
    set_keys (assign (toLowerCase code) false
                (assign (toLowerCase key) false (keys s))) s
  | PointerDown cx cy => set_firing true (set_aim (mkVec2 cx cy) s)
  | PointerMove cx cy => set_aim (mkVec2 cx cy) s
  | PointerUp => set_firing false s
  | ClickStart =>
    if (negb (running s) && negb (gameOver s)) || gameOver s then initGame s else s
  | ClickResume =>
    if paused s && negb (gameOver s) then set_paused false s else s
  end.

Definition sameFlags (a b : State num) : bool :=
  Bool.eqb (running a) (running b) && Bool.eqb (paused a) (paused b)
  && Bool.eqb (gameOver a) (gameOver b).

(** The render after a handler: when one of [running], [paused],
    [gameOver] changed, the game-loop effect is installed again and
    captures the current [score] and [lives]; when [gameOver] became
    true, the last effect emits a burst at the player. *)
Definition commit (before after : State num) : State num :=
  let s := if sameFlags before after then after
           else set_seen (score after) (lives after) after in
  if negb (gameOver before) && gameOver s then
    match player s with
    | Some p => emitExplosion (x (pos p)) (y (pos p)) "hsl(var(--destructive))" s
    | None => s
    end
  else s.

Definition step (ev : Event) (s : State num) : State num :=
  commit s (handle ev s).

Definition run (evs : list Event) (s : State num) : State num :=
  fold_left (fun s ev => step ev s) evs s.

(** The component when it is mounted. *)
Definition mount : State num :=
  mkState false false false 0 3 (fun _ => false) None [] [] []
          (lit 0) None (lit 0)
          (mkVec2 (INTERNAL_WIDTH / lit 2) (INTERNAL_HEIGHT / lit 2 - lit 120))
          false 0 3 O.

End GameCanvas.

(** The names made of ASCII characters.  On these
    [String.prototype.toLowerCase] lowers the letters A to Z and nothing
    else, as [toLowerCase] does. *)
Fixpoint isASCII (k : string) : bool :=
  match k with
  | EmptyString => true
  | String c k' => Nat.ltb (nat_of_ascii c) 128 && isASCII k'
  end.

(* ================================================================== *)
(** ** An executable host *)

Module ExactHost.

(** Rounding down to a multiple of [2^-60]. *)
Definition round60 (q : Q) : Q :=
  Qred (Qmake (Qfloor (q * inject_Z (2 ^ 60))) (2 ^ 60)).

(** The square root of [q] when it is rational, and else rounded. *)
Definition sqrtQ (q : Q) : Q :=
  let r := Qred q in
  let n := Qnum r in
  let d := Zpos (Qden r) in
  if ((Z.sqrt n * Z.sqrt n =? n) && (Z.sqrt d * Z.sqrt d =? d))%Z
  then Qred (Qmake (Z.sqrt n) (Z.to_pos (Z.sqrt d)))
  else round60 (Qmake (Z.sqrt (n * d * 2 ^ 120)) (Z.to_pos (d * 2 ^ 60))).

Definition hypotQ (a b : Q) : Q := sqrtQ (a * a + b * b).

(** Rounded partial sums of the power series of sine and cosine. *)
Fixpoint series (n : nat) (k : Z) (term acc x2 : Q) : Q :=
  match n with
  | O => acc
  | S n' =>
    let term' := round60 (- term * x2 / inject_Z ((k + 1) * (k + 2))) in
    series n' (k + 2) term' (Qred (acc + term')) x2
  end.

Definition cosQ (a : Q) : Q := series 16 0 1 1 (round60 (a * a)).
Definition sinQ (a : Q) : Q := series 16 1 (round60 a) (round60 a) (round60 (a * a)).

Definition hostQ : Host :=
  {| host_hypot := hypotQ;
     host_cos := cosQ;
     host_sin := sinQ;
     host_PI := 3.141592653589793 |}.

End ExactHost.

(* ================================================================== *)
(** ** Relating the states of a step *)

Section Relations.
Context {num : Type} {N : Number num}.

(** [spawnWave] appends enemies, all alive, and draws random numbers. *)
Definition fresh (sc : Z) (e : Enemy num) : Prop :=
  alive e = true /\ hp e = (1 + Math_floor (div (of_Z sc) (lit 800)))%Z.

(** What the bullet pass does to the state besides the two collections:
    [k] kills are scored, particles are appended, random numbers drawn. *)
Definition effects (k : nat) (ps : list (Particle num)) (r : nat) (s : State num)
  : State num :=
  mkState (running s) (paused s) (gameOver s) (score s + 100 * Z.of_nat k) (lives s)
          (keys s) (player s) (bullets s) (enemies s) (particles s ++ ps) (time s)
          (lastTime s) (spawnTimer s) (aim s) (firing s) (seen_score s) (seen_lives s) r.

(** Two entities that differ at most in what a collision writes. *)
Definition sameBullet (b b' : Bullet num) : Prop :=
  b' = b \/ b' = bullet_with (set_alive false) b.

Definition sameEnemy (e e' : Enemy num) : Prop :=
  entity_body e' = entity_body e /\ radius e' = radius e
  /\ pattern e' = pattern e /\ t e' = t e
  /\ (hp e' <= hp e)%Z /\ (alive e' = true -> alive e = true).

(** What the collision passes and the particle update keep: the timers,
    the inputs, the captured render, the place of every bullet and enemy
    in its collection; and the score never drops. *)
Definition keeps (s s' : State num) : Prop :=
  spawnTimer s' = spawnTimer s /\ time s' = time s /\ lastTime s' = lastTime s
  /\ keys s' = keys s /\ aim s' = aim s /\ firing s' = firing s
  /\ seen_score s' = seen_score s /\ seen_lives s' = seen_lives s
  /\ paused s' = paused s
  /\ Forall2 sameBullet (bullets s) (bullets s')
  /\ Forall2 sameEnemy (enemies s) (enemies s')
  /\ (score s <= score s')%Z.

(** [movePlayer], [shoot] and [updateBullets] touch neither the enemies
    nor the spawn timer, and draw no random number. *)
Definition quiet (s s' : State num) : Prop :=
  enemies s' = enemies s /\ spawnTimer s' = spawnTimer s /\ rng s' = rng s
  /\ seen_score s' = seen_score s /\ score s' = score s /\ lives s' = lives s
  /\ particles s' = particles s /\ time s' = time s.

End Relations.

(* ================================================================== *)
(** ** Measures over exact rationals *)

Section Measures.
Context {host : Host}.
Variable random : nat -> Q.
Local Open Scope Q_scope.

(** The playfield and the clamping margin. *)
Definition fieldW : Q := 480.
Definition fieldH : Q := 720.
Definition margin : Q := 15.

Definition inField (p : Vec2 Q) : Prop :=
  (margin <= x p <= fieldW - margin) /\ (margin <= y p <= fieldH - margin).

(** The fire interval. *)
Definition cooldownInterval : Q := 0.08.

(** How many bullets the shooting block of one step pushes. *)
Definition firedIn (dt : Q) (s : State Q) : nat :=
  match player s with
  | None => 0
  | Some _ =>
    let s1 := movePlayer dt (set_time (add (time s) dt) s) in
    List.length (bullets (shoot dt s1)) - List.length (bullets s1)
  end.

(** How many bullets the steps with the deltas [dts] push. *)
Fixpoint fired (dts : list Q) (s : State Q) : nat :=
  match dts with
  | [] => 0
  | dt :: dts' => firedIn dt s + fired dts' (update random dt s)
  end.

Definition total (dts : list Q) : Q := fold_right Qplus 0 dts.

(** The spawn cadence. *)
Definition intervalFloor : Q := 0.8.
Definition baseInterval : Q := 2.0.
Definition intervalSlope : Q := 0.001.

End Measures.

(* ================================================================== *)
(** ** Sessions *)

Module Session.
Import ExactHost.
#[local] Existing Instance hostQ.
Local Open Scope Q_scope.

(** [Math.random] always answers one half: every wave has five enemies
    and enters at the middle of the bottom edge. *)
Definition half : nat -> Q := fun _ => 1 # 2.

(** Frames 33 ms apart, the first at [from] ms. *)
Definition frames (from : Z) (n : nat) : list (Event (num := Q)) :=
  map (fun i => Frame (inject_Z (from + 33 * Z.of_nat i))) (seq 0 n).

(** The game is started; the first frame spawns a wave at (240, 745);
    from then on the player walks down, towards it. *)
Definition opening : list (Event (num := Q)) :=
  [ClickStart; Frame 0; KeyDown "s" "KeyS"].

(** After fifty frames the wave is 30.25 away from the player; the fire
    button goes down. *)
Definition approach : list (Event (num := Q)) :=
  opening ++ frames 33 50 ++ [PointerDown 240 745].

Definition started : State Q := step half ClickStart mount.

(** No bullet and no enemy of the state is marked not alive, and no
    particle has run out of lifetime. *)
Definition allAlive (s : State Q) : bool :=
  forallb (fun b : Bullet Q => alive b) (bullets s)
  && forallb (fun e : Enemy Q => alive e) (enemies s)
  && forallb (fun q : Particle Q => life q >? lit 0)%num (particles s).

(** After the first hit the fire button is released; the player keeps
    walking down, into the rest of the wave: the second hit comes with the
    frame at 3102 ms, the third with the frame at 4290 ms. *)
Definition twoHits : list (Event (num := Q)) :=
  approach ++ [Frame 1683; PointerUp] ++ frames 1716 78.

(** The fire button goes down five frames earlier, and the shot is fired in
    a frame of 5 ms; three frames later the next shot is due, 9 away from
    the first, and both bullets reach the first enemy of the wave in the
    same bullet pass. *)
Definition volley : list (Event (num := Q)) :=
  opening ++ frames 33 45 ++ [PointerDown 240 745; Frame 1490; Frame 1523; Frame 1556].

(** The session of [twoHits] up to the frame before the second wave is
    due: one enemy has been shot, and the session has not been paused. *)
Definition secondWave : list (Event (num := Q)) :=
  approach ++ [Frame 1683; PointerUp] ++ frames 1716 9.

(** The player after one step of the started session. *)
Definition walked : Player Q :=
  mkPlayer (mkEntity (mkBody (mkVec2 240 360) (mkVec2 0 0)) 12 true) 180 (-0.033).

Definition fourFrames : list Q := [0.033; 0.033; 0.033; 0.033].

(** The started session with the fire button down. *)
Definition firingSession : State Q := step half (PointerDown 240 100) started.

(** A bullet and an enemy whose centers are exactly the sum of the radii
    apart. *)
Definition touchingBullet : Bullet Q :=
  mkBullet (mkEntity (mkBody (mkVec2 0 0) (mkVec2 0 400)) 2 true) true.

Definition touchedEnemy : Enemy Q :=
  mkEnemy (mkEntity (mkBody (mkVec2 16 0) (mkVec2 0 0)) 14 true) 1 0 0.

(** Three steps forward and one as far back: the deltas sum to 0. *)
Definition thereAndBack : list Q := [0; 0.08; 0.08; -0.16].

(** The same with frames: the fire button is down from the start, and the
    last time stamp lies before the one of the frame before. *)
Definition forth : list (Event (num := Q)) :=
  [ClickStart; PointerDown 240 100; Frame 0; Frame 33; Frame 66; Frame 99].

Definition rewound : list (Event (num := Q)) := forth ++ [Frame 0].

End Session.

Module RealSession.
Local Open Scope R_scope.

Definition still : nat -> R := fun _ => 0.

Definition soldier : Player R :=
  mkPlayer (mkEntity (mkBody (mkVec2 240 360) (mkVec2 0 0)) 12 true) 180 0.

(** A running session without enemies, a second before the next wave. *)
Definition calm : State R :=
  mkState true false false 0 3 (fun _ => false) (Some soldier) [] [] []
          0 None 1 (mkVec2 240 240) false 0 3 O.

Definition rightAndDown : string -> bool :=
  fun k => String.eqb k "d" || String.eqb k "s".

Definition rightOnly : string -> bool := fun k => String.eqb k "d".

(** An enemy 300 above [soldier]. *)
Definition sentry : Enemy R :=
  mkEnemy (mkEntity (mkBody (mkVec2 240 60) (mkVec2 0 0)) 14 true) 1 0 0.

(** The session [calm] with that enemy in it. *)
Definition watched : State R := set_enemies [sentry] calm.

End RealSession.

(* ================================================================== *)
(** ** What a session keeps *)

Section Invariants.
Context {num : Type} {N : Number num}.

(** The attributes that no assignment of the component changes. *)
Definition bulletOK (b : Bullet num) : Prop :=
  fromPlayer b = true /\ radius b = lit 2.

Definition enemyOK (e : Enemy num) : Prop :=
  radius e = lit 14 /\ vel e = mkVec2 (lit 0) (lit 0).

(** What every state of a session satisfies, whatever the game loop has
    captured. *)
Definition loose (s : State num) : Prop :=
  (match player s with
   | None => running s = false /\ gameOver s = false
   | Some p =>
     alive p = negb (gameOver s) /\ running s = negb (gameOver s)
     /\ radius p = lit 12 /\ speed p = lit 180
   end)
  /\ Forall bulletOK (bullets s)
  /\ Forall enemyOK (enemies s)
  /\ (exists k : nat, score s = (100 * Z.of_nat k)%Z)
  /\ (lives s <= 3)%Z
  /\ (gameOver s = true -> lives s <= 0)%Z.

(** The captured score and lives against the current ones. *)
Definition seenOK (s : State num) : Prop :=
  (exists k j : nat, seen_score s = (100 * Z.of_nat k)%Z
                     /\ score s = (seen_score s + 100 * Z.of_nat j)%Z)
  /\ (lives s <= seen_lives s <= 3)%Z.

Definition steady (s : State num) : Prop := loose s /\ seenOK s.

(** What the blocks of a step before the collision passes leave alone. *)
Definition sameRender (s s' : State num) : Prop :=
  running s' = running s /\ paused s' = paused s /\ gameOver s' = gameOver s
  /\ score s' = score s /\ lives s' = lives s
  /\ seen_score s' = seen_score s /\ seen_lives s' = seen_lives s
  /\ keys s' = keys s /\ aim s' = aim s /\ firing s' = firing s
  /\ lastTime s' = lastTime s /\ particles s' = particles s /\ time s' = time s.

End Invariants.

(** ** What is pushed *)

Section Waves.
Context {num : Type} {N : Number num}.
Variable random : nat -> num.
Local Open Scope num_scope.

(** Where an enemy enters: 25 outside the edge [side] (0: top, 1: right,
    2: bottom, else left), at the fraction [r] of its length. *)
Definition entry (side : Z) (r : num) : Vec2 num :=
  if (side =? 0)%Z then mkVec2 (r * INTERNAL_WIDTH) (lit (-25))
  else if (side =? 1)%Z then mkVec2 (INTERNAL_WIDTH + lit 25) (r * INTERNAL_HEIGHT)
  else if (side =? 2)%Z then mkVec2 (r * INTERNAL_WIDTH) (INTERNAL_HEIGHT + lit 25)
  else mkVec2 (lit (-25)) (r * INTERNAL_HEIGHT).

(** The enemy that [spawnWave] pushes when [i] random numbers have been
    drawn and the score read is [sc]. *)
Definition newEnemy (sc : Z) (i : nat) : Enemy num :=
  mkEnemy
    (mkEntity (mkBody (entry (Math_floor (random i * lit 4)) (random (S i)))
                      (mkVec2 (lit 0) (lit 0)))
              (lit 14) true)
    (1 + Math_floor (of_Z sc / lit 800))
    (Math_floor (random (S (S i)) * lit 3))
    (lit 0).

Definition wave (sc : Z) (n i : nat) : list (Enemy num) :=
  map (fun j => newEnemy sc (3 * j + i)) (seq 0 n).

(** The particle that [emitExplosion] pushes in its turn [i], when [r]
    random numbers have been drawn. *)
Definition newParticle (px py : num) (c : string) (i : Z) (r : nat) : Particle num :=
  let a := Math_PI * lit 2 * of_Z i / lit 16 + random r * lit 0.3 in
  let sp := lit 60 + random (S r) * lit 80 in
  mkParticle (mkBody (mkVec2 px py) (mkVec2 (Math_cos a * sp) (Math_sin a * sp)))
             (lit 0.4 + random (S (S r)) * lit 0.3) c.

Definition burst (px py : num) (c : string) (r : nat) : list (Particle num) :=
  map (fun j => newParticle px py c (Z.of_nat j) (3 * j + r)) (seq 0 16).

End Waves.

(** ** The pointer *)

(** [canvas.getBoundingClientRect()] *)
Module DOMRect.
Record t (num : Type) : Type := mk { left : num; top : num; width : num; height : num }.
Arguments mk {num} _ _ _ _.
End DOMRect.

Section Pointer.
Context {num : Type} {N : Number num}.
Local Open Scope num_scope.

(** From client coordinates to the coordinates of the playfield. *)
Definition toCanvas (rect : DOMRect.t num) (clientX clientY : num) : Vec2 num :=
  mkVec2 ((clientX - DOMRect.left rect) / DOMRect.width rect * INTERNAL_WIDTH)
         ((clientY - DOMRect.top rect) / DOMRect.height rect * INTERNAL_HEIGHT).

End Pointer.

(** ** Places and counts over exact rationals *)

Section Places.
Local Open Scope Q_scope.

(** The player inside the field and every bullet within the bounds. *)
Definition placed (s : State Q) : Prop :=
  (forall p, player s = Some p -> inField (pos p))
  /\ (forall b, In b (bullets s) -> -10 <= x (pos b) <= 490 /\ -10 <= y (pos b) <= 730).

(** The place of an enemy that enters: 25 outside one edge of the field,
    along that edge. *)
Definition atTheGate (p : Vec2 Q) : Prop :=
  (y p = -25 /\ 0 <= x p < 480) \/ (x p = 505 /\ 0 <= y p < 720)
  \/ (y p = 745 /\ 0 <= x p < 480) \/ (x p = -25 /\ 0 <= y p < 720).

(** The number of animation frames among the events. *)
Definition frameCount (evs : list (Event (num := Q))) : nat :=
  List.length (filter (fun ev => match ev with Frame _ => true | _ => false end) evs).

(** A living enemy has a hit point left, and no enemy has more than the
    wave for the score [sc] starts with. *)
Definition hpOK (sc : Z) (e : Enemy Q) : Prop :=
  (alive e = true -> (1 <= hp e)%Z) /\ (hp e <= 1 + sc / 800)%Z.

End Places.

(** ** Drawing *)

(** What [draw] does to the 2D context, call by call and assignment by
    assignment. *)
Inductive Style : Type :=
| Pattern                  (* the field pattern *)
| Color (c : string).

Inductive Canvas (num : Type) : Type :=
| clearRect (cx cy w h : num)
| fillRect (cx cy w h : num)
| fillStyle (st : Style)
| strokeStyle (c : string)
| lineWidth (w : num)
| globalAlpha (a : num)
| beginPath
| closePath
| fill
| stroke
| save
| restore
| arc (cx cy r a0 a1 : num)
| moveTo (cx cy : num)
| lineTo (cx cy : num)
| translate (cx cy : num)
| rotate (a : num).

Arguments beginPath {num}.
Arguments closePath {num}.
Arguments fill {num}.
Arguments stroke {num}.
Arguments save {num}.
Arguments restore {num}.
Arguments fillStyle {num} _.
Arguments strokeStyle {num} _.

Section Draw.
Context {num : Type} {N : Number num}.
Local Open Scope num_scope.
Local Open Scope string_scope.

(** [Math.atan2] *)
Variable Math_atan2 : num -> num -> num.

Definition drawParticle (p : Particle num) : list (Canvas num) :=
  [fillStyle (Color (color p));
   globalAlpha (Math_max (lit 0) (Math_min (lit 1) (life p)));
   beginPath;
   arc (x (pos p)) (y (pos p)) (lit 2) (lit 0) (Math_PI * lit 2);
   fill;
   globalAlpha (lit 1)].

Definition drawBullet (b : Bullet num) : list (Canvas num) :=
  [beginPath;
   arc (x (pos b)) (y (pos b)) (radius b) (lit 0) (Math_PI * lit 2);
   fill;
   stroke].

(** One turn of the loop over the four limbs. *)
Definition drawLimb (e : Enemy num) (i : Z) : list (Canvas num) :=
  let t4 := t e * lit 4 in
  let angle := Math_PI * lit 2 * of_Z i / lit 4 + t4 in
  let limbX := x (pos e) + Math_cos angle * (radius e + lit 4) in
  let limbY := y (pos e) + Math_sin angle * (radius e + lit 4) in
  [strokeStyle "hsl(120, 30%, 25%)";
   lineWidth (lit 1);
   beginPath;
   moveTo (x (pos e)) (y (pos e));
   lineTo limbX limbY;
   stroke].

Definition drawEnemy (e : Enemy num) : list (Canvas num) :=
  [save;
   fillStyle (Color "hsl(120, 40%, 30%)");
   strokeStyle "hsl(120, 50%, 20%)";
   lineWidth (lit 2);
   beginPath;
   arc (x (pos e)) (y (pos e)) (radius e) (lit 0) (Math_PI * lit 2);
   fill;
   stroke]
  ++ flat_map (drawLimb e) [0; 1; 2; 3]%Z
  ++ [fillStyle (Color "hsl(0, 80%, 60%)");
      beginPath;
      arc (x (pos e) - lit 4) (y (pos e) - lit 3) (lit 2) (lit 0) (Math_PI * lit 2);
      arc (x (pos e) + lit 4) (y (pos e) - lit 3) (lit 2) (lit 0) (Math_PI * lit 2);
      fill;
      restore].

Definition drawPlayer (p : Player num) (target : Vec2 num) : list (Canvas num) :=
  let ang := Math_atan2 (y target - y (pos p)) (x target - x (pos p)) in
  [save;
   translate (x (pos p)) (y (pos p));
   rotate (ang + Math_PI / lit 2);
   fillStyle (Color "hsl(var(--primary))");
   strokeStyle "hsl(var(--primary-foreground))";
   lineWidth (lit 1);
   beginPath;
   moveTo (lit 0) (lit (-12));
   lineTo (lit 8) (lit 8);
   lineTo (lit 0) (lit 4);
   lineTo (lit (-8)) (lit 8);
   closePath;
   fill;
   stroke;
   strokeStyle "hsl(40, 50%, 40%)";
   lineWidth (lit 2);
   beginPath;
   moveTo (lit 0) (lit (-12));
   lineTo (lit 0) (lit (-20));
   stroke;
   restore].

(** [draw(ctx)]; [hasPattern] tells whether [fieldPatternRef.current] is
    set. *)
Definition draw (hasPattern : bool) (s : State num) : list (Canvas num) :=
  [clearRect (lit 0) (lit 0) INTERNAL_WIDTH INTERNAL_HEIGHT;
   fillStyle (if hasPattern then Pattern else Color "hsl(85, 40%, 25%)");
   fillRect (lit 0) (lit 0) INTERNAL_WIDTH INTERNAL_HEIGHT]
  ++ flat_map drawParticle (particles s)
  ++ [fillStyle (Color "hsl(50, 90%, 80%)");
      strokeStyle "hsl(50, 90%, 60%)";
      lineWidth (lit 1)]
  ++ flat_map drawBullet (bullets s)
  ++ flat_map drawEnemy (enemies s)
  ++ match player s with
     | Some p => if alive p then drawPlayer p (aim s) else []
     | None => []
     end.

(** The part of the state of the 2D context that [draw] may leave behind
    for the next frame: the stack of saved states and the alpha in effect.
    [save] pushes the alpha, [restore] pops it, and does nothing when the
    stack is empty. *)
Fixpoint contextAfter (cs : list (Canvas num)) (stack : list num) (alpha : num)
  : list num * num :=
  match cs with
  | [] => (stack, alpha)
  | save :: cs' => contextAfter cs' (alpha :: stack) alpha
  | restore :: cs' =>
    match stack with
    | [] => contextAfter cs' [] alpha
    | a :: stack' => contextAfter cs' stack' a
    end
  | globalAlpha a :: cs' => contextAfter cs' stack a
  | _ :: cs' => contextAfter cs' stack alpha
  end.

(** The alphas that are set. *)
Definition alphas (cs : list (Canvas num)) : list num :=
  flat_map (fun c => match c with
                     | globalAlpha a => [a]
                     | _ => []
                     end) cs.

(** The discs drawn: center and radius of every [arc]. *)
Definition discs (cs : list (Canvas num)) : list (num * num * num) :=
  flat_map (fun c => match c with
                     | arc cx cy r _ _ => [(cx, cy, r)]
                     | _ => []
                     end) cs.

(** The sprite of the player is the only drawing under a translation. *)
Definition isTranslate (c : Canvas num) : bool :=
  match c with translate _ _ => true | _ => false end.

End Draw.

(** ** Inputs *)

Module Inputs.
Local Open Scope Q_scope.

(** A canvas shown at twice the size of the playfield, at (10, 20). *)
Definition canvasRect : DOMRect.t Q := DOMRect.mk 10 20 960 1440.

(** The session of [twoHits], paused and resumed before the third hit. *)
Definition lastStand : list (Event (num := Q)) :=
  Session.twoHits ++ [KeyDown "p" "KeyP"; KeyDown "p" "KeyP"].

End Inputs.

Module RealInputs.
Import RealSession.
Local Open Scope R_scope.

(** An enemy at the distance 5 from [soldier]. *)
Definition grunt : Enemy R :=
  mkEnemy (mkEntity (mkBody (mkVec2 237 356) (mkVec2 0 0)) 14 true) 1 0 0.

End RealInputs.

(* ================================================================== *)
(** ** What each block leaves alone *)

Section Frames.
Context {num : Type} {N : Number num}.
Variable random : nat -> num.

Lemma state_eta (s : State num) :
  set_rng (rng s) (set_particles (particles s) s) = s.
Proof. destruct s; reflexivity. Qed.

(** [emitExplosion] appends particles and draws random numbers. *)
Lemma emitLoop_frame n px py c i (s : State num) :
  exists ps, List.length ps = n /\
    emitLoop random n px py c i s
    = set_rng (3 * n + rng s) (set_particles (particles s ++ ps) s).
Proof.
  revert i s; induction n as [|n IH]; intros i s.
  - exists []. split; [reflexivity|].
    cbn [emitLoop]. rewrite app_nil_r. symmetry; apply state_eta.
  - cbn [emitLoop].
    destruct (IH (i + 1)%Z (emitParticle random px py c i s)) as (ps & Hlen & ->).
    unfold emitParticle. destruct s.
    eexists (_ :: ps). split; [cbn; now rewrite Hlen|].
    eval_fields. rewrite <- app_assoc. cbn [app].
    f_equal; first [reflexivity | lia].
Qed.

Lemma emitExplosion_frame px py c (s : State num) :
  exists ps, List.length ps = 16%nat /\
    emitExplosion random px py c s
    = set_rng (48 + rng s) (set_particles (particles s ++ ps) s).
Proof. apply emitLoop_frame. Qed.

Lemma spawnLoop_frame n (s : State num) :
  exists es, List.length es = n /\
    spawnLoop random n s
    = set_rng (3 * n + rng s) (set_enemies (enemies s ++ es) s)
    /\ Forall (fresh (seen_score s)) es.
Proof.
  revert s; induction n as [|n IH]; intros s.
  - exists []. repeat split; [|constructor].
    cbn [spawnLoop]. rewrite app_nil_r. destruct s; reflexivity.
  - cbn [spawnLoop].
    destruct (IH (spawnEnemy random s)) as (es & Hlen & -> & Hall).
    unfold spawnEnemy in *. eval_fields_in Hall. destruct s.
    eexists (_ :: es).
    split; [cbn; now rewrite Hlen|]. split.
    + eval_fields. rewrite <- app_assoc. cbn [app].
      f_equal; first [reflexivity | lia].
    + constructor; [|exact Hall]. split; reflexivity.
Qed.

Lemma spawnWave_frame (s : State num) :
  exists es r, List.length es = Z.to_nat (waveCount random s) /\
    Forall (fresh (seen_score s)) es /\
    spawnWave random s = set_rng r (set_enemies (enemies s ++ es) s).
Proof.
  unfold spawnWave.
  destruct (spawnLoop_frame (Z.to_nat (waveCount random s)) (set_rng (S (rng s)) s))
    as (es & Hlen & -> & Hall).
  exists es. eexists. split; [exact Hlen|]. split; [exact Hall|].
  destruct s; reflexivity.
Qed.

Lemma effects_none (s : State num) : s = effects 0 [] (rng s) s.
Proof.
  unfold effects. rewrite app_nil_r, Z.add_0_r. destruct s; reflexivity.
Qed.

Lemma effects_effects k1 ps1 r1 k2 ps2 r2 (s : State num) :
  effects k2 ps2 r2 (effects k1 ps1 r1 s) = effects (k1 + k2) (ps1 ++ ps2) r2 s.
Proof.
  unfold effects. eval_fields. rewrite <- app_assoc. f_equal. lia.
Qed.

Lemma emitExplosion_effects px py c (s : State num) :
  exists ps r, emitExplosion random px py c s = effects 0 ps r s.
Proof.
  destruct (emitExplosion_frame px py c s) as (ps & _ & ->).
  exists ps. eexists. unfold effects. rewrite Z.add_0_r.
  destruct s; reflexivity.
Qed.

Lemma damage_effects (e e' : Enemy num) (s s' : State num) :
  damage random e s = (e', s') ->
  exists k ps r, s' = effects k ps r s /\ (k <= 1)%nat
    /\ hp e' = (hp e - 1)%Z
    /\ (k = 1%nat <-> (hp e' <= 0)%Z)
    /\ alive e' = (if (hp e' <=? 0)%Z then false else alive e)
    /\ entity_body e' = entity_body e /\ radius e' = radius e.
Proof.
  unfold damage. cbn [hp set_hp pos entity_body enemy_entity].
  destruct (emitExplosion_effects (x (pos e)) (y (pos e)) "hsl(var(--accent))" s)
    as (ps1 & r1 & ->).
  destruct (Z.leb_spec (hp e - 1) 0) as [Hle|Hgt]; intros [= <- <-].
  - match goal with |- context [emitExplosion random ?a ?b ?c ?st] =>
      destruct (emitExplosion_effects a b c st) as (ps2 & r2 & E2) end.
    exists 1%nat, (ps1 ++ ps2), r2. split.
    { cbn [snd]. rewrite E2. unfold effects. eval_fields.
      rewrite <- app_assoc. f_equal. lia. }
    cbn. repeat split; try lia.
    destruct (Z.leb_spec (hp e - 1) 0); [reflexivity | lia].
  - exists 0%nat, ps1, r1. repeat split; cbn; try lia.
    destruct (Z.leb_spec (hp e - 1) 0); [lia | reflexivity].
Qed.

(** The inner loop of the bullet pass stops at the first enemy that the
    bullet overlaps. *)
Lemma scanEnemies_None (b : Bullet num) es (s : State num) :
  scanEnemies random b es s = None <-> Forall (fun e : Enemy num => overlaps b e = false) es.
Proof.
  induction es as [|e es IH]; cbn [scanEnemies].
  - split; [constructor | reflexivity].
  - destruct (overlaps b e) eqn:Ho.
    + destruct (damage random e s). split; [discriminate|].
      intros H; inversion H; congruence.
    + destruct (scanEnemies random b es s) as [[es' s']|].
      * split; [discriminate|]. intros H; inversion H; subst.
        apply IH in H3. discriminate.
      * split; [|reflexivity]. intros _. constructor; [exact Ho | now apply IH].
Qed.

Lemma scanEnemies_Some (b : Bullet num) es (s : State num) es' s' :
  scanEnemies random b es s = Some (es', s') ->
  exists pre e post e',
    es = pre ++ e :: post /\ es' = pre ++ e' :: post
    /\ Forall (fun e0 : Enemy num => overlaps b e0 = false) pre
    /\ overlaps b e = true /\ damage random e s = (e', s').
Proof.
  revert es' s'; induction es as [|e es IH]; cbn [scanEnemies]; intros es' s'.
  - discriminate.
  - destruct (overlaps b e) eqn:Ho.
    + destruct (damage random e s) as [e1 s1] eqn:Hd. intros [= <- <-].
      exists [], e, es, e1. repeat split; auto.
    + destruct (scanEnemies random b es s) as [[es1 s1]|]; [|discriminate].
      intros [= <- <-].
      destruct (IH _ _ eq_refl) as (pre & e0 & post & e1 & -> & -> & Hpre & Ho' & Hd).
      exists (e :: pre), e0, post, e1. repeat split; auto.
Qed.

Lemma sameEnemy_refl (e : Enemy num) : sameEnemy e e.
Proof. unfold sameEnemy; repeat split; auto; lia. Qed.

Lemma sameEnemy_trans (e1 e2 e3 : Enemy num) :
  sameEnemy e1 e2 -> sameEnemy e2 e3 -> sameEnemy e1 e3.
Proof.
  unfold sameEnemy. intros (A1 & A2 & A3 & A4 & A5 & A6) (B1 & B2 & B3 & B4 & B5 & B6).
  repeat split; try congruence; auto; lia.
Qed.

Lemma Forall2_sameEnemy_refl (es : list (Enemy num)) : Forall2 sameEnemy es es.
Proof. induction es; constructor; auto using sameEnemy_refl. Qed.

Lemma Forall2_sameEnemy_trans (es1 es2 es3 : list (Enemy num)) :
  Forall2 sameEnemy es1 es2 -> Forall2 sameEnemy es2 es3 -> Forall2 sameEnemy es1 es3.
Proof.
  intros H; revert es3; induction H; intros es3 H'; inversion H'; subst;
    constructor; eauto using sameEnemy_trans.
Qed.

Lemma damage_sameEnemy e e' (s s' : State num) :
  damage random e s = (e', s') -> sameEnemy e e'.
Proof.
  unfold damage. cbn [hp set_hp].
  destruct (hp e - 1 <=? 0)%Z; intros [= <- <-]; unfold sameEnemy; cbn;
    repeat split; auto; try lia; discriminate.
Qed.

Lemma scanEnemies_frame (b : Bullet num) es (s : State num) es' s' :
  scanEnemies random b es s = Some (es', s') ->
  Forall2 sameEnemy es es' /\ exists k ps r, s' = effects k ps r s.
Proof.
  intros H. apply scanEnemies_Some in H.
  destruct H as (pre & e & post & e' & -> & -> & _ & _ & Hd). split.
  - apply Forall2_app; [apply Forall2_sameEnemy_refl|].
    constructor; [eapply damage_sameEnemy; eauto | apply Forall2_sameEnemy_refl].
  - apply damage_effects in Hd. destruct Hd as (k & ps & r & -> & _). eauto.
Qed.

Lemma bulletPass_frame bs es (s : State num) bs' es' s' :
  bulletPass random bs es s = (bs', es', s') ->
  Forall2 sameBullet bs bs' /\ Forall2 sameEnemy es es'
  /\ exists k ps r, s' = effects k ps r s.
Proof.
  revert es s bs' es' s'; induction bs as [|b bs IH]; cbn [bulletPass];
    intros es s bs' es' s'.
  - intros [= <- <- <-]. split; [constructor|]. split.
    + apply Forall2_sameEnemy_refl.
    + exists 0%nat, [], (rng s). apply effects_none.
  - destruct (negb (fromPlayer b)).
    + destruct (bulletPass random bs es s) as [[bs1 es1] s1] eqn:Hp.
      intros [= <- <- <-]. destruct (IH _ _ _ _ _ Hp) as (Hb & He & Hs).
      split; [constructor; [now left | exact Hb]|]. auto.
    + destruct (scanEnemies random b es s) as [[es0 s0]|] eqn:Hscan.
      * destruct (bulletPass random bs es0 s0) as [[bs1 es1] s1] eqn:Hp.
        intros [= <- <- <-]. destruct (IH _ _ _ _ _ Hp) as (Hb & He & k & ps & r & ->).
        apply scanEnemies_frame in Hscan. destruct Hscan as (He0 & k0 & ps0 & r0 & ->).
        split; [constructor; [now right | exact Hb]|]. split.
        -- eapply Forall2_sameEnemy_trans; eauto.
        -- rewrite effects_effects. eauto.
      * destruct (bulletPass random bs es s) as [[bs1 es1] s1] eqn:Hp.
        intros [= <- <- <-]. destruct (IH _ _ _ _ _ Hp) as (Hb & He & Hs).
        split; [constructor; [now left | exact Hb]|]. auto.
Qed.

(** [hitPlayer]: a burst, one life less, and then either the end of the
    game or the reposition, decided by the captured [lives]. *)
Lemma hitPlayer_spec (p : Player num) (s : State num) :
  exists ps r,
    hitPlayer random p s =
    let s1 := set_lives (lives s - 1) (effects 0 ps r s) in
    if (seen_lives s - 1 <=? 0)%Z then
      set_running false
        (set_gameOver true (set_player (Some (player_with (set_alive false) p)) s1))
    else set_player (Some (player_with (set_pos startPos) p)) s1.
Proof.
  unfold hitPlayer.
  destruct (emitExplosion_effects (x (pos p)) (y (pos p)) "hsl(var(--destructive))" s)
    as (ps & r & ->).
  exists ps, r. reflexivity.
Qed.

Lemma playerScan_Some (p : Player num) es (s : State num) es' s' :
  playerScan random p es s = Some (es', s') ->
  alive p = true /\
  exists pre e post,
    es = pre ++ e :: post /\ es' = pre ++ enemy_with (set_alive false) e :: post
    /\ Forall (fun e0 : Enemy num => overlaps p e0 = false) pre
    /\ overlaps p e = true /\ s' = hitPlayer random p s.
Proof.
  revert es' s'; induction es as [|e es IH]; cbn [playerScan]; intros es' s'.
  - discriminate.
  - destruct (alive p) eqn:Ha; cbn [negb]; [|discriminate].
    destruct (overlaps p e) eqn:Ho.
    + intros [= <- <-]. split; [reflexivity|].
      exists [], e, es. repeat split; auto.
    + destruct (playerScan random p es s) as [[es1 s1]|]; [|discriminate].
      intros [= <- <-].
      destruct (IH _ _ eq_refl) as (_ & pre & e0 & post & -> & -> & Hpre & Ho' & ->).
      split; [reflexivity|].
      exists (e :: pre), e0, post. repeat split; auto.
Qed.

Lemma playerScan_sameEnemy (p : Player num) es (s : State num) es' s' :
  playerScan random p es s = Some (es', s') -> Forall2 sameEnemy es es'.
Proof.
  intros H. apply playerScan_Some in H.
  destruct H as (_ & pre & e & post & -> & -> & _).
  apply Forall2_app; [apply Forall2_sameEnemy_refl|].
  constructor; [|apply Forall2_sameEnemy_refl].
  unfold sameEnemy; cbn. repeat split; auto; try lia; discriminate.
Qed.

(** *** The player through a step *)

Lemma player_spawnEnemies dt (s : State num) :
  player (spawnEnemies random dt s) = player s.
Proof.
  unfold spawnEnemies. cbn [spawnTimer set_spawnTimer].
  destruct (leb (sub (spawnTimer s) dt) (lit 0)); [|reflexivity].
  destruct (spawnWave_frame (set_spawnTimer (sub (spawnTimer s) dt) s))
    as (es & r & _ & _ & ->).
  reflexivity.
Qed.

Lemma player_shoot dt (s : State num) p :
  player s = Some p ->
  let c := sub (cooldown p) dt in
  player (shoot dt s)
  = Some (if isFiring s && leb c (lit 0)
          then set_cooldown (lit 0.08) (set_cooldown c p)
          else set_cooldown c p).
Proof.
  unfold shoot. intros ->. cbn [cooldown set_cooldown].
  destruct (isFiring s && _); reflexivity.
Qed.

Lemma player_movePlayer dt (s : State num) p :
  player s = Some p ->
  exists p1, player (movePlayer dt s) = Some p1
    /\ cooldown p1 = cooldown p /\ speed p1 = speed p
    /\ alive p1 = alive p /\ radius p1 = radius p.
Proof.
  unfold movePlayer. intros ->. eexists. split; [reflexivity|].
  repeat split.
Qed.

Lemma player_updateEnemies dt (s : State num) :
  player (updateEnemies dt s) = player s.
Proof. reflexivity. Qed.

Lemma spawnTimer_updateEnemies dt (s : State num) :
  spawnTimer (updateEnemies dt s) = spawnTimer s.
Proof. reflexivity. Qed.

Lemma player_beforeCollisions dt (s : State num) :
  player (beforeCollisions random dt s) = player (shoot dt (movePlayer dt s)).
Proof.
  unfold beforeCollisions.
  rewrite player_updateEnemies, player_spawnEnemies. reflexivity.
Qed.

Lemma player_collideBullets (s : State num) :
  player (collideBullets random s) = player s.
Proof.
  unfold collideBullets.
  destruct (bulletPass random (bullets s) (enemies s) s) as [[bs es] s'] eqn:Hp.
  apply bulletPass_frame in Hp. destruct Hp as (_ & _ & k & ps & r & ->).
  reflexivity.
Qed.

Lemma player_collidePlayer (s : State num) p :
  player s = Some p ->
  player (collidePlayer random s) = Some p
  \/ player (collidePlayer random s) = Some (player_with (set_alive false) p)
  \/ player (collidePlayer random s) = Some (player_with (set_pos startPos) p).
Proof.
  unfold collidePlayer. intros Hp. rewrite Hp.
  destruct (playerScan random p (enemies s) s) as [[es s']|] eqn:Hscan; [|now left].
  apply playerScan_Some in Hscan.
  destruct Hscan as (_ & pre & e & post & _ & _ & _ & _ & ->).
  destruct (hitPlayer_spec p s) as (ps & r & ->). cbn zeta.
  destruct (seen_lives s - 1 <=? 0)%Z; [right; left | right; right]; reflexivity.
Qed.

(** After a step the player is the one that [shoot] left, up to what
    [hitPlayer] writes. *)
Lemma update_player dt (s : State num) p :
  player s = Some p ->
  exists p2,
    player (shoot dt (movePlayer dt (set_time (add (time s) dt) s))) = Some p2
    /\ (player (update random dt s) = Some p2
        \/ player (update random dt s) = Some (player_with (set_alive false) p2)
        \/ player (update random dt s) = Some (player_with (set_pos startPos) p2)).
Proof.
  intros Hp0. unfold update. cbn [player set_time]. rewrite Hp0.
  set (s0 := set_time (add (time s) dt) s).
  destruct (player_movePlayer dt s0 (p := p) Hp0) as (p1 & Hp1 & _).
  pose proof (player_shoot dt (movePlayer dt s0) Hp1) as Hp2. cbn zeta in Hp2.
  eexists. split; [exact Hp2|].
  unfold updateParticles. cbn [player set_particles].
  apply player_collidePlayer.
  rewrite player_collideBullets, player_beforeCollisions. exact Hp2.
Qed.

Lemma update_with_player dt (s : State num) p :
  player s = Some p ->
  update random dt s
  = updateParticles dt
      (collidePlayer random
         (collideBullets random
            (beforeCollisions random dt (set_time (add (time s) dt) s)))).
Proof. unfold update. cbn [player set_time]. now intros ->. Qed.

Lemma update_no_player dt (s : State num) :
  player s = None -> update random dt s = set_time (add (time s) dt) s.
Proof. unfold update. cbn [player set_time]. now intros ->. Qed.

(** After a step the player is where [movePlayer] put it, or at the start
    position. *)
Lemma update_player_pos dt (s : State num) p :
  player (update random dt s) = Some p ->
  exists p1, player (movePlayer dt (set_time (add (time s) dt) s)) = Some p1
    /\ (pos p = pos p1 \/ pos p = startPos).
Proof.
  destruct (player s) as [p0|] eqn:Hp0.
  - destruct (update_player dt s Hp0) as (p2 & Hp2 & Hu).
    destruct (player_movePlayer dt (set_time (add (time s) dt) s) (p := p0) Hp0)
      as (p1 & Hp1 & _).
    rewrite (player_shoot dt _ Hp1) in Hp2. cbn zeta in Hp2.
    intros Hp. exists p1. split; [exact Hp1|].
    assert (pos p2 = pos p1) as E2
        by (injection Hp2 as <-; destruct (isFiring _ && _); reflexivity).
    destruct Hu as [Hu|[Hu|Hu]]; rewrite Hu in Hp; injection Hp as <-; cbn; auto.
  - rewrite (update_no_player dt s Hp0). cbn [player set_time]. congruence.
Qed.

(** *** The collections and the timers through a step *)

Lemma Forall2_sameBullet_refl (bs : list (Bullet num)) : Forall2 sameBullet bs bs.
Proof. induction bs; constructor; auto. now left. Qed.

Lemma sameBullet_trans (b1 b2 b3 : Bullet num) :
  sameBullet b1 b2 -> sameBullet b2 b3 -> sameBullet b1 b3.
Proof. unfold sameBullet. intros [->| ->] [->| ->]; auto. Qed.

Lemma Forall2_sameBullet_trans (bs1 bs2 bs3 : list (Bullet num)) :
  Forall2 sameBullet bs1 bs2 -> Forall2 sameBullet bs2 bs3 -> Forall2 sameBullet bs1 bs3.
Proof.
  intros H; revert bs3; induction H; intros bs3 H'; inversion H'; subst;
    constructor; eauto using sameBullet_trans.
Qed.

Lemma keeps_refl (s : State num) : keeps s s.
Proof.
  unfold keeps. repeat split; auto using Forall2_sameBullet_refl, Forall2_sameEnemy_refl.
  lia.
Qed.

Lemma keeps_trans (s1 s2 s3 : State num) : keeps s1 s2 -> keeps s2 s3 -> keeps s1 s3.
Proof.
  unfold keeps.
  intros (A1 & A2 & A3 & A4 & A5 & A6 & A7 & A8 & A9 & A10 & A11 & A12)
         (B1 & B2 & B3 & B4 & B5 & B6 & B7 & B8 & B9 & B10 & B11 & B12).
  repeat split; try congruence;
    eauto using Forall2_sameBullet_trans, Forall2_sameEnemy_trans; lia.
Qed.

Lemma keeps_collideBullets (s : State num) : keeps s (collideBullets random s).
Proof.
  unfold collideBullets.
  destruct (bulletPass random (bullets s) (enemies s) s) as [[bs es] s1] eqn:Hp.
  apply bulletPass_frame in Hp. destruct Hp as (Hb & He & k & ps & r & ->).
  unfold keeps, effects. eval_fields. repeat split; auto. lia.
Qed.

Lemma keeps_hitPlayer (p : Player num) (s : State num) : keeps s (hitPlayer random p s).
Proof.
  destruct (hitPlayer_spec p s) as (ps & r & ->). cbn zeta.
  destruct (_ <=? 0)%Z; unfold keeps, effects; eval_fields;
    repeat split; auto using Forall2_sameBullet_refl, Forall2_sameEnemy_refl; lia.
Qed.

Lemma keeps_collidePlayer (s : State num) : keeps s (collidePlayer random s).
Proof.
  unfold collidePlayer. destruct (player s) as [p|]; [|apply keeps_refl].
  destruct (playerScan random p (enemies s) s) as [[es' s']|] eqn:Hscan;
    [|apply keeps_refl].
  pose proof (playerScan_sameEnemy _ _ _ Hscan) as He'.
  apply playerScan_Some in Hscan.
  destruct Hscan as (_ & pre & e & post & _ & _ & _ & _ & ->).
  destruct (keeps_hitPlayer p s)
    as (A1 & A2 & A3 & A4 & A5 & A6 & A7 & A8 & A9 & A10 & A11 & A12).
  unfold keeps. eval_fields. repeat split; auto.
Qed.

Lemma keeps_updateParticles dt (s : State num) : keeps s (updateParticles dt s).
Proof.
  unfold keeps, updateParticles. eval_fields.
  repeat split; auto using Forall2_sameBullet_refl, Forall2_sameEnemy_refl. lia.
Qed.

Lemma collisions_frame dt (s : State num) :
  keeps s (updateParticles dt (collidePlayer random (collideBullets random s))).
Proof.
  eapply keeps_trans; [apply keeps_collideBullets|].
  eapply keeps_trans; [apply keeps_collidePlayer | apply keeps_updateParticles].
Qed.

Lemma bullets_beforeCollisions dt (s : State num) :
  bullets (beforeCollisions random dt s)
  = filter (fun b : Bullet num => alive b)
           (map (moveBullet dt) (bullets (shoot dt (movePlayer dt s)))).
Proof.
  unfold beforeCollisions, updateEnemies.
  set (s1 := shoot dt (movePlayer dt s)).
  assert (bullets (spawnEnemies random dt (updateBullets dt s1))
          = filter (fun b : Bullet num => alive b) (map (moveBullet dt) (bullets s1))) as E.
  { unfold spawnEnemies. cbn [spawnTimer set_spawnTimer].
    destruct (leb _ _); [|reflexivity].
    match goal with |- context [spawnWave random ?st] =>
      destruct (spawnWave_frame st) as (es & r & _ & _ & ->) end.
    reflexivity. }
  destruct (player _); exact E.
Qed.

(** The spawn block: the wave, when the timer has run out. *)
Lemma spawnEnemies_cases dt (s : State num) :
  (leb (sub (spawnTimer s) dt) (lit 0) = true
   /\ spawnTimer (spawnEnemies random dt s) = spawnInterval (seen_score s)
   /\ exists wave,
       List.length wave = Z.to_nat (waveCount random s)
       /\ Forall (fresh (seen_score s)) wave
       /\ enemies (spawnEnemies random dt s) = enemies s ++ wave)
  \/ (leb (sub (spawnTimer s) dt) (lit 0) = false
      /\ spawnTimer (spawnEnemies random dt s) = sub (spawnTimer s) dt
      /\ enemies (spawnEnemies random dt s) = enemies s).
Proof.
  unfold spawnEnemies. cbn [spawnTimer set_spawnTimer].
  destruct (leb (sub (spawnTimer s) dt) (lit 0)); [left | right; auto].
  split; [reflexivity|].
  match goal with |- context [spawnWave random ?st] =>
    destruct (spawnWave_frame st) as (es & r & Hlen & Hall & ->) end.
  split; [reflexivity|]. exists es. auto.
Qed.

Lemma spawnEnemies_frame dt (s : State num) :
  let s' := spawnEnemies random dt s in
  seen_score s' = seen_score s /\ bullets s' = bullets s /\ score s' = score s
  /\ lives s' = lives s /\ particles s' = particles s /\ time s' = time s.
Proof.
  cbn zeta. unfold spawnEnemies. cbn [spawnTimer set_spawnTimer].
  destruct (leb _ _); [|repeat split].
  match goal with |- context [spawnWave random ?st] =>
    destruct (spawnWave_frame st) as (es & r & _ & _ & ->) end.
  repeat split.
Qed.

Lemma quiet_trans (s1 s2 s3 : State num) : quiet s1 s2 -> quiet s2 s3 -> quiet s1 s3.
Proof. unfold quiet. intuition congruence. Qed.

Lemma quiet_movePlayer dt (s : State num) : quiet s (movePlayer dt s).
Proof. unfold quiet, movePlayer. destruct (player s); repeat split. Qed.

Lemma quiet_shoot dt (s : State num) : quiet s (shoot dt s).
Proof.
  unfold quiet, shoot. destruct (player s); [|repeat split].
  destruct (isFiring s && _); repeat split.
Qed.

Lemma quiet_updateBullets dt (s : State num) : quiet s (updateBullets dt s).
Proof. unfold quiet, updateBullets. repeat split. Qed.

Lemma early_blocks_frame dt (s : State num) :
  quiet s (updateBullets dt (shoot dt (movePlayer dt s))).
Proof.
  eapply quiet_trans; [apply quiet_movePlayer|].
  eapply quiet_trans; [apply quiet_shoot | apply quiet_updateBullets].
Qed.

Lemma enemies_beforeCollisions dt (s : State num) :
  enemies (beforeCollisions random dt s)
  = filter (fun e : Enemy num => alive e)
      (map (moveEnemy dt (player (shoot dt (movePlayer dt s))) (seen_score s))
           (enemies (spawnEnemies random dt (updateBullets dt (shoot dt (movePlayer dt s)))))).
Proof.
  unfold beforeCollisions, updateEnemies. cbn [enemies set_enemies].
  rewrite player_spawnEnemies. unfold updateBullets at 1. cbn [player set_bullets].
  destruct (spawnEnemies_frame dt (updateBullets dt (shoot dt (movePlayer dt s))))
    as (-> & _).
  destruct (early_blocks_frame dt s) as (_ & _ & _ & -> & _). reflexivity.
Qed.

Lemma filter_alive_moveEnemy dt tg sc (es : list (Enemy num)) :
  List.length (filter (fun e : Enemy num => alive e) (map (moveEnemy dt tg sc) es))
  = List.length (filter (fun e : Enemy num => alive e) es).
Proof.
  induction es as [|e es IH]; [reflexivity|]. cbn [map filter].
  assert (alive (moveEnemy dt tg sc e) = alive e) as -> by (destruct tg; reflexivity).
  destruct (alive e); cbn [List.length]; congruence.
Qed.

Lemma filter_alive_fresh sc (es : list (Enemy num)) :
  Forall (fresh sc) es -> filter (fun e : Enemy num => alive e) es = es.
Proof.
  induction 1 as [|e es [Ha _] _ IH]; [reflexivity|].
  cbn [filter]. rewrite Ha, IH. reflexivity.
Qed.

(** The blocks before the collision passes change neither the score, the
    lives nor the clock. *)
Lemma beforeCollisions_frame dt (s : State num) :
  let s' := beforeCollisions random dt s in
  score s' = score s /\ lives s' = lives s /\ time s' = time s
  /\ seen_score s' = seen_score s.
Proof.
  cbn zeta. unfold beforeCollisions.
  set (s1 := updateBullets dt (shoot dt (movePlayer dt s))).
  destruct (early_blocks_frame dt s) as (_ & _ & _ & Hss & Hsc & Hl & _ & Ht).
  fold s1 in Hss, Hsc, Hl, Ht.
  destruct (spawnEnemies_frame dt s1) as (Hss2 & _ & Hsc2 & Hl2 & _ & Ht2).
  set (s2 := spawnEnemies random dt s1) in *.
  unfold updateEnemies. cbn [score lives time seen_score set_enemies].
  repeat split; congruence.
Qed.

(** The score never drops in a step. *)
Lemma score_update dt (s : State num) : (score s <= score (update random dt s))%Z.
Proof.
  destruct (player s) as [p|] eqn:Hp;
    [rewrite (update_with_player dt s Hp) | rewrite (update_no_player dt s Hp); cbn; lia].
  set (s0 := set_time (add (time s) dt) s).
  destruct (collisions_frame dt (beforeCollisions random dt s0))
    as (_ & _ & _ & _ & _ & _ & _ & _ & _ & _ & _ & Hsc).
  destruct (beforeCollisions_frame dt s0) as (E & _).
  rewrite E in Hsc. exact Hsc.
Qed.

(** The clock takes every delta as it comes. *)
Lemma time_update dt (s : State num) : time (update random dt s) = add (time s) dt.
Proof.
  destruct (player s) as [p|] eqn:Hp;
    [rewrite (update_with_player dt s Hp) | rewrite (update_no_player dt s Hp); reflexivity].
  set (s0 := set_time (add (time s) dt) s).
  destruct (collisions_frame dt (beforeCollisions random dt s0)) as (_ & -> & _).
  destruct (beforeCollisions_frame dt s0) as (_ & _ & -> & _). reflexivity.
Qed.

Lemma Forall2_In_r {A B} (R : A -> B -> Prop) l l' b :
  Forall2 R l l' -> In b l' -> exists a, In a l /\ R a b.
Proof.
  induction 1 as [|a0 b0 l l' HR _ IH]; intros Hin; [contradiction|].
  destruct Hin as [<-|Hin].
  - exists a0. split; [now left | exact HR].
  - destruct (IH Hin) as (a & Ha & HRa). exists a. split; [now right | exact HRa].
Qed.

(** Every bullet left by a step was alive when the step moved it and lies
    within the bounds. *)
Lemma bullets_update dt (s : State num) p b' :
  player s = Some p ->
  In b' (bullets (update random dt s)) ->
  exists b,
    In b (bullets (shoot dt (movePlayer dt (set_time (add (time s) dt) s))))
    /\ alive b = true
    /\ entity_body b' = entity_body (moveBullet dt b)
    /\ outOfField (pos b') = false.
Proof.
  intros Hp. rewrite (update_with_player dt s Hp).
  set (s0 := set_time (add (time s) dt) s).
  destruct (collisions_frame dt (beforeCollisions random dt s0))
    as (_ & _ & _ & _ & _ & _ & _ & _ & _ & Hb & _).
  intros Hin. destruct (Forall2_In_r _ Hb Hin) as (b1 & Hin1 & Hsame).
  rewrite bullets_beforeCollisions in Hin1.
  apply filter_In in Hin1. destruct Hin1 as [Hin1 Halive].
  apply in_map_iff in Hin1. destruct Hin1 as (b & <- & Hinb).
  assert (entity_body b' = entity_body (moveBullet dt b)) as Hbody
      by (destruct Hsame as [->| ->]; reflexivity).
  exists b. split; [exact Hinb|].
  revert Halive Hbody. unfold moveBullet. cbv zeta.
  destruct (outOfField _) eqn:Hout; [discriminate|].
  intros Halive Hbody. split; [exact Halive|]. split; [exact Hbody|].
  rewrite Hbody. exact Hout.
Qed.

Lemma movePlayer_inputs dt (s : State num) :
  bullets (movePlayer dt s) = bullets s /\ aim (movePlayer dt s) = aim s
  /\ keys (movePlayer dt s) = keys s /\ firing (movePlayer dt s) = firing s.
Proof. unfold movePlayer. destruct (player s); repeat split. Qed.

Lemma bullets_shoot dt (s : State num) b :
  In b (bullets (shoot dt (movePlayer dt s))) ->
  In b (bullets s) \/ exists pl, b = newBullet pl (aim s).
Proof.
  destruct (movePlayer_inputs dt s) as (Hb & Ha & _).
  unfold shoot. destruct (player (movePlayer dt s)) as [p1|]; [|rewrite Hb; auto].
  destruct (isFiring _ && _); cbn [bullets set_player set_bullets]; rewrite Hb; [|auto].
  rewrite Ha. intros Hin. apply in_app_or in Hin.
  destruct Hin as [Hin|[<-|[]]]; eauto.
Qed.

(** Every enemy left by a step was alive when the step moved it. *)
Lemma enemies_update dt (s : State num) p e' :
  player s = Some p ->
  In e' (enemies (update random dt s)) ->
  exists e tg,
    In e (enemies (spawnEnemies random dt
                     (updateBullets dt (shoot dt (movePlayer dt (set_time (add (time s) dt) s))))))
    /\ alive e = true
    /\ entity_body e' = entity_body (moveEnemy dt tg (seen_score s) e).
Proof.
  intros Hp. rewrite (update_with_player dt s Hp).
  set (s0 := set_time (add (time s) dt) s) in *.
  destruct (collisions_frame dt (beforeCollisions random dt s0))
    as (_ & _ & _ & _ & _ & _ & _ & _ & _ & _ & He & _).
  intros Hin. destruct (Forall2_In_r _ He Hin) as (e1 & Hin1 & Hsame).
  rewrite (enemies_beforeCollisions dt s0) in Hin1.
  apply filter_In in Hin1. destruct Hin1 as [Hin1 Halive].
  apply in_map_iff in Hin1. destruct Hin1 as (e & <- & Hine).
  exists e, (player (shoot dt (movePlayer dt s0))).
  split; [exact Hine|]. split.
  - rewrite <- Halive. destruct (player (shoot dt (movePlayer dt s0))); reflexivity.
  - destruct Hsame as (-> & _). reflexivity.
Qed.

Lemma particles_update dt (s : State num) p q :
  player s = Some p ->
  In q (particles (update random dt s)) -> gtb (life q) (lit 0) = true.
Proof.
  intros Hp. rewrite (update_with_player dt s Hp). unfold updateParticles.
  cbn [particles set_particles].
  intros Hin. apply filter_In in Hin. apply Hin.
Qed.

End Frames.

(* ================================================================== *)
(** ** Steps with and without a hit *)

Section NoHit.
Context {num : Type} {N : Number num}.
Variable random : nat -> num.

(** *** A step without a hit *)

(** The player pass leaves the bullets and the score alone, and takes a
    life exactly when it calls [hitPlayer]. *)
Lemma collidePlayer_hit (s : State num) :
  bullets (collidePlayer random s) = bullets s
  /\ score (collidePlayer random s) = score s
  /\ (collidePlayer random s = s
      \/ lives (collidePlayer random s) = (lives s - 1)%Z).
Proof.
  unfold collidePlayer. destruct (player s) as [p|]; [|repeat split; now left].
  destruct (playerScan random p (enemies s) s) as [[es' s']|] eqn:Hscan;
    [|repeat split; now left].
  apply playerScan_Some in Hscan.
  destruct Hscan as (_ & pre & e & post & _ & _ & _ & _ & ->).
  destruct (hitPlayer_spec random p s) as (ps & r & ->). cbn zeta.
  destruct (seen_lives s - 1 <=? 0)%Z; unfold effects; eval_fields;
    (split; [reflexivity|]; split; [lia|]; right; reflexivity).
Qed.

Lemma lives_collideBullets (s : State num) :
  lives (collideBullets random s) = lives s.
Proof.
  unfold collideBullets.
  destruct (bulletPass random (bullets s) (enemies s) s) as [[bs es] s'] eqn:Hp.
  apply bulletPass_frame in Hp. destruct Hp as (_ & _ & k & ps & r & ->).
  reflexivity.
Qed.

(** A step in which no life is lost leaves the player as the shooting
    block left it. *)
Lemma update_not_hit dt (s : State num) p :
  player s = Some p ->
  lives (update random dt s) = lives s ->
  player (update random dt s)
  = player (shoot dt (movePlayer dt (set_time (add (time s) dt) s))).
Proof.
  intros Hp. rewrite (update_with_player random dt s Hp).
  set (s0 := set_time (add (time s) dt) s).
  set (X := collideBullets random (beforeCollisions random dt s0)).
  assert (lives X = lives s) as HL.
  { subst X. rewrite lives_collideBullets.
    destruct (beforeCollisions_frame random dt s0) as (_ & -> & _). reflexivity. }
  assert (player X = player (shoot dt (movePlayer dt s0))) as HP
      by (subst X; rewrite player_collideBullets; apply player_beforeCollisions).
  unfold updateParticles. cbn [lives player set_particles].
  destruct (collidePlayer_hit X) as (_ & _ & [-> | Hl]); [intros _; exact HP|].
  rewrite Hl, HL. lia.
Qed.

(** Such a step leaves the player where [movePlayer] put it. *)
Lemma update_pos_not_hit dt (s : State num) p :
  player s = Some p ->
  lives (update random dt s) = lives s ->
  option_map (fun q : Player num => pos q) (player (update random dt s))
  = option_map (fun q : Player num => pos q) (player (movePlayer dt s)).
Proof.
  intros Hp Hl. rewrite (update_not_hit dt s Hp Hl).
  set (s0 := set_time (add (time s) dt) s).
  eassert (player (movePlayer dt s0) = Some _) as Hm.
  { unfold movePlayer. subst s0. cbn [player set_time]. rewrite Hp. reflexivity. }
  rewrite (player_shoot dt (movePlayer dt s0) Hm). cbv zeta.
  unfold movePlayer. rewrite Hp. cbn [player set_player option_map].
  destruct (isFiring _ && _); reflexivity.
Qed.

(** A step in which a life is lost: one life, and the player is put back
    to the start position, or, when the captured [lives] say that it was
    the last one, marked not alive where it is, and the game is over. *)
Lemma update_hit dt (s : State num) p :
  player s = Some p ->
  lives (update random dt s) <> lives s ->
  lives (update random dt s) = (lives s - 1)%Z
  /\ exists p2,
       player (shoot dt (movePlayer dt (set_time (add (time s) dt) s))) = Some p2
       /\ (((seen_lives s - 1 <=? 0)%Z = false
            /\ player (update random dt s) = Some (player_with (set_pos startPos) p2)
            /\ gameOver (update random dt s) = gameOver s)
           \/ ((seen_lives s - 1 <=? 0)%Z = true
               /\ player (update random dt s) = Some (player_with (set_alive false) p2)
               /\ gameOver (update random dt s) = true)).
Proof.
  intros Hp. rewrite (update_with_player random dt s Hp).
  set (s0 := set_time (add (time s) dt) s).
  set (X := collideBullets random (beforeCollisions random dt s0)).
  assert (lives X = lives s) as HL.
  { subst X. rewrite lives_collideBullets.
    destruct (beforeCollisions_frame random dt s0) as (_ & -> & _). reflexivity. }
  assert (seen_lives X = seen_lives s /\ gameOver X = gameOver s) as (HSL & HGO).
  { subst X.
    destruct (keeps_collideBullets random (beforeCollisions random dt s0))
      as (_ & _ & _ & _ & _ & _ & _ & E & _).
    unfold collideBullets.
    destruct (bulletPass random _ _ _) as [[bs es] s'] eqn:Hpass.
    apply bulletPass_frame in Hpass. destruct Hpass as (_ & _ & k & ps & r & ->).
    cbn [seen_lives gameOver set_enemies set_bullets effects].
    unfold beforeCollisions, updateEnemies. cbn [seen_lives gameOver set_enemies].
    set (s1 := updateBullets dt (shoot dt (movePlayer dt s0))).
    assert (seen_lives s1 = seen_lives s /\ gameOver s1 = gameOver s) as (E1 & E2).
    { assert (forall st : State num,
                seen_lives (movePlayer dt st) = seen_lives st
                /\ gameOver (movePlayer dt st) = gameOver st) as Hm
          by (intros st; unfold movePlayer; destruct (player st); split; reflexivity).
      assert (forall st : State num,
                seen_lives (shoot dt st) = seen_lives st
                /\ gameOver (shoot dt st) = gameOver st) as Hs
          by (intros st; unfold shoot; destruct (player st);
              [destruct (isFiring st && _)|]; split; reflexivity).
      subst s1. unfold updateBullets. cbn [seen_lives gameOver set_bullets].
      destruct (Hs (movePlayer dt s0)) as [-> ->]. destruct (Hm s0) as [-> ->].
      split; reflexivity. }
    unfold spawnEnemies. cbn [spawnTimer set_spawnTimer].
    destruct (leb _ _); [|split; assumption].
    match goal with |- context [spawnWave random ?st] =>
      destruct (spawnWave_frame random st) as (es' & r' & _ & _ & ->) end.
    split; assumption. }
  assert (player X = player (shoot dt (movePlayer dt s0))) as HP
      by (subst X; rewrite player_collideBullets; apply player_beforeCollisions).
  destruct (player_movePlayer dt s0 (p := p) Hp) as (p1 & Hp1 & _).
  pose proof (player_shoot dt (movePlayer dt s0) Hp1) as Hp2. cbn zeta in Hp2.
  match type of Hp2 with _ = Some ?t => set (q := t) in * end.
  rewrite Hp2 in HP. rewrite Hp2.
  unfold updateParticles. cbn [lives player gameOver set_particles].
  unfold collidePlayer. rewrite HP.
  destruct (playerScan random q (enemies X) X) as [[es' s']|] eqn:Hscan;
    [|intros H; rewrite HL in H; contradiction].
  apply playerScan_Some in Hscan.
  destruct Hscan as (_ & pre & e & post & _ & _ & _ & _ & ->).
  intros _.
  destruct (hitPlayer_spec random q X) as (ps & r & ->). cbn zeta.
  rewrite HSL.
  destruct (seen_lives s - 1 <=? 0)%Z eqn:Hlast; unfold effects;
    cbn [lives player gameOver set_enemies set_running set_gameOver set_player set_lives];
    (split; [rewrite HL; reflexivity|]); exists q; (split; [reflexivity|]).
  - right. repeat split.
  - left. repeat split. exact HGO.
Qed.
(** Where a step leaves the player: where [movePlayer] put it, unless a
    life is lost and the game goes on. *)
Lemma update_displaces dt (s : State num) p m :
  player s = Some p ->
  player (movePlayer dt s) = Some m ->
  exists u,
    player (update random dt s) = Some u
    /\ (lives (update random dt s) = lives s -> pos u = pos m)
    /\ (lives (update random dt s) <> lives s ->
        lives (update random dt s) = (lives s - 1)%Z
        /\ (pos u = startPos
            \/ (pos u = pos m /\ gameOver (update random dt s) = true))).
Proof.
  intros Hp Hm.
  assert (forall p2,
            player (shoot dt (movePlayer dt (set_time (add (time s) dt) s))) = Some p2 ->
            pos p2 = pos m) as Hpos.
  { intros p2. set (s0 := set_time (add (time s) dt) s).
    eassert (player (movePlayer dt s0) = Some _) as Hm0.
    { unfold movePlayer. subst s0. cbn [player set_time]. rewrite Hp. reflexivity. }
    rewrite (player_shoot dt (movePlayer dt s0) Hm0). cbv zeta.
    revert Hm. unfold movePlayer. rewrite Hp. cbn [player set_player].
    intros [= <-]. destruct (isFiring _ && _); intros [= <-]; reflexivity. }
  destruct (Z.eq_dec (lives (update random dt s)) (lives s)) as [E|E].
  - pose proof (update_not_hit dt s Hp E) as Hu.
    destruct (update_player random dt s Hp) as (p2 & Hp2 & _).
    rewrite Hp2 in Hu. exists p2. split; [exact Hu|].
    split; [intros _; apply Hpos; exact Hp2 | intros H; contradiction].
  - destruct (update_hit dt s Hp E) as (Hl & p2 & Hp2 & [(_ & Hu & _) | (_ & Hu & Hg)]).
    + eexists. split; [exact Hu|]. split; [intros H; contradiction|].
      intros _. split; [exact Hl|]. left. reflexivity.
    + eexists. split; [exact Hu|]. split; [intros H; contradiction|].
      intros _. split; [exact Hl|]. right. split; [|exact Hg].
      cbn. apply Hpos. exact Hp2.
Qed.
(** A step after whose enemy block no enemy overlaps the player takes no
    life. *)
Lemma playerScan_None (q : Player num) es (s : State num) :
  Forall (fun e : Enemy num => overlaps q e = false) es ->
  playerScan random q es s = None.
Proof.
  induction 1 as [|e es He _ IH]; cbn [playerScan]; [reflexivity|].
  destruct (negb (alive q)); [reflexivity|]. rewrite He, IH. reflexivity.
Qed.

Lemma lives_when_clear dt (s : State num) p :
  player s = Some p ->
  let s1 := beforeCollisions random dt (set_time (add (time s) dt) s) in
  (forall q, player s1 = Some q ->
             Forall (fun e : Enemy num => overlaps q e = false) (enemies s1)) ->
  lives (update random dt s) = lives s.
Proof.
  intros Hp. cbv zeta. intros Hclear.
  rewrite (update_with_player random dt s Hp).
  set (s1 := beforeCollisions random dt (set_time (add (time s) dt) s)) in *.
  set (X := collideBullets random s1).
  assert (lives X = lives s) as HL.
  { subst X. rewrite lives_collideBullets. subst s1.
    destruct (beforeCollisions_frame random dt (set_time (add (time s) dt) s))
      as (_ & -> & _). reflexivity. }
  assert (collidePlayer random X = X) as ->.
  { unfold collidePlayer. destruct (player X) as [q|] eqn:Hq; [|reflexivity].
    assert (player s1 = Some q) as Hq1
        by (rewrite <- Hq; subst X; symmetry; apply player_collideBullets).
    rewrite playerScan_None; [reflexivity|].
    destruct (keeps_collideBullets random s1)
      as (_ & _ & _ & _ & _ & _ & _ & _ & _ & _ & He & _).
    fold X in He. specialize (Hclear q Hq1).
    clear - He Hclear. induction He as [|e e' es es' Hs _ IH]; [constructor|].
    inversion Hclear as [|? ? Ho Hrest]; subst. constructor; [|apply IH; exact Hrest].
    destruct Hs as (Hb & Hr & _). unfold overlaps in *. cbv zeta in *.
    unfold pos in *. rewrite Hb, Hr. exact Ho. }
  unfold updateParticles. cbn [lives set_particles]. exact HL.
Qed.

End NoHit.

(* ================================================================== *)
(** ** The step over exact rationals *)

Section Rational.
Context {host : Host}.
Variable random : nat -> Q.
Local Open Scope Q_scope.

(** *** Arithmetic of the model *)

Lemma leb_le (a b : Q) : leb a b = true <-> a <= b.
Proof. apply Qle_bool_iff. Qed.

Lemma leb_gt (a b : Q) : leb a b = false <-> b < a.
Proof.
  cbn [leb NumQ]. rewrite <- Bool.not_true_iff_false, Qle_bool_iff.
  split; [apply Qnot_le_lt | apply Qlt_not_le].
Qed.

Lemma ltb_lt (a b : Q) : ltb a b = true <-> a < b.
Proof. unfold ltb. rewrite Bool.negb_true_iff. apply leb_gt. Qed.

Lemma add_eq (a b : Q) : add a b == a + b.
Proof. apply Qred_correct. Qed.

Lemma sub_eq (a b : Q) : sub a b == a - b.
Proof. apply Qred_correct. Qed.

Lemma mul_eq (a b : Q) : mul a b == a * b.
Proof. apply Qred_correct. Qed.

Lemma div_eq (a b : Q) : div a b == a / b.
Proof. apply Qred_correct. Qed.

Lemma Math_max_spec (a b : Q) :
  (a <= b /\ Math_max a b = b) \/ (b < a /\ Math_max a b = a).
Proof.
  unfold Math_max. destruct (leb a b) eqn:E.
  - left. split; [now apply leb_le | reflexivity].
  - right. split; [now apply leb_gt | reflexivity].
Qed.

Lemma Math_min_spec (a b : Q) :
  (a <= b /\ Math_min a b = a) \/ (b < a /\ Math_min a b = b).
Proof.
  unfold Math_min. destruct (leb a b) eqn:E.
  - left. split; [now apply leb_le | reflexivity].
  - right. split; [now apply leb_gt | reflexivity].
Qed.

Lemma clamp_bounds (v lo hi : Q) : lo <= hi -> lo <= clamp v lo hi <= hi.
Proof.
  intros Hlh. unfold clamp.
  destruct (Math_min_spec hi v) as [[H1 ->]|[H1 ->]];
    [destruct (Math_max_spec lo hi) as [[H2 ->]|[H2 ->]]
    |destruct (Math_max_spec lo v) as [[H2 ->]|[H2 ->]]]; Lqa.lra.
Qed.

(** *** The playfield *)

Lemma startPos_inField : inField startPos.
Proof. unfold inField, margin, fieldW, fieldH; cbn. repeat split; discriminate. Qed.

Lemma clamp_x (v : Q) :
  margin <= clamp v (lit 15) (sub INTERNAL_WIDTH (lit 15)) <= fieldW - margin.
Proof.
  assert (lit 15 <= sub INTERNAL_WIDTH (lit 15)) as Hlh by (cbv; discriminate).
  pose proof (clamp_bounds v Hlh) as [H1 H2].
  split; [exact H1 | eapply Qle_trans; [exact H2 | cbv; discriminate]].
Qed.

Lemma clamp_y (v : Q) :
  margin <= clamp v (lit 15) (sub INTERNAL_HEIGHT (lit 15)) <= fieldH - margin.
Proof.
  assert (lit 15 <= sub INTERNAL_HEIGHT (lit 15)) as Hlh by (cbv; discriminate).
  pose proof (clamp_bounds v Hlh) as [H1 H2].
  split; [exact H1 | eapply Qle_trans; [exact H2 | cbv; discriminate]].
Qed.

Lemma movePlayer_inField dt (s : State Q) p :
  player (movePlayer dt s) = Some p -> inField (pos p).
Proof.
  unfold movePlayer. destruct (player s) as [p0|] eqn:E; [|congruence].
  eval_fields. intros [= <-].
  split; [apply clamp_x | apply clamp_y].
Qed.

(** C4.  After a step the player lies within
    [margin, fieldW - margin] x [margin, fieldH - margin] of the 480 x 720
    field
    (the margin is 15), whatever the state, the held keys and [dt] were;
    this covers the movement, the clamping and the reposition of
    [hitPlayer] that the step performs. *)
Theorem player_stays_in_field dt (s : State Q) p :
  player (update random dt s) = Some p -> inField (pos p).
Proof.
  intros Hp. apply update_player_pos in Hp.
  destruct Hp as (p1 & Hp1 & [-> | ->]).
  - eapply movePlayer_inField; eauto.
  - apply startPos_inField.
Qed.

(** *** Fire rate *)

Lemma firedIn_cases dt (s : State Q) p :
  player s = Some p ->
  (firedIn dt s = 1%nat /\ isFiring s = true /\ cooldown p - dt <= 0
   /\ exists p', player (update random dt s) = Some p'
                /\ cooldown p' = cooldownInterval)
  \/ (firedIn dt s = 0%nat
      /\ exists p', player (update random dt s) = Some p'
                   /\ cooldown p' == cooldown p - dt).
Proof.
  intros Hp. unfold firedIn. rewrite Hp.
  destruct (update_player random dt s Hp) as (p2 & Hp2 & Hu).
  set (s0 := set_time (add (time s) dt) s) in *.
  destruct (player_movePlayer dt s0 (p := p) Hp) as (p1 & Hp1 & Hc1 & _).
  assert (exists p', player (update random dt s) = Some p'
                     /\ cooldown p' = cooldown p2) as (p' & Hp' & Hc').
  { destruct Hu as [Hu|[Hu|Hu]]; rewrite Hu; eexists; split; reflexivity. }
  revert Hp2. unfold shoot. rewrite Hp1. cbn [cooldown set_cooldown]. rewrite Hc1.
  destruct (isFiring (movePlayer dt s0)) eqn:Hf; cbn [andb].
  - destruct (leb (sub (cooldown p) dt) (lit 0)) eqn:Hle.
    + cbn [player set_player bullets set_bullets]. intros [= <-]. left.
      rewrite length_app. cbn [List.length].
      split; [lia|]. split.
      { revert Hf. unfold movePlayer, isFiring. subst s0. cbn [player set_time].
        rewrite Hp. auto. }
      split.
      { apply leb_le in Hle. rewrite sub_eq in Hle. exact Hle. }
      exists p'. split; [exact Hp'|]. rewrite Hc'. reflexivity.
    + cbn [player set_player bullets]. intros [= <-]. right.
      split; [lia|]. exists p'. split; [exact Hp'|].
      rewrite Hc'. cbn [cooldown set_cooldown]. apply sub_eq.
  - cbn [player set_player bullets]. intros [= <-]. right.
    split; [lia|]. exists p'. split; [exact Hp'|].
    rewrite Hc'. cbn [cooldown set_cooldown]. apply sub_eq.
Qed.

Lemma fired_no_player dts (s : State Q) : player s = None -> fired random dts s = 0%nat.
Proof.
  revert s; induction dts as [|dt dts IH]; intros s Hp; [reflexivity|].
  cbn [fired]. unfold firedIn. rewrite Hp. cbn.
  apply IH. rewrite (update_no_player random dt s Hp). exact Hp.
Qed.

Lemma total_nonneg dts : Forall (fun dt => 0 <= dt) dts -> 0 <= total dts.
Proof.
  induction 1 as [|dt dts Hdt _ IH]; [apply Qle_refl|].
  unfold total in *. cbn [fold_right]. Lqa.lra.
Qed.

(** Between two shots at least the interval elapses: the invariant of the
    cooldown timer. *)
Lemma fired_budget dts : forall (s : State Q) p,
  Forall (fun dt => 0 <= dt) dts ->
  player s = Some p ->
  fired random dts s = 0%nat
  \/ exists c, cooldown p <= c /\ 0 <= c
       /\ cooldownInterval * inject_Z (Z.of_nat (fired random dts s)) + c
          <= total dts + cooldownInterval.
Proof.
  induction dts as [|dt dts IH]; intros s p Hall Hp; [now left|].
  inversion Hall as [|? ? Hdt Hall']; subst.
  pose proof (total_nonneg Hall') as HT.
  cbn [fired total fold_right]. fold (total dts).
  destruct (firedIn_cases dt s Hp)
    as [(-> & _ & Hc & p' & Hp' & Hc') | (-> & p' & Hp' & Hc')].
  - right.
    assert (exists c, cooldown p <= c /\ 0 <= c /\ c <= dt) as (c & Hc1 & Hc2 & Hc3).
    { destruct (Qlt_le_dec (cooldown p) 0).
      - exists 0. repeat split; Lqa.lra.
      - exists (cooldown p). repeat split; Lqa.lra. }
    exists c. split; [exact Hc1|]. split; [exact Hc2|].
    rewrite Nat2Z.inj_add, inject_Z_plus.
    change (inject_Z (Z.of_nat 1)) with 1.
    destruct (IH _ _ Hall' Hp') as [-> | (c' & Hle & Hc0 & Hb)].
    + change (inject_Z (Z.of_nat 0)) with 0.
      unfold cooldownInterval in *. Lqa.lra.
    + rewrite Hc' in Hle. unfold cooldownInterval in *. Lqa.lra.
  - cbn [Nat.add]. destruct (IH _ _ Hall' Hp') as [-> | (c & Hle & Hc0 & Hb)];
      [now left|]. right.
    rewrite Hc' in Hle. exists (c + dt). repeat split; Lqa.lra.
Qed.

Lemma firedIn_le_1 dt (s : State Q) : (firedIn dt s <= 1)%nat.
Proof.
  destruct (player s) as [p|] eqn:Hp.
  - destruct (firedIn_cases dt s Hp) as [(-> & _) | (-> & _)]; lia.
  - unfold firedIn. rewrite Hp. lia.
Qed.

(** C5, as the code has it.  Over steps whose deltas are non-negative and
    sum to [total dts], at most [floor (total dts / cooldownInterval) + 1]
    bullets are pushed, whether or not the fire signal is held; a step
    with any delta pushes at most one bullet, and it pushes one only when
    the signal is on and the decremented cooldown is [<= 0], and then
    leaves the cooldown at the interval 0.08. *)
Theorem fire_rate_cap dts (s : State Q) :
  Forall (fun dt => 0 <= dt) dts ->
  (Z.of_nat (fired random dts s) <= Qfloor (total dts / cooldownInterval) + 1)%Z
  /\ forall dt (s' : State Q),
      (firedIn dt s' <= 1)%nat
      /\ (firedIn dt s' = 1%nat ->
          isFiring s' = true
          /\ exists p p', player s' = Some p /\ cooldown p - dt <= 0
               /\ player (update random dt s') = Some p'
               /\ cooldown p' = cooldownInterval).
Proof.
  intros Hall. split.
  - pose proof (total_nonneg Hall) as HT.
    assert (inject_Z (Z.of_nat (fired random dts s) - 1) <= total dts / cooldownInterval) as Hq.
    { apply Qle_shift_div_l; [reflexivity|].
      unfold Zminus. rewrite inject_Z_plus.
      change (inject_Z (- (1))) with (- (1)).
      destruct (player s) as [p|] eqn:Hp.
      - destruct (@fired_budget dts s p Hall Hp) as [-> | (c & _ & Hc0 & Hb)].
        + change (inject_Z (Z.of_nat 0)) with 0.
          unfold cooldownInterval. Lqa.lra.
        + unfold cooldownInterval in *. Lqa.lra.
      - rewrite (fired_no_player dts s Hp).
        change (inject_Z (Z.of_nat 0)) with 0.
        unfold cooldownInterval. Lqa.lra. }
    apply Qfloor_resp_le in Hq. rewrite Qfloor_Z in Hq. lia.
  - intros dt s'. split; [apply firedIn_le_1|]. intros H1.
    destruct (player s') as [p|] eqn:Hp.
    + destruct (firedIn_cases dt s' Hp) as [(_ & Hf & Hc & p' & Hp' & Hc') | (H0 & _)];
        [|congruence].
      split; [exact Hf|]. exists p, p'. auto.
    + unfold firedIn in H1. rewrite Hp in H1. discriminate.
Qed.

(** *** Spawn cadence *)

Lemma spawnInterval_eq (sc : Z) :
  spawnInterval sc == Qmax intervalFloor (baseInterval - intervalSlope * inject_Z sc).
Proof.
  unfold spawnInterval, intervalFloor, baseInterval, intervalSlope, of_Z.
  cbn [lit NumQ].
  assert (sub 2.0 (mul (inject_Z sc) 0.001) == 2.0 - 0.001 * inject_Z sc) as E
      by (rewrite sub_eq, mul_eq; ring).
  destruct (Math_max_spec 0.8 (sub 2.0 (mul (inject_Z sc) 0.001))) as [[Hc ->]|[Hc ->]].
  - rewrite E in *. symmetry. apply Q.max_r. exact Hc.
  - rewrite E in Hc. symmetry. apply Q.max_l. apply Qlt_le_weak. exact Hc.
Qed.

Lemma spawnInterval_floor (sc : Z) : intervalFloor <= spawnInterval sc.
Proof. rewrite spawnInterval_eq. apply Q.le_max_l. Qed.

Lemma spawnInterval_antitone (sc1 sc2 : Z) :
  (sc1 <= sc2)%Z -> spawnInterval sc2 <= spawnInterval sc1.
Proof.
  intros Hle. rewrite !spawnInterval_eq.
  apply Q.max_le_compat_l.
  assert (inject_Z sc1 <= inject_Z sc2) by (rewrite <- Zle_Qle; exact Hle).
  unfold baseInterval, intervalSlope. Lqa.lra.
Qed.

(** The spawn block.  In a step in which the decremented spawn timer is
    [<= 0], a wave joins the enemies and the timer is left at
    [max (intervalFloor, baseInterval - intervalSlope * sc)], where [sc] is
    the score that the step reads, which is the captured one; as a function
    of [sc] that value never increases and is never below the floor 0.8. *)
Lemma spawn_timer_reset dt (s : State Q) p :
  player s = Some p ->
  spawnTimer s - dt <= 0 ->
  let s' := update random dt s in
  spawnTimer s' = spawnInterval (seen_score s)
  /\ List.length (enemies s')
     = (List.length (filter (fun e : Enemy Q => alive e) (enemies s))
        + Z.to_nat (waveCount random s))%nat
  /\ spawnInterval (seen_score s)
     == Qmax intervalFloor (baseInterval - intervalSlope * inject_Z (seen_score s))
  /\ (forall sc, intervalFloor <= spawnInterval sc)
  /\ (forall sc1 sc2, (sc1 <= sc2)%Z -> spawnInterval sc2 <= spawnInterval sc1).
Proof.
  intros Hp Ht. cbn zeta.
  destruct (update_player random dt s Hp) as (p2 & Hp2 & _).
  unfold update. cbn [player set_time]. rewrite Hp.
  set (s0 := set_time (add (time s) dt) s) in *.
  destruct (collisions_frame random dt (beforeCollisions random dt s0))
    as (HT & _ & _ & _ & _ & _ & _ & _ & _ & _ & He & _).
  cbn zeta in HT, He.
  set (s1 := updateBullets dt (shoot dt (movePlayer dt s0))) in *.
  destruct (early_blocks_frame dt s0) as (Hes & Hst & Hrng & Hsc & _).
  cbn zeta in Hes, Hst, Hrng, Hsc. fold s1 in Hes, Hst, Hrng, Hsc.
  assert (leb (sub (spawnTimer s1) dt) (lit 0) = true) as Hle.
  { apply leb_le. rewrite sub_eq, Hst. exact Ht. }
  destruct (spawnEnemies_cases random dt s1)
    as [(_ & Htimer & wave & Hlen & Hfresh & Hwave) | (Hf & _)]; [|congruence].
  assert (spawnTimer (beforeCollisions random dt s0) = spawnInterval (seen_score s)) as Hb.
  { unfold beforeCollisions. fold s1.
    rewrite spawnTimer_updateEnemies, Htimer, Hsc. reflexivity. }
  split; [rewrite HT; exact Hb|]. split.
  - rewrite <- (Forall2_length He).
    rewrite (enemies_beforeCollisions random dt s0). fold s1.
    rewrite filter_alive_moveEnemy, Hwave, filter_app, length_app.
    rewrite (filter_alive_fresh Hfresh), Hlen, Hes.
    unfold waveCount. rewrite Hrng, Hsc. reflexivity.
  - split; [apply spawnInterval_eq|].
    split; [apply spawnInterval_floor | apply spawnInterval_antitone].
Qed.

(** *** The bullet pass *)

Lemma dist2_eq (a b : Vec2 Q) :
  dist2 a b == (x a - x b) * (x a - x b) + (y a - y b) * (y a - y b).
Proof. unfold dist2. cbv zeta. rewrite add_eq, !mul_eq, !sub_eq. reflexivity. Qed.

Lemma overlaps_iff (a b : Entity Q) :
  overlaps a b = true
  <-> (x (pos a) - x (pos b)) * (x (pos a) - x (pos b))
      + (y (pos a) - y (pos b)) * (y (pos a) - y (pos b))
      <= (radius a + radius b) * (radius a + radius b).
Proof.
  unfold overlaps. cbv zeta. rewrite leb_le, dist2_eq, mul_eq, !add_eq. reflexivity.
Qed.

Lemma square_le (d r : Q) : 0 <= d -> 0 <= r -> (d * d <= r * r <-> d <= r).
Proof.
  intros Hd Hr. split; intros H0.
  - destruct (Qlt_le_dec r d) as [Hlt|Hle]; [|exact Hle]. exfalso. Lqa.nra.
  - Lqa.nra.
Qed.

(** *** Culling *)

(** C7, as the code has it.  A bullet or an enemy that is not alive when a
    step begins does not outlast that step: every bullet the step leaves
    was alive before the step moved it (or was fired in it) and lies within
    the bounds with their margin of 10, every enemy it leaves was alive
    before the step moved it (or was spawned in it), every particle it
    leaves has a positive lifetime, and when the collision passes of the
    step start every bullet and every enemy is alive.  (Bullets and enemies
    that these passes mark are still in their collections when the next
    step begins.) *)
Theorem dead_removed_during_next_step dt (s : State Q) p :
  player s = Some p ->
  let s' := update random dt s in
  (forall b', In b' (bullets s') ->
     outOfField (pos b') = false
     /\ exists b : Bullet Q, alive b = true
          /\ entity_body b' = entity_body (moveBullet dt b)
          /\ (In b (bullets s) \/ exists pl, b = newBullet pl (aim s)))
  /\ (forall e', In e' (enemies s') ->
       exists (e : Enemy Q) tg, alive e = true
         /\ entity_body e' = entity_body (moveEnemy dt tg (seen_score s) e)
         /\ (In e (enemies s) \/ fresh (seen_score s) e))
  /\ (forall q, In q (particles s') -> 0 < life q)
  /\ (let s0 := beforeCollisions random dt (set_time (add (time s) dt) s) in
      forallb (fun b : Bullet Q => alive b) (bullets s0) = true
      /\ forallb (fun e : Enemy Q => alive e) (enemies s0) = true).
Proof.
  intros Hp. cbv zeta. split; [|split; [|split]].
  4:{ rewrite bullets_beforeCollisions, enemies_beforeCollisions.
      split; apply forallb_forall; intros a Ha; apply filter_In in Ha; apply Ha. }
  - intros b' Hin.
    destruct (@bullets_update Q _ random dt s p b' Hp Hin) as (b & Hinb & Ha & Hbody & Hout).
    split; [exact Hout|]. exists b. split; [exact Ha|]. split; [exact Hbody|].
    apply bullets_shoot in Hinb. exact Hinb.
  - intros e' Hin.
    destruct (@enemies_update Q _ random dt s p e' Hp Hin) as (e & tg & Hine & Ha & Hbody).
    exists e, tg. split; [exact Ha|]. split; [exact Hbody|].
    set (s1 := updateBullets dt (shoot dt (movePlayer dt (set_time (add (time s) dt) s)))) in *.
    destruct (early_blocks_frame dt (set_time (add (time s) dt) s))
      as (Hes & _ & _ & Hsc & _).
    fold s1 in Hes, Hsc.
    change (enemies (set_time (add (time s) dt) s)) with (enemies s) in Hes.
    change (seen_score (set_time (add (time s) dt) s)) with (seen_score s) in Hsc.
    destruct (spawnEnemies_cases random dt s1)
      as [(_ & _ & wave & _ & Hfresh & Hw) | (_ & _ & Hw)]; rewrite Hw in Hine.
    + apply in_app_or in Hine. destruct Hine as [Hine|Hine].
      * left. rewrite <- Hes. exact Hine.
      * right. rewrite <- Hsc. rewrite Forall_forall in Hfresh. auto.
    + left. rewrite <- Hes. exact Hine.
  - intros q Hin. apply ltb_lt. exact (@particles_update Q _ random dt s p q Hp Hin).
Qed.

(** *** The delta *)

(** The shooting block of a step fires exactly when the fire signal is on
    and the decremented cooldown is [<= 0]. *)
Lemma firedIn_spec dt (s : State Q) p :
  player s = Some p ->
  firedIn dt s = (if isFiring s && leb (sub (cooldown p) dt) (lit 0) then 1 else 0)%nat.
Proof.
  intros Hp. unfold firedIn. rewrite Hp.
  set (s0 := set_time (add (time s) dt) s).
  destruct (player_movePlayer dt s0 (p := p) Hp) as (p1 & Hp1 & Hc1 & _).
  destruct (movePlayer_inputs dt s0) as (_ & _ & Hk & Hf).
  assert (isFiring (movePlayer dt s0) = isFiring s) as Hfire
      by (unfold isFiring; rewrite Hk, Hf; reflexivity).
  unfold shoot. rewrite Hp1, Hfire. cbn [cooldown set_cooldown]. rewrite Hc1.
  destruct (isFiring s && leb (sub (cooldown p) dt) (lit 0));
    cbn [bullets set_player set_bullets].
  - rewrite length_app. cbn [List.length]. lia.
  - lia.
Qed.

Lemma not_fired_iff dt (s : State Q) p :
  player s = Some p ->
  (firedIn dt s = 0%nat <-> (isFiring s = false \/ 0 < cooldown p - dt)).
Proof.
  intros Hp. rewrite (firedIn_spec dt s Hp).
  destruct (isFiring s); cbn [andb].
  - destruct (leb (sub (cooldown p) dt) (lit 0)) eqn:E.
    + apply leb_le in E. rewrite sub_eq in E. cbn [lit NumQ] in E.
      split; [discriminate|]. intros [H|H]; [discriminate | Lqa.lra].
    + apply leb_gt in E. rewrite sub_eq in E. cbn [lit NumQ] in E.
      split; [intros _; right; exact E | reflexivity].
  - split; [intros _; now left | reflexivity].
Qed.

(** C8, as the code has it.  A step does not check its delta.  The frame
    loop caps it from above only, at 0.033, so that a time stamp before the
    last one gives a negative delta; and the step uses the delta as given:
    the clock advances by it, the cooldown is decremented by it in every
    step in which no shot is fired (the fire signal is off, or the
    decremented cooldown is positive), and the spawn timer when no wave is
    due, whatever its sign.  Nor is NaN taken for 0: in every model of the
    numbers with a NaN, that is a number that arithmetic hands on and that
    compares with nothing, a NaN time stamp makes the delta of its frame
    and of the next frame NaN, and a step with the delta NaN leaves the
    clock and the cooldown NaN. *)
Theorem delta_taken_as_given dt (s : State Q) p :
  player s = Some p ->
  let s' := update random dt s in
  time s' == time s + dt
  /\ (firedIn dt s = 0%nat <-> (isFiring s = false \/ 0 < cooldown p - dt))
  /\ (exists p', player s' = Some p'
        /\ (firedIn dt s = 0%nat -> cooldown p' == cooldown p - dt)
        /\ (firedIn dt s <> 0%nat -> cooldown p' = cooldownInterval))
  /\ (0 < spawnTimer s - dt -> spawnTimer s' == spawnTimer s - dt)
  /\ (forall now last,
        lastTime s = Some last ->
        running s = true -> paused s = false -> gameOver s = false ->
        let d := Math_min (lit 0.033) (div (sub now last) (lit 1000)) in
        loop random now s = update random d (set_lastTime (Some now) s)
        /\ d <= 0.033 /\ (now < last -> d < 0))
  /\ (forall (num : Type) (N : Number num) (rnd : nat -> num) (nan : num)
             (sn : State num) (pn : Player num),
        (forall a, add a nan = nan) -> (forall a, sub a nan = nan) ->
        (forall a, sub nan a = nan) -> (forall a, div nan a = nan) ->
        (forall a, leb a nan = false) -> (forall a, leb nan a = false) ->
        player sn = Some pn ->
        time (update rnd nan sn) = nan
        /\ (exists p', player (update rnd nan sn) = Some p' /\ cooldown p' = nan)
        /\ (running sn = true -> paused sn = false -> gameOver sn = false ->
            loop rnd nan sn = update rnd nan (set_lastTime (Some nan) sn)
            /\ (lastTime sn = Some nan ->
                forall now, loop rnd now sn = update rnd nan (set_lastTime (Some now) sn)))).
Proof.
  intros Hp. cbv zeta. split; [|split; [|split; [|split; [|split]]]].
  - rewrite time_update. apply add_eq.
  - apply not_fired_iff. exact Hp.
  - destruct (firedIn_cases dt s Hp)
      as [(E1 & _ & _ & p' & Hp' & Hc') | (E0 & p' & Hp' & Hc')];
      exists p'; (split; [exact Hp'|]); rewrite ?E1, ?E0; split; intros H;
        try congruence; try exact Hc'; try discriminate.
  - intros Ht. rewrite (update_with_player random dt s Hp).
    set (s0 := set_time (add (time s) dt) s).
    destruct (collisions_frame random dt (beforeCollisions random dt s0)) as (-> & _).
    unfold beforeCollisions.
    set (s1 := updateBullets dt (shoot dt (movePlayer dt s0))).
    destruct (early_blocks_frame dt s0) as (_ & Hst & _). fold s1 in Hst.
    change (spawnTimer s0) with (spawnTimer s) in Hst.
    rewrite spawnTimer_updateEnemies.
    destruct (spawnEnemies_cases random dt s1) as [(Hle & _) | (_ & -> & _)].
    + apply leb_le in Hle. rewrite sub_eq, Hst in Hle. cbn [lit NumQ] in Hle. Lqa.lra.
    + rewrite Hst. apply sub_eq.
  - intros now last Hlast Hrun Hpau Hover.
    split; [|split].
    + unfold loop. rewrite Hrun, Hpau, Hover, Hlast. reflexivity.
    + destruct (Math_min_spec (lit 0.033) (div (sub now last) (lit 1000)))
        as [[H1 ->]|[H1 ->]]; [apply Qle_refl | apply Qlt_le_weak; exact H1].
    + intros Hlt.
      assert (div (sub now last) (lit 1000) < 0) as Hneg.
      { rewrite div_eq, sub_eq. apply Qlt_shift_div_r; [reflexivity|].
        cbn [lit NumQ]. Lqa.lra. }
      destruct (Math_min_spec (lit 0.033) (div (sub now last) (lit 1000)))
        as [[H1 ->]|[H1 ->]]; [|exact Hneg].
      cbn [lit NumQ] in *. Lqa.lra.
  - intros num N rnd nan sn pn Hadd Hsub Hsub' Hdiv Hle Hle' Hpn.
    split; [rewrite time_update; apply Hadd|]. split.
    + destruct (update_player rnd nan sn Hpn) as (p2 & Hp2 & Hu).
      set (s0 := set_time (add (time sn) nan) sn) in *.
      destruct (player_movePlayer nan s0 (p := pn) Hpn) as (p1 & Hp1 & _).
      rewrite (player_shoot nan (movePlayer nan s0) Hp1) in Hp2. cbn zeta in Hp2.
      rewrite Hsub, Hle', andb_false_r in Hp2. injection Hp2 as <-.
      destruct Hu as [Hu|[Hu|Hu]]; rewrite Hu; eexists; (split; [reflexivity|]);
        reflexivity.
    + intros Hrun Hpau Hover.
      assert (forall a, Math_min (lit 0.033) (div nan a) = nan) as Hmin
          by (intros a; unfold Math_min; rewrite Hdiv, Hle; reflexivity).
      split.
      * unfold loop. rewrite Hrun, Hpau, Hover. cbn [negb orb].
        destruct (lastTime sn); rewrite Hsub', Hmin; reflexivity.
      * intros Hlast now. unfold loop. rewrite Hrun, Hpau, Hover, Hlast. cbn [negb orb].
        rewrite Hsub, Hmin. reflexivity.
Qed.

End Rational.

(* ================================================================== *)
(** ** The step over the real numbers *)

Section Real.
Variable random : nat -> R.
Local Open Scope R_scope.

Lemma Rleb_le (a b : R) : Rleb a b = true <-> a <= b.
Proof. unfold Rleb. destruct (Rle_dec a b); split; auto; discriminate. Qed.

Lemma Rleb_gt (a b : R) : Rleb a b = false <-> b < a.
Proof.
  unfold Rleb. destruct (Rle_dec a b); split; auto; try discriminate; intros; Lra.lra.
Qed.

Lemma clamp_inside (v lo hi : R) : lo <= v <= hi -> clamp v lo hi = v.
Proof.
  intros [Hlo Hhi]. unfold clamp, Math_max, Math_min. cbn [leb NumR].
  destruct (Rleb hi v) eqn:E1.
  - apply Rleb_le in E1. assert (v = hi) as -> by Lra.lra.
    destruct (Rleb lo hi) eqn:E2; [reflexivity|]. apply Rleb_gt in E2. Lra.lra.
  - destruct (Rleb lo v) eqn:E2; [reflexivity|]. apply Rleb_gt in E2. Lra.lra.
Qed.

Lemma lit_Z (z : Z) : lit (inject_Z z) = IZR z.
Proof. cbn [lit NumR]. unfold Q2R, inject_Z. cbn. field. Qed.

Lemma sqrt2_pos : 0 < sqrt 2.
Proof. apply sqrt_lt_R0. Lra.lra. Qed.

Lemma sqrt2_sqr : sqrt 2 * sqrt 2 = 2.
Proof. apply sqrt_def. Lra.lra. Qed.

(** The length of the intent: [Math.hypot(vx, vy) || 1]. *)
Lemma len_diagonal : or_else (Math_hypot 1 1) (lit 1) = sqrt 2.
Proof.
  cbn [Math_hypot NumR].
  replace (1 * 1 + 1 * 1) with 2 by Lra.lra.
  unfold or_else, is_zero. cbn [leb NumR].
  change (lit 0) with (lit (inject_Z 0)). rewrite lit_Z.
  assert (Rleb (sqrt 2) 0 = false) as -> by (apply Rleb_gt; apply sqrt2_pos).
  reflexivity.
Qed.

Lemma len_axial : or_else (Math_hypot 1 0) (lit 1) = 1.
Proof.
  cbn [Math_hypot NumR].
  replace (1 * 1 + 0 * 0) with 1 by Lra.lra.
  rewrite sqrt_1.
  unfold or_else, is_zero. cbn [leb NumR].
  change (lit 0) with (lit (inject_Z 0)). rewrite lit_Z.
  assert (Rleb 1 0 = false) as -> by (apply Rleb_gt; Lra.lra).
  reflexivity.
Qed.

Lemma field_bounds :
  lit 15 = 15 /\ sub INTERNAL_WIDTH (lit 15) = 465 /\ sub INTERNAL_HEIGHT (lit 15) = 705.
Proof.
  unfold INTERNAL_WIDTH, INTERNAL_HEIGHT.
  change (lit 15) with (lit (inject_Z 15)).
  change (lit 480) with (lit (inject_Z 480)).
  change (lit 720) with (lit (inject_Z 720)).
  rewrite !lit_Z. cbn [sub NumR]. repeat split; Lra.lra.
Qed.

Lemma half_square (a : R) : a * a = 2 * ((a / sqrt 2) * (a / sqrt 2)).
Proof.
  pose proof sqrt2_pos as Hpos.
  assert (a / sqrt 2 * sqrt 2 = a) as Hc by (field; Lra.lra).
  set (c := a / sqrt 2) in *.
  rewrite <- Hc at 1 2. transitivity (c * c * (sqrt 2 * sqrt 2)); [ring|].
  rewrite sqrt2_sqr. ring.
Qed.

(** A displacement of [a / sqrt 2] along both axes has the length [|a|]. *)
Lemma diagonal_length (a : R) :
  sqrt ((a / sqrt 2) * (a / sqrt 2) + (a / sqrt 2) * (a / sqrt 2)) = Rabs a.
Proof.
  replace ((a / sqrt 2) * (a / sqrt 2) + (a / sqrt 2) * (a / sqrt 2)) with (Rsqr a).
  - apply sqrt_Rsqr_abs.
  - unfold Rsqr. rewrite (half_square a). ring.
Qed.

Lemma diagonal_shorter (a : R) : Rabs (a / sqrt 2) <= Rabs a.
Proof.
  apply Rsqr_le_abs_0. unfold Rsqr. rewrite (half_square a).
  pose proof (Rle_0_sqr (a / sqrt 2)) as H0. unfold Rsqr in H0. Lra.lra.
Qed.

(** Where [movePlayer] puts the player, away from the walls. *)
Lemma free_move dt (s : State R) p (vx vy len : R) :
  player s = Some p ->
  x (intent s) = vx -> y (intent s) = vy ->
  or_else (Math_hypot vx vy) (lit 1) = len ->
  15 <= x (pos p) + vx / len * speed p * dt <= 465 ->
  15 <= y (pos p) + vy / len * speed p * dt <= 705 ->
  exists p', player (movePlayer dt s) = Some p'
    /\ x (pos p') = x (pos p) + vx / len * speed p * dt
    /\ y (pos p') = y (pos p) + vy / len * speed p * dt.
Proof.
  intros Hp Hvx Hvy Hlen Hx Hy.
  unfold movePlayer. rewrite Hp. cbv zeta. rewrite Hvx, Hvy, Hlen.
  destruct field_bounds as (E15 & EW & EH). rewrite EW, EH, E15.
  cbn [add mul div NumR].
  rewrite !clamp_inside by assumption.
  eexists. split; [reflexivity|]. split; reflexivity.
Qed.

(** C9, as the code has it.  When the player is at least [|speed * dt|] away
    from every wall of the clamping box, the movement of a step displaces
    it by the same distance under the intent (1, 1) as under the intent
    (1, 0), namely by [|speed * dt|]: the intent is divided by its length
    before it is scaled by [speed * dt].  A step in which the player is not
    hit (no life is lost) leaves the player at that place, so that the
    whole step displaces it by [|speed * dt|] under either intent.  A step
    in which it is hit takes one life and puts the player at the start
    position, or, when it ends the game, leaves it where the movement put
    it. *)
Theorem diagonal_not_faster dt (s : State R) p (kd ka : string -> bool) :
  player s = Some p ->
  15 <= x (pos p) - Rabs (speed p * dt) -> x (pos p) + Rabs (speed p * dt) <= 465 ->
  15 <= y (pos p) - Rabs (speed p * dt) -> y (pos p) + Rabs (speed p * dt) <= 705 ->
  x (intent (set_keys kd s)) = 1 -> y (intent (set_keys kd s)) = 1 ->
  x (intent (set_keys ka s)) = 1 -> y (intent (set_keys ka s)) = 0 ->
  let sd := update random dt (set_keys kd s) in
  let sa := update random dt (set_keys ka s) in
  exists pd pa,
    player (movePlayer dt (set_keys kd s)) = Some pd
    /\ player (movePlayer dt (set_keys ka s)) = Some pa
    /\ Math_hypot (x (pos pd) - x (pos p)) (y (pos pd) - y (pos p))
       = Math_hypot (x (pos pa) - x (pos p)) (y (pos pa) - y (pos p))
    /\ Math_hypot (x (pos pa) - x (pos p)) (y (pos pa) - y (pos p))
       = Rabs (speed p * dt)
    /\ exists ud ua,
         player sd = Some ud /\ player sa = Some ua
         /\ (lives sd = lives s ->
             pos ud = pos pd
             /\ Math_hypot (x (pos ud) - x (pos p)) (y (pos ud) - y (pos p))
                = Rabs (speed p * dt))
         /\ (lives sa = lives s ->
             pos ua = pos pa
             /\ Math_hypot (x (pos ua) - x (pos p)) (y (pos ua) - y (pos p))
                = Rabs (speed p * dt))
         /\ (lives sd <> lives s ->
             lives sd = (lives s - 1)%Z
             /\ (pos ud = startPos \/ (pos ud = pos pd /\ gameOver sd = true)))
         /\ (lives sa <> lives s ->
             lives sa = (lives s - 1)%Z
             /\ (pos ua = startPos \/ (pos ua = pos pa /\ gameOver sa = true))).
Proof.
  intros Hp Hx1 Hx2 Hy1 Hy2 Hdx Hdy Hax Hay. cbv zeta.
  set (a := speed p * dt) in *.
  pose proof (diagonal_shorter a) as Hshort.
  pose proof (Rle_abs (a / sqrt 2)) as Hc1.
  pose proof (Rle_abs (- (a / sqrt 2))) as Hc2. rewrite Rabs_Ropp in Hc2.
  pose proof (Rle_abs a) as Ha1.
  pose proof (Rle_abs (- a)) as Ha2. rewrite Rabs_Ropp in Ha2.
  pose proof sqrt2_pos as Hpos.
  assert (1 / sqrt 2 * speed p * dt = a / sqrt 2) as Ed by (subst a; field; Lra.lra).
  assert (1 / 1 * speed p * dt = a) as Ea by (subst a; field).
  assert (0 / 1 * speed p * dt = 0) as E0 by field.
  destruct (@free_move dt (set_keys kd s) p 1 1 (sqrt 2) Hp Hdx Hdy len_diagonal)
    as (pd & Hpd & Hxd & Hyd); [rewrite Ed; Lra.lra | rewrite Ed; Lra.lra |].
  destruct (@free_move dt (set_keys ka s) p 1 0 1 Hp Hax Hay len_axial)
    as (pa & Hpa & Hxa & Hya); [rewrite Ea; Lra.lra | rewrite E0; Lra.lra |].
  exists pd, pa. split; [exact Hpd|]. split; [exact Hpa|].
  assert (Math_hypot (x (pos pa) - x (pos p)) (y (pos pa) - y (pos p)) = Rabs a) as Haxial.
  { rewrite Hxa, Hya, Ea, E0. cbn [Math_hypot NumR].
    replace ((x (pos p) + a - x (pos p)) * (x (pos p) + a - x (pos p))
             + (y (pos p) + 0 - y (pos p)) * (y (pos p) + 0 - y (pos p)))
      with (Rsqr a) by (unfold Rsqr; ring).
    apply sqrt_Rsqr_abs. }
  assert (Math_hypot (x (pos pd) - x (pos p)) (y (pos pd) - y (pos p)) = Rabs a) as Hdiag.
  { rewrite Hxd, Hyd, Ed. cbn [Math_hypot NumR].
    replace (x (pos p) + a / sqrt 2 - x (pos p)) with (a / sqrt 2) by ring.
    replace (y (pos p) + a / sqrt 2 - y (pos p)) with (a / sqrt 2) by ring.
    apply diagonal_length. }
  split; [rewrite Haxial; exact Hdiag|]. split; [exact Haxial|].
  destruct (@update_displaces R _ random dt (set_keys kd s) p pd Hp Hpd)
    as (ud & Hud & Hd1 & Hd2).
  destruct (@update_displaces R _ random dt (set_keys ka s) p pa Hp Hpa)
    as (ua & Hua & Ha3 & Ha4).
  exists ud, ua. split; [exact Hud|]. split; [exact Hua|].
  split; [intros Hl; rewrite (Hd1 Hl); split; [reflexivity | exact Hdiag]|].
  split; [intros Hl; rewrite (Ha3 Hl); split; [reflexivity | exact Haxial]|].
  split; [exact Hd2 | exact Ha4].
Qed.

End Real.

(* ================================================================== *)
(** ** Sessions that run *)

Module Play.
Import ExactHost Session.
#[local] Existing Instance hostQ.
Local Open Scope Q_scope.

(** **** The first hit *)

(** C10.  The enemy-vs-player pass does not look at the alive flag of
    the enemies.  In the session [approach], which the component reaches
    from its mounted state, the next frame performs a step in which every
    enemy enters the bullet pass alive, the bullet pass kills the first
    enemy (hit-points 0, not alive, 100 points scored), and the player
    pass then finds that same enemy overlapping the player and calls
    [hitPlayer]: a life is lost. *)
Theorem dead_enemy_hits_player :
  let s := run half approach mount in
  let dt : Q := 0.033 in
  let s0 := beforeCollisions half dt (set_time (add (time s) dt) (set_lastTime (Some 1683) s)) in
  let s1 := collideBullets half s0 in
  step half (Frame 1683) s = update half dt (set_lastTime (Some 1683) s)
  /\ forallb (fun e : Enemy Q => alive e) (enemies s0) = true
  /\ score s1 = (score s0 + 100)%Z
  /\ (exists p e es,
        player s1 = Some p /\ enemies s1 = e :: es
        /\ alive e = false /\ hp e = 0%Z /\ overlaps p e = true
        /\ collidePlayer half s1 = set_enemies (enemies s1) (hitPlayer half p s1))
  /\ lives (collidePlayer half s1) = (lives s1 - 1)%Z
  /\ lives (step half (Frame 1683) s) = (lives s - 1)%Z.
Proof.
  cbv zeta.
  split; [vm_compute; reflexivity|].
  split; [vm_compute; reflexivity|].
  split; [vm_compute; reflexivity|].
  split.
  - eexists. eexists. eexists.
    split; [vm_compute; reflexivity|].
    split; [vm_compute; reflexivity|].
    repeat split; vm_compute; reflexivity.
  - split; vm_compute; reflexivity.
Qed.

(** C7 does not hold of the code: the state that the step after
    [approach] leaves is the state in which the next step begins, and the
    bullet and the enemy that the collision passes marked are still in
    their collections. *)
Lemma dead_entities_when_step_begins :
  let s := step half (Frame 1683) (run half approach mount) in
  running s = true /\ gameOver s = false
  /\ map (fun b : Bullet Q => alive b) (bullets s) = [false]
  /\ map (fun e : Enemy Q => alive e) (enemies s) = [false; true; true; true; true]
  /\ allAlive s = false.
Proof. cbv zeta. repeat split; vm_compute; reflexivity. Qed.

(** **** Three hits *)

(** C1, at the session [twoHits].  The session was started with three
    lives and has taken two hits; the next frame brings the third hit:
    [lives] becomes 0, and the session goes on, with [gameOver] false,
    [running] true and the player alive at the start position, since
    [hitPlayer] still reads the [lives] of the render that started the
    session.  A restart does reset the score, the lives and the
    collections. *)
Theorem third_hit_does_not_end_session :
  let s := run half twoHits mount in
  let s' := step half (Frame 4290) s in
  lives (run half approach mount) = 3%Z
  /\ lives (run half (approach ++ [Frame 1683]) mount) = 2%Z
  /\ (lives s = 1%Z /\ seen_lives s = 3%Z /\ running s = true /\ gameOver s = false)
  /\ (lives s' = 0%Z /\ gameOver s' = false /\ running s' = true
      /\ option_map (fun p : Player Q => (alive p, pos p)) (player s')
         = Some (true, startPos))
  /\ (forall s0 : State Q,
        let r := initGame s0 in
        score r = 0%Z /\ lives r = 3%Z /\ player r = Some newPlayer
        /\ bullets r = [] /\ enemies r = [] /\ particles r = []
        /\ running r = true /\ gameOver r = false).
Proof.
  cbv zeta.
  split; [vm_compute; reflexivity|].
  split; [vm_compute; reflexivity|].
  split; [repeat split; vm_compute; reflexivity|].
  split; [repeat split; vm_compute; reflexivity|].
  intros s0. repeat split.
Qed.

(** **** The second wave *)

(** C6, at the session [secondWave].  The score is 100 and the spawn timer
    is due; the next frame generates a wave of five, and it leaves the
    timer at 2.0, which is the interval for the score 0 that the game loop
    captured when the session started, where the interval for the score of
    the session is max (0.8, 2.0 - 0.001 * 100) = 1.9. *)
Theorem spawn_timer_reads_captured_score :
  let s := run half secondWave mount in
  let s' := step half (Frame 2013) s in
  s' = update half 0.033 (set_lastTime (Some 2013) s)
  /\ (score s = 100%Z /\ seen_score s = 0%Z /\ running s = true /\ paused s = false)
  /\ spawnTimer s - 0.033 <= 0
  /\ (List.length (enemies s) = 4%nat /\ List.length (enemies s') = 9%nat)
  /\ score s' = 100%Z
  /\ spawnTimer s' = 2
  /\ Qmax intervalFloor (baseInterval - intervalSlope * inject_Z (score s')) == 1.9
  /\ ~ spawnTimer s' == Qmax intervalFloor (baseInterval - intervalSlope * inject_Z (score s')).
Proof.
  cbv zeta.
  split; [vm_compute; reflexivity|].
  split; [repeat split; vm_compute; reflexivity|].
  split; [vm_compute; discriminate|].
  split; [split; vm_compute; reflexivity|].
  split; [vm_compute; reflexivity|].
  split; [vm_compute; reflexivity|].
  split; [vm_compute; reflexivity|].
  intros E; vm_compute in E; discriminate.
Qed.

(** **** Two bullets, one enemy *)

(** C3, at the session [volley].  In the next step every enemy enters the
    bullet pass alive, one enemy is killed -- the first, which both bullets
    hit, the second when it is already not alive -- and the score rises
    by 200. *)
Theorem one_kill_scores_twice :
  let s := run half volley mount in
  let s' := step half (Frame 1589) s in
  let s0 := beforeCollisions half 0.033
              (set_time (add (time s) 0.033) (set_lastTime (Some 1589) s)) in
  step half (Frame 1589) s = update half 0.033 (set_lastTime (Some 1589) s)
  /\ map (fun e : Enemy Q => (alive e, hp e)) (enemies s0)
     = [(true, 1); (true, 1); (true, 1); (true, 1); (true, 1)]%Z
  /\ map (fun b : Bullet Q => alive b) (bullets s0) = [true; true]
  /\ map (fun e : Enemy Q => (alive e, hp e)) (enemies s')
     = [(false, -1); (true, 1); (true, 1); (true, 1); (true, 1)]%Z
  /\ map (fun b : Bullet Q => alive b) (bullets s') = [false; false]
  /\ score s' = (score s + 200)%Z.
Proof. cbv zeta. repeat split; vm_compute; reflexivity. Qed.

(** **** A negative delta *)

(** C8 does not hold of the code: at the session [volley], in which one
    bullet is in flight, a step with the delta -0.01 moves the clock, the
    bullet, the cooldown and the spawn timer, where a step with the delta 0
    leaves them; and a frame whose time stamp lies before the last one
    performs a step with a negative delta. *)
Lemma negative_delta_changes_state :
  let s := run half volley mount in
  let back := update half (-0.01) s in
  let still := update half 0 s in
  (time s, map (fun b : Bullet Q => pos b) (bullets s), spawnTimer s,
   option_map (fun p : Player Q => cooldown p) (player s))
  = (time still, map (fun b : Bullet Q => pos b) (bullets still), spawnTimer still,
     option_map (fun p : Player Q => cooldown p) (player still))
  /\ ~ time back == time still
  /\ map (fun b : Bullet Q => y (pos b)) (bullets still) = [3358 # 5]
  /\ map (fun b : Bullet Q => y (pos b)) (bullets back) = [3338 # 5]
  /\ ~ spawnTimer back == spawnTimer still
  /\ option_map (fun p : Player Q => cooldown p) (player still) = Some (7 # 500)
  /\ option_map (fun p : Player Q => cooldown p) (player back) = Some (3 # 125)
  /\ step half (Frame 1000) s = update half (-0.556) (set_lastTime (Some 1000) s).
Proof.
  cbv zeta. split; [vm_compute; reflexivity|].
  split; [intros E; vm_compute in E; discriminate|].
  split; [vm_compute; reflexivity|].
  split; [vm_compute; reflexivity|].
  split; [intros E; vm_compute in E; discriminate|].
  split; [vm_compute; reflexivity|].
  split; [vm_compute; reflexivity|].
  vm_compute; reflexivity.
Qed.

(** **** Deltas that go back *)

(** C5 does not hold of the code for every sequence of ticks.  A step
    takes a negative delta as it comes, and the cooldown then grows by it;
    the deltas of [thereAndBack] sum to 0, for which the bound is
    floor (0 / 0.08) + 1 = 1, and with the fire signal held the three steps
    with the deltas 0, 0.08 and 0.08 each push a bullet.  The frame loop
    hands such deltas on: in the session [rewound] the deltas are 0, three
    times 0.033, and -0.099, which sum to 0, and two bullets are pushed. *)
Lemma fire_rate_cap_fails_with_negative_deltas :
  isFiring firingSession = true
  /\ total thereAndBack == 0
  /\ (Qfloor (total thereAndBack / cooldownInterval) + 1 = 1)%Z
  /\ fired half thereAndBack firingSession = 3%nat
  /\ ~ (Z.of_nat (fired half thereAndBack firingSession)
        <= Qfloor (total thereAndBack / cooldownInterval) + 1)%Z
  /\ (let s := run half rewound mount in
      time s = 0
      /\ s = update half (-0.099) (set_lastTime (Some 0) (run half forth mount))
      /\ map (fun b : Bullet Q => alive b) (bullets s) = [true; true]).
Proof.
  split; [vm_compute; reflexivity|].
  split; [vm_compute; reflexivity|].
  split; [vm_compute; reflexivity|].
  split; [vm_compute; reflexivity|].
  split; [intros H; vm_compute in H; apply H; reflexivity|].
  cbv zeta. split; [vm_compute; reflexivity|].
  split; vm_compute; reflexivity.
Qed.

(** **** A hit under one intent only *)

(** C9 does not hold of the code for every step.  After fifty frames of
    [opening] the player stands at (240, 657), 48 away from the nearest
    wall of the clamping box, and the wave is 30.25 below it.  With [d]
    held besides [s], intent (1, 1), the next frame of 33 ms ends in a hit:
    the player is put back to the start position (240, 360), 297 away.
    With [d] held alone, intent (1, 0), the same frame does not hit: the
    player is displaced by 5.94 = 180 * 0.033. *)
Lemma hit_displaces_player_under_one_intent :
  let s := run half (opening ++ frames 33 50) mount in
  let diag := step half (KeyDown "d" "KeyD") s in
  let axial := step half (KeyDown "d" "KeyD") (step half (KeyUp "s" "KeyS") s) in
  let sd := step half (Frame 1683) diag in
  let sa := step half (Frame 1683) axial in
  (option_map (fun p : Player Q => pos p) (player s) = Some (mkVec2 240 657)
   /\ player diag = player s /\ player axial = player s
   /\ enemies diag = enemies s /\ enemies axial = enemies s)
  /\ (intent diag = mkVec2 1 1 /\ intent axial = mkVec2 1 0)
  /\ (sd = update half 0.033 (set_lastTime (Some 1683) diag)
      /\ sa = update half 0.033 (set_lastTime (Some 1683) axial))
  /\ (option_map (fun p : Player Q => pos p) (player sd) = Some (mkVec2 240 360)
      /\ lives sd = (lives s - 1)%Z)
  /\ (option_map (fun p : Player Q => pos p) (player sa) = Some (mkVec2 (Qred (240 + 5.94)) 657)
      /\ lives sa = lives s)
  /\ option_map (fun p : Player Q => dist2 (pos p) (mkVec2 240 657)) (player sd)
     = Some (Qred (297 * 297))
  /\ option_map (fun p : Player Q => dist2 (pos p) (mkVec2 240 657)) (player sa)
     = Some (Qred (5.94 * 5.94)).
Proof.
  cbv zeta.
  split; [repeat split; vm_compute; reflexivity|].
  split; [split; vm_compute; reflexivity|].
  split; [split; vm_compute; reflexivity|].
  split; [split; vm_compute; reflexivity|].
  split; [split; vm_compute; reflexivity|].
  split; vm_compute; reflexivity.
Qed.

(** **** The general statements at a session *)

Lemma player_stays_in_field_witness :
  player (update half 0.033 started) = Some walked /\ inField (pos walked).
Proof.
  assert (player (update half 0.033 started) = Some walked) as E
      by (vm_compute; reflexivity).
  split; [exact E | exact (@player_stays_in_field hostQ half 0.033 started walked E)].
Defined.

Lemma fire_rate_cap_witness :
  Forall (fun dt => 0 <= dt) fourFrames
  /\ (Z.of_nat (fired half fourFrames firingSession)
      <= Qfloor (total fourFrames / cooldownInterval) + 1)%Z.
Proof.
  assert (Forall (fun dt => 0 <= dt) fourFrames) as E
      by (repeat constructor; discriminate).
  split; [exact E|].
  exact (proj1 (@fire_rate_cap hostQ half fourFrames firingSession E)).
Defined.

Lemma spawn_timer_reset_witness :
  player started = Some newPlayer /\ spawnTimer started - 0 <= 0
  /\ spawnTimer (update half 0 started) = spawnInterval (seen_score started).
Proof.
  assert (player started = Some newPlayer) as E1 by (vm_compute; reflexivity).
  assert (spawnTimer started - 0 <= 0) as E2 by (vm_compute; discriminate).
  split; [exact E1|]. split; [exact E2|].
  exact (proj1 (@spawn_timer_reset hostQ half 0 started newPlayer E1 E2)).
Defined.

Lemma dead_removed_during_next_step_witness :
  let s := step half (Frame 1683) (run half approach mount) in
  let s' := update half 0.033 s in
  player s = Some (mkPlayer (mkEntity (mkBody (mkVec2 240 360) (mkVec2 0 1)) 12 true)
                            180 0.08)
  /\ (map (fun b : Bullet Q => alive b) (bullets s) = [false]
      /\ map (fun e : Enemy Q => alive e) (enemies s) = [false; true; true; true; true]
      /\ List.length (particles s) = 48%nat)
  /\ (bullets s' = []
      /\ map (fun e : Enemy Q => alive e) (enemies s') = [true; true; true; true]
      /\ List.length (particles s') = 48%nat)
  /\ (forall b', In b' (bullets s') ->
        outOfField (pos b') = false
        /\ exists b : Bullet Q, alive b = true
             /\ entity_body b' = entity_body (moveBullet 0.033 b)
             /\ (In b (bullets s) \/ exists pl, b = newBullet pl (aim s)))
  /\ (forall e', In e' (enemies s') ->
        exists (e : Enemy Q) tg, alive e = true
          /\ entity_body e' = entity_body (moveEnemy 0.033 tg (seen_score s) e)
          /\ (In e (enemies s) \/ fresh (seen_score s) e))
  /\ (forall q, In q (particles s') -> 0 < life q)
  /\ (let s0 := beforeCollisions half 0.033 (set_time (add (time s) 0.033) s) in
      forallb (fun b : Bullet Q => alive b) (bullets s0) = true
      /\ forallb (fun e : Enemy Q => alive e) (enemies s0) = true).
Proof.
  cbv zeta.
  set (s := step half (Frame 1683) (run half approach mount)).
  assert (player s = Some (mkPlayer (mkEntity (mkBody (mkVec2 240 360) (mkVec2 0 1)) 12 true)
                                    180 0.08)) as Hp by (vm_compute; reflexivity).
  split; [exact Hp|].
  split; [repeat split; vm_compute; reflexivity|].
  split; [repeat split; vm_compute; reflexivity|].
  exact (@dead_removed_during_next_step hostQ half 0.033 s _ Hp).
Defined.

(** The started session over the numbers with NaN. *)
Lemma nan_absorbs :
  (forall a, add (Number := NaN.NumNaN) a None = None)
  /\ (forall a, sub (Number := NaN.NumNaN) a None = None)
  /\ (forall a, sub (Number := NaN.NumNaN) None a = None)
  /\ (forall a, div (Number := NaN.NumNaN) None a = None)
  /\ (forall a, leb (Number := NaN.NumNaN) a None = false)
  /\ (forall a, leb (Number := NaN.NumNaN) None a = false).
Proof. repeat split; intros [a|]; reflexivity. Defined.

Lemma delta_taken_as_given_witness :
  let s := run half volley mount in
  let s' := update half (-0.01) s in
  let rnd : nat -> option Q := fun _ => Some (1 # 2) in
  let sn := step (N := NaN.NumNaN) rnd ClickStart (mount (N := NaN.NumNaN)) in
  (isFiring s = true /\ firedIn (-0.01) s = 0%nat
   /\ option_map (fun p : Player Q => cooldown p) (player s) = Some (7 # 500)
   /\ option_map (fun p : Player Q => cooldown p) (player s') = Some (3 # 125))
  /\ time s' == time s + -0.01
  /\ (exists p p', player s = Some p /\ player s' = Some p'
                   /\ cooldown p' == cooldown p - -0.01)
  /\ (time sn = Some 0 /\ time (update (N := NaN.NumNaN) rnd None sn) = None
      /\ exists p', player (update (N := NaN.NumNaN) rnd None sn) = Some p'
                    /\ cooldown p' = None).
Proof.
  cbv zeta.
  assert (firedIn (-0.01) (run half volley mount) = 0%nat) as H0
      by (vm_compute; reflexivity).
  split; [repeat split; vm_compute; reflexivity|].
  assert (exists p, player (run half volley mount) = Some p) as [p Hp]
      by (eexists; vm_compute; reflexivity).
  destruct (@delta_taken_as_given hostQ half (-0.01) (run half volley mount) p Hp)
    as (Ht & _ & (p' & Hp' & Hc & _) & _ & _ & Hnan).
  split; [exact Ht|].
  split; [exists p, p'; split; [exact Hp|]; split; [exact Hp' | exact (Hc H0)]|].
  destruct nan_absorbs as (H1 & H2 & H3 & H4 & H5 & H6).
  destruct (Hnan (option Q) NaN.NumNaN (fun _ => Some (1 # 2)) None
                 (step (N := NaN.NumNaN) (fun _ => Some (1 # 2)) ClickStart
                       (mount (N := NaN.NumNaN)))
                 (newPlayer (N := NaN.NumNaN)) H1 H2 H3 H4 H5 H6 eq_refl)
    as (Hn1 & Hn2 & _).
  split; [reflexivity|]. split; [exact Hn1 | exact Hn2].
Defined.

End Play.

(* ================================================================== *)
(** ** A step over the real numbers *)

Module RealPlay.
Import RealSession.
Local Open Scope R_scope.

Lemma bit_values : bit true = 1 /\ bit false = 0.
Proof.
  unfold bit. change (lit 1) with (lit (inject_Z 1)). change (lit 0) with (lit (inject_Z 0)).
  rewrite !lit_Z. split; reflexivity.
Qed.

End RealPlay.

(* ================================================================== *)
(** ** Sessions *)

Section Sessions.
Context {num : Type} {N : Number num}.
Variable random : nat -> num.

Lemma run_invariant (P : State num -> Prop) :
  (forall ev s, P s -> P (step random ev s)) ->
  forall evs s, P s -> P (run random evs s).
Proof.
  intros Hstep evs. unfold run.
  induction evs as [|ev evs IH]; intros s Hs; cbn [fold_left]; auto.
Qed.

Lemma steady_mount : steady (mount (num := num)).
Proof.
  unfold steady, loose, seenOK, mount. eval_fields.
  split.
  - split; [split; reflexivity|].
    split; [constructor|]. split; [constructor|].
    split; [exists 0%nat; reflexivity|].
    split; [lia | discriminate].
  - split; [exists 0%nat, 0%nat; split; reflexivity | lia].
Qed.

(** *** What [spawnWave] and [emitExplosion] push *)

Lemma spawnLoop_exact n (s : State num) :
  spawnLoop random n s
  = set_rng (3 * n + rng s)
      (set_enemies (enemies s ++ wave random (seen_score s) n (rng s)) s).
Proof.
  revert s. induction n as [|n IH]; intros s.
  - cbn [spawnLoop]. unfold wave. cbn [seq map]. rewrite app_nil_r.
    destruct s; reflexivity.
  - cbn [spawnLoop]. rewrite IH. destruct s as [? ? ? ? ? ? ? ? es ? ? ? ? ? ? sc ? r].
    unfold spawnEnemy. eval_fields.
    unfold wave. rewrite <- cons_seq, <- seq_shift. cbn [map]. rewrite map_map.
    rewrite <- app_assoc. cbn [app].
    replace (3 * S n + r)%nat with (3 * n + (3 + r))%nat by lia.
    rewrite (map_ext (fun j => newEnemy random sc (3 * S j + r))
                     (fun j => newEnemy random sc (3 * j + (3 + r))))
      by (intros j; f_equal; lia).
    reflexivity.
Qed.

Lemma spawnWave_exact (s : State num) :
  spawnWave random s
  = let n := Z.to_nat (waveCount random s) in
    set_rng (3 * n + S (rng s))
      (set_enemies (enemies s ++ wave random (seen_score s) n (S (rng s))) s).
Proof. unfold spawnWave. rewrite spawnLoop_exact. reflexivity. Qed.

Lemma emitLoop_exact n px py c i (s : State num) :
  emitLoop random n px py c i s
  = set_rng (3 * n + rng s)
      (set_particles
         (particles s
          ++ map (fun j => newParticle random px py c (i + Z.of_nat j) (3 * j + rng s))
                 (seq 0 n)) s).
Proof.
  revert i s. induction n as [|n IH]; intros i s.
  - cbn [emitLoop seq map]. rewrite app_nil_r. destruct s; reflexivity.
  - cbn [emitLoop]. rewrite IH. destruct s as [? ? ? ? ? ? ? ? ? ps ? ? ? ? ? ? ? r].
    unfold emitParticle. eval_fields.
    rewrite <- cons_seq, <- seq_shift. cbn [map]. rewrite map_map.
    rewrite <- app_assoc. cbn [app].
    replace (3 * S n + r)%nat with (3 * n + (3 + r))%nat by lia.
    rewrite (map_ext (fun j => newParticle random px py c (i + Z.of_nat (S j)) (3 * S j + r))
                     (fun j => newParticle random px py c (i + 1 + Z.of_nat j) (3 * j + (3 + r))))
      by (intros j; f_equal; lia).
    replace (i + Z.of_nat 0)%Z with i by lia.
    reflexivity.
Qed.

Lemma emitExplosion_exact px py c (s : State num) :
  emitExplosion random px py c s
  = set_rng (48 + rng s) (set_particles (particles s ++ burst random px py c (rng s)) s).
Proof. unfold emitExplosion. rewrite emitLoop_exact. reflexivity. Qed.

Lemma particles_emitExplosion px py c (s : State num) :
  particles (emitExplosion random px py c s)
  = particles s ++ burst random px py c (rng s).
Proof. rewrite emitExplosion_exact. reflexivity. Qed.

Lemma In_burst px py c r (q : Particle num) :
  In q (burst random px py c r) ->
  exists j, q = newParticle random px py c (Z.of_nat j) (3 * j + r).
Proof.
  unfold burst. intros Hin. apply in_map_iff in Hin.
  destruct Hin as (j & <- & _). exists j. reflexivity.
Qed.

(** *** The React state through a step *)

Lemma sameRender_trans (s1 s2 s3 : State num) :
  sameRender s1 s2 -> sameRender s2 s3 -> sameRender s1 s3.
Proof. unfold sameRender. intuition congruence. Qed.

Lemma sameRender_movePlayer dt (s : State num) : sameRender s (movePlayer dt s).
Proof. unfold sameRender, movePlayer. destruct (player s); repeat split. Qed.

Lemma sameRender_shoot dt (s : State num) : sameRender s (shoot dt s).
Proof.
  unfold sameRender, shoot. destruct (player s); [|repeat split].
  destruct (isFiring s && _); repeat split.
Qed.

Lemma sameRender_updateBullets dt (s : State num) : sameRender s (updateBullets dt s).
Proof. unfold sameRender, updateBullets. repeat split. Qed.

Lemma sameRender_spawnEnemies dt (s : State num) : sameRender s (spawnEnemies random dt s).
Proof.
  unfold spawnEnemies. cbn [spawnTimer set_spawnTimer].
  destruct (leb _ _); [|unfold sameRender; repeat split].
  match goal with |- context [spawnWave random ?st] =>
    destruct (spawnWave_frame random st) as (es & r & _ & _ & ->) end.
  unfold sameRender. repeat split.
Qed.

Lemma sameRender_updateEnemies dt (s : State num) : sameRender s (updateEnemies dt s).
Proof. unfold sameRender, updateEnemies. repeat split. Qed.

Lemma sameRender_beforeCollisions dt (s : State num) :
  sameRender s (beforeCollisions random dt s).
Proof.
  unfold beforeCollisions.
  eapply sameRender_trans; [apply sameRender_movePlayer|].
  eapply sameRender_trans; [apply sameRender_shoot|].
  eapply sameRender_trans; [apply sameRender_updateBullets|].
  eapply sameRender_trans; [apply sameRender_spawnEnemies | apply sameRender_updateEnemies].
Qed.

(** The bullet pass scores at most one kill per bullet. *)
Lemma bulletPass_kills bs es (s : State num) bs' es' s' :
  bulletPass random bs es s = (bs', es', s') ->
  exists k ps r, s' = effects k ps r s /\ (k <= List.length bs)%nat.
Proof.
  revert es s bs' es' s'. induction bs as [|b bs IH]; intros es s bs' es' s'; cbn [bulletPass].
  - intros [= <- <- <-]. exists 0%nat, [], (rng s). split; [apply effects_none | lia].
  - destruct (negb (fromPlayer b)).
    + destruct (bulletPass random bs es s) as [[bs1 es1] s1] eqn:Hp.
      intros [= <- <- <-]. destruct (IH _ _ _ _ _ Hp) as (k & ps & r & -> & Hk).
      exists k, ps, r. split; [reflexivity | cbn [List.length]; lia].
    + destruct (scanEnemies random b es s) as [[es0 s0]|] eqn:Hscan.
      * destruct (bulletPass random bs es0 s0) as [[bs1 es1] s1] eqn:Hp.
        intros [= <- <- <-].
        apply scanEnemies_Some in Hscan.
        destruct Hscan as (pre & e & post & e' & _ & _ & _ & _ & Hd).
        apply damage_effects in Hd. destruct Hd as (k0 & ps0 & r0 & -> & Hk0 & _).
        destruct (IH _ _ _ _ _ Hp) as (k & ps & r & -> & Hk).
        rewrite effects_effects.
        exists (k0 + k)%nat, (ps0 ++ ps), r. split; [reflexivity | cbn [List.length]; lia].
      * destruct (bulletPass random bs es s) as [[bs1 es1] s1] eqn:Hp.
        intros [= <- <- <-]. destruct (IH _ _ _ _ _ Hp) as (k & ps & r & -> & Hk).
        exists k, ps, r. split; [reflexivity | cbn [List.length]; lia].
Qed.

Lemma collideBullets_form (s : State num) :
  exists bs es k ps r,
    collideBullets random s = set_enemies es (set_bullets bs (effects k ps r s))
    /\ Forall2 sameBullet (bullets s) bs /\ Forall2 sameEnemy (enemies s) es
    /\ (k <= List.length (bullets s))%nat.
Proof.
  unfold collideBullets.
  destruct (bulletPass random (bullets s) (enemies s) s) as [[bs es] s1] eqn:Hp.
  destruct (bulletPass_frame random _ _ _ Hp) as (Hb & He & _).
  destruct (bulletPass_kills _ _ _ Hp) as (k & ps & r & -> & Hk).
  exists bs, es, k, ps, r. auto.
Qed.

Lemma collidePlayer_cases (s : State num) :
  collidePlayer random s = s
  \/ exists p es,
       player s = Some p /\ alive p = true /\ Forall2 sameEnemy (enemies s) es
       /\ (exists e, In e (enemies s) /\ overlaps p e = true)
       /\ collidePlayer random s = set_enemies es (hitPlayer random p s).
Proof.
  unfold collidePlayer. destruct (player s) as [p|] eqn:Hp; [|now left].
  destruct (playerScan random p (enemies s) s) as [[es' s']|] eqn:Hscan; [|now left].
  right. pose proof (playerScan_sameEnemy random _ _ _ Hscan) as He.
  apply playerScan_Some in Hscan.
  destruct Hscan as (Ha & pre & e & post & E & _ & _ & Ho & ->).
  exists p, es'. repeat split; auto.
  exists e. split; [rewrite E; apply in_elt | exact Ho].
Qed.

Lemma length_bullets_shoot dt (s : State num) :
  (List.length (bullets (shoot dt (movePlayer dt s))) <= List.length (bullets s) + 1)%nat.
Proof.
  destruct (movePlayer_inputs dt s) as (Hb & _).
  unfold shoot. destruct (player (movePlayer dt s)) as [p1|]; [|rewrite Hb; lia].
  destruct (isFiring _ && _); cbn [bullets set_player set_bullets]; rewrite Hb; [|lia].
  rewrite length_app. cbn [List.length]. lia.
Qed.

Lemma length_bullets_beforeCollisions dt (s : State num) :
  (List.length (bullets (beforeCollisions random dt s)) <= List.length (bullets s) + 1)%nat.
Proof.
  rewrite bullets_beforeCollisions.
  etransitivity; [apply filter_length_le|]. rewrite length_map.
  apply length_bullets_shoot.
Qed.

(** The outcome of a step for the React state and the player: no hit, a hit
    with a reposition, or a hit that ends the game. *)
Lemma update_outcome dt (s : State num) p :
  player s = Some p ->
  let s' := update random dt s in
  (paused s' = paused s /\ seen_score s' = seen_score s /\ seen_lives s' = seen_lives s
   /\ keys s' = keys s /\ aim s' = aim s /\ firing s' = firing s
   /\ lastTime s' = lastTime s)
  /\ (exists k, score s' = (score s + 100 * Z.of_nat k)%Z
               /\ (k <= List.length (bullets s) + 1)%nat)
  /\ exists p',
      player s' = Some p' /\ radius p' = radius p /\ speed p' = speed p
      /\ ((running s' = running s /\ gameOver s' = gameOver s /\ lives s' = lives s
           /\ alive p' = alive p)
          \/ (alive p = true /\ (seen_lives s - 1 <=? 0)%Z = false
              /\ running s' = running s /\ gameOver s' = gameOver s
              /\ lives s' = (lives s - 1)%Z /\ alive p' = true /\ pos p' = startPos)
          \/ (alive p = true /\ (seen_lives s - 1 <=? 0)%Z = true
              /\ running s' = false /\ gameOver s' = true
              /\ lives s' = (lives s - 1)%Z /\ alive p' = false)).
Proof.
  intros Hp. cbn zeta. rewrite (update_with_player random dt s Hp).
  set (s0 := set_time (add (time s) dt) s).
  assert (player s0 = Some p) as Hp0 by exact Hp.
  destruct (player_movePlayer dt s0 Hp0) as (p1 & Hp1 & Hc1 & Hs1 & Ha1 & Hr1).
  pose proof (player_shoot dt (movePlayer dt s0) Hp1) as Hp2. cbn zeta in Hp2.
  set (p2 := if isFiring (movePlayer dt s0) && leb (sub (cooldown p1) dt) (lit 0)
             then set_cooldown (lit 0.08) (set_cooldown (sub (cooldown p1) dt) p1)
             else set_cooldown (sub (cooldown p1) dt) p1) in Hp2.
  assert (radius p2 = radius p /\ speed p2 = speed p /\ alive p2 = alive p)
    as (Hr2 & Hs2 & Ha2).
  { subst p2. destruct (isFiring _ && _); cbn; auto. }
  pose proof (length_bullets_beforeCollisions dt s0) as HL.
  change (bullets s0) with (bullets s) in HL.
  pose proof (player_beforeCollisions random dt s0) as HP. rewrite Hp2 in HP.
  assert (sameRender s0 (beforeCollisions random dt s0)) as HR
      by apply sameRender_beforeCollisions.
  set (sb := beforeCollisions random dt s0) in *.
  assert (running sb = running s /\ paused sb = paused s /\ gameOver sb = gameOver s
          /\ score sb = score s /\ lives sb = lives s
          /\ seen_score sb = seen_score s /\ seen_lives sb = seen_lives s
          /\ keys sb = keys s /\ aim sb = aim s /\ firing sb = firing s
          /\ lastTime sb = lastTime s /\ particles sb = particles s
          /\ time sb = add (time s) dt)
    as (R1 & R2 & R3 & R4 & R5 & R6 & R7 & R8 & R9 & R10 & R11 & R12 & R13) by exact HR.
  clear HR.
  destruct (collideBullets_form sb) as (bs & es & k & ps & r & -> & _ & _ & Hk).
  set (s1 := set_enemies es (set_bullets bs (effects k ps r sb))).
  assert (player s1 = Some p2) as HP1 by exact HP.
  destruct (collidePlayer_cases s1) as [-> | (q & es' & Hq & Hqa & _ & _ & ->)].
  - unfold updateParticles, s1, effects. eval_fields.
    split; [repeat split; assumption|].
    split; [exists k; split; [congruence | exact (Nat.le_trans _ _ _ Hk HL)]|].
    exists p2. split; [exact HP|]. split; [exact Hr2|]. split; [exact Hs2|].
    left. auto.
  - rewrite HP1 in Hq. injection Hq as <-.
    assert (seen_lives s1 = seen_lives s) as HSL by exact R7.
    assert (lives s1 = lives s) as HLV by exact R5.
    destruct (hitPlayer_spec random p2 s1) as (ps' & r' & ->). cbn zeta.
    rewrite HSL.
    destruct (seen_lives s - 1 <=? 0)%Z eqn:Hlast;
      unfold updateParticles, s1, effects; eval_fields;
      eval_fields_in R4; eval_fields_in R5.
    + split; [repeat split; assumption|].
      split; [exists k; split; [rewrite R4; lia | exact (Nat.le_trans _ _ _ Hk HL)]|].
      eexists. split; [reflexivity|]. split; [exact Hr2|]. split; [exact Hs2|].
      right; right. rewrite <- Ha2. repeat split; auto. congruence.
    + split; [repeat split; assumption|].
      split; [exists k; split; [rewrite R4; lia | exact (Nat.le_trans _ _ _ Hk HL)]|].
      eexists. split; [reflexivity|]. split; [exact Hr2|]. split; [exact Hs2|].
      right; left. rewrite <- Ha2. repeat split; auto. congruence.
Qed.

(** *** The collections through a step *)

Lemma enemies_spawnEnemies dt (s : State num) :
  exists n i,
    enemies (spawnEnemies random dt s) = enemies s ++ wave random (seen_score s) n i.
Proof.
  unfold spawnEnemies. cbn [spawnTimer set_spawnTimer].
  destruct (leb _ _).
  - rewrite spawnWave_exact. cbn zeta. eexists. eexists. reflexivity.
  - exists 0%nat, 0%nat. unfold wave. cbn [seq map]. rewrite app_nil_r. reflexivity.
Qed.

Lemma moveEnemy_attrs dt tg sc (e : Enemy num) :
  radius (moveEnemy dt tg sc e) = radius e /\ vel (moveEnemy dt tg sc e) = vel e
  /\ alive (moveEnemy dt tg sc e) = alive e /\ hp (moveEnemy dt tg sc e) = hp e
  /\ pattern (moveEnemy dt tg sc e) = pattern e /\ t (moveEnemy dt tg sc e) = add (t e) dt.
Proof. destruct tg; repeat split. Qed.

Lemma moveBullet_attrs dt (b : Bullet num) :
  radius (moveBullet dt b) = radius b /\ vel (moveBullet dt b) = vel b
  /\ fromPlayer (moveBullet dt b) = fromPlayer b.
Proof. unfold moveBullet. cbv zeta. destruct (outOfField _); repeat split. Qed.

Lemma enemyOK_newEnemy sc i : enemyOK (newEnemy random sc i).
Proof. split; reflexivity. Qed.

Lemma enemyOK_update dt (s : State num) :
  Forall enemyOK (enemies s) -> Forall enemyOK (enemies (update random dt s)).
Proof.
  intros H. destruct (player s) as [p|] eqn:Hp;
    [|rewrite (update_no_player random dt s Hp); exact H].
  rewrite (update_with_player random dt s Hp).
  set (s0 := set_time (add (time s) dt) s).
  destruct (collisions_frame random dt (beforeCollisions random dt s0))
    as (_ & _ & _ & _ & _ & _ & _ & _ & _ & _ & He & _).
  apply Forall_forall. intros e' Hin.
  destruct (Forall2_In_r _ He Hin) as (e1 & Hin1 & Hb & Hr & _).
  rewrite (enemies_beforeCollisions random dt s0) in Hin1.
  apply filter_In in Hin1. destruct Hin1 as [Hin1 _].
  apply in_map_iff in Hin1. destruct Hin1 as (e & <- & Hine).
  destruct (moveEnemy_attrs dt (player (shoot dt (movePlayer dt s0))) (seen_score s0) e)
    as (Er & Ev & _).
  assert (enemyOK e) as [Hre Hve].
  { destruct (enemies_spawnEnemies dt (updateBullets dt (shoot dt (movePlayer dt s0))))
      as (n & i & E).
    rewrite E in Hine. apply in_app_or in Hine. destruct Hine as [Hine|Hine].
    - destruct (early_blocks_frame dt s0) as (E0 & _). rewrite E0 in Hine.
      exact (proj1 (Forall_forall _ _) H e Hine).
    - unfold wave in Hine. apply in_map_iff in Hine. destruct Hine as (j & <- & _).
      apply enemyOK_newEnemy. }
  split.
  - rewrite Hr, Er. exact Hre.
  - etransitivity; [exact (f_equal (fun b : Body num => vel b) Hb)|].
    etransitivity; [exact Ev | exact Hve].
Qed.

Lemma bulletOK_update dt (s : State num) :
  Forall bulletOK (bullets s) -> Forall bulletOK (bullets (update random dt s)).
Proof.
  intros H. destruct (player s) as [p|] eqn:Hp;
    [|rewrite (update_no_player random dt s Hp); exact H].
  rewrite (update_with_player random dt s Hp).
  set (s0 := set_time (add (time s) dt) s).
  destruct (collisions_frame random dt (beforeCollisions random dt s0))
    as (_ & _ & _ & _ & _ & _ & _ & _ & _ & Hb & _).
  apply Forall_forall. intros b' Hin.
  destruct (Forall2_In_r _ Hb Hin) as (b1 & Hin1 & Hsame).
  rewrite bullets_beforeCollisions in Hin1.
  apply filter_In in Hin1. destruct Hin1 as [Hin1 _].
  apply in_map_iff in Hin1. destruct Hin1 as (b & <- & Hinb).
  destruct (moveBullet_attrs dt b) as (Er & _ & Ef).
  assert (bulletOK b) as [Hf Hr].
  { apply bullets_shoot in Hinb. destruct Hinb as [Hinb|(pl & ->)].
    - exact (proj1 (Forall_forall _ _) H b Hinb).
    - split; reflexivity. }
  destruct Hsame as [->| ->]; (split; [cbn [fromPlayer bullet_with]; congruence|]).
  - congruence.
  - cbn. congruence.
Qed.

(** *** Every state of a session *)

Lemma steady_update dt (s : State num) :
  steady s -> running s = true -> steady (update random dt s).
Proof.
  intros [(Hpl & Hbs & Hes & (k & Hk) & Hl3 & Hover) [(k1 & j1 & Hk1 & Hj1) Hseen]] Hrun.
  pose proof (@bulletOK_update dt s Hbs) as Hbs'.
  pose proof (@enemyOK_update dt s Hes) as Hes'.
  destruct (player s) as [p|] eqn:Hp; [|destruct Hpl; congruence].
  destruct Hpl as (Ha & Hr & Hrad & Hsp).
  destruct (update_outcome dt s Hp)
    as ((_ & Hss & Hsl & _) & (k' & Hk' & _) & p' & Hp' & Hrad' & Hsp' & Hcases).
  cbn zeta in *.
  set (s' := update random dt s) in *.
  assert (gameOver s = false) as Hg by (rewrite Hrun in Hr; destruct (gameOver s); auto; discriminate).
  split.
  - unfold loose. rewrite Hp'.
    split.
    { destruct Hcases as [(R1 & R2 & R3 & R4) | [(_ & _ & R1 & R2 & R3 & R4 & _)
                                               | (_ & _ & R1 & R2 & R3 & R4)]].
      - rewrite R1, R2, R4. repeat split; congruence.
      - rewrite R1, R2, R4, Hg, Hrun. repeat split; congruence.
      - rewrite R1, R2, R4. repeat split; congruence. }
    split; [exact Hbs'|]. split; [exact Hes'|].
    split; [exists (k + k')%nat; lia|].
    destruct Hcases as [(R1 & R2 & R3 & R4) | [(_ & _ & R1 & R2 & R3 & R4 & _)
                                              | (_ & Hlast & R1 & R2 & R3 & R4)]].
    + rewrite R2, R3. auto.
    + rewrite R2, R3. split; [lia|]. intros Hc. specialize (Hover Hc). lia.
    + rewrite R3. apply Z.leb_le in Hlast. split; [lia|]. intros _. lia.
  - unfold seenOK. rewrite Hss, Hsl. split.
    + exists k1, (j1 + k')%nat. split; [exact Hk1 | lia].
    + destruct Hcases as [(_ & _ & R3 & _) | [(_ & _ & _ & _ & R3 & _)
                                             | (_ & _ & _ & _ & R3 & _)]];
        rewrite R3; lia.
Qed.

Lemma sameFlags_true (a b : State num) :
  sameFlags a b = true
  <-> running a = running b /\ paused a = paused b /\ gameOver a = gameOver b.
Proof.
  unfold sameFlags. rewrite !andb_true_iff, !eqb_true_iff. tauto.
Qed.

Lemma steady_commit (before after : State num) :
  loose after -> (sameFlags before after = true -> seenOK after) ->
  steady (commit random before after).
Proof.
  intros Hl Hs. unfold commit.
  set (s1 := if sameFlags before after then after
             else set_seen (score after) (lives after) after).
  assert (steady s1) as H1.
  { subst s1. destruct (sameFlags before after); [split; auto|].
    split; [exact Hl|].
    destruct Hl as (_ & _ & _ & (k & Hk) & Hl3 & _).
    unfold seenOK. eval_fields. eval_fields_in Hl3.
    split; [exists k, 0%nat; split; [exact Hk | lia] | lia]. }
  destruct (negb (gameOver before) && gameOver s1); [|exact H1].
  destruct (player s1) as [p|]; [|exact H1].
  rewrite emitExplosion_exact. exact H1.
Qed.

Lemma steady_step ev (s : State num) : steady s -> steady (step random ev s).
Proof.
  intros Hst. unfold step. destruct ev as [now|key code|key code|cx cy|cx cy| | |];
    cbn [handle].
  - unfold loop. destruct (negb (running s) || paused s || gameOver s) eqn:Hgate.
    + apply steady_commit; intros; apply Hst.
    + apply orb_false_iff in Hgate. destruct Hgate as [Hgate _].
      apply orb_false_iff in Hgate. destruct Hgate as [Hrun _].
      apply negb_false_iff in Hrun.
      assert (steady (update random
                (Math_min (lit 0.033)
                   (div (sub now match lastTime s with Some l => l | None => now end)
                        (lit 1000)))
                (set_lastTime (Some now) s))) as [H1 H2]
          by (apply steady_update; [exact Hst | exact Hrun]).
      apply steady_commit; auto.
  - destruct (String.eqb key "p" || String.eqb key "P");
      apply steady_commit; intros; apply Hst.
  - apply steady_commit; intros; apply Hst.
  - apply steady_commit; intros; apply Hst.
  - apply steady_commit; intros; apply Hst.
  - apply steady_commit; intros; apply Hst.
  - destruct (negb (running s) && negb (gameOver s) || gameOver s) eqn:Hc;
      [|apply steady_commit; intros; apply Hst].
    apply steady_commit.
    + unfold loose, initGame. eval_fields.
      split; [repeat split|]. split; [constructor|]. split; [constructor|].
      split; [exists 0%nat; reflexivity|]. split; [lia | discriminate].
    + intros Hsame. apply sameFlags_true in Hsame.
      destruct Hsame as (Hr & _ & Hg).
      unfold initGame in Hr, Hg. eval_fields_in Hr. eval_fields_in Hg.
      eval_fields_in Hc. rewrite Hr, Hg in Hc. discriminate.
  - destruct (paused s && negb (gameOver s));
      apply steady_commit; intros; apply Hst.
Qed.

Lemma steady_run evs : steady (run random evs mount).
Proof. apply run_invariant; [apply steady_step | apply steady_mount]. Qed.

(** X1.  Whatever the events and the random numbers, the component is on the
    start screen (no player, not running, not over), in play (a living
    player, running, not over) or over (the player not alive, not running,
    [gameOver] set, no life left). *)
Theorem session_phases evs :
  let s := run random evs mount in
  (player s = None /\ running s = false /\ gameOver s = false)
  \/ (exists p, player s = Some p /\ alive p = true
               /\ running s = true /\ gameOver s = false)
  \/ (exists p, player s = Some p /\ alive p = false
               /\ running s = false /\ gameOver s = true /\ (lives s <= 0)%Z).
Proof.
  cbn zeta. destruct (steady_run evs) as [(Hpl & _ & _ & _ & _ & Hover) _].
  destruct (player (run random evs mount)) as [p|]; [|left; tauto].
  destruct Hpl as (Ha & Hr & _). right.
  destruct (gameOver (run random evs mount)); [right | left]; exists p.
  - repeat split; auto.
  - repeat split; auto.
Qed.

(** X2.  In every state of a session the player has radius 12 and speed 180,
    every bullet is the player's and has radius 2, every enemy has radius
    14 and velocity (0, 0): an enemy is never moved by its own velocity. *)
Theorem session_constants evs :
  let s := run random evs mount in
  (forall p, player s = Some p -> radius p = lit 12 /\ speed p = lit 180)
  /\ (forall b, In b (bullets s) -> fromPlayer b = true /\ radius b = lit 2)
  /\ (forall e, In e (enemies s) ->
        radius e = lit 14 /\ vel e = mkVec2 (lit 0) (lit 0)).
Proof.
  cbn zeta. destruct (steady_run evs) as [(Hpl & Hbs & Hes & _) _].
  split; [|split].
  - intros p Hp. rewrite Hp in Hpl. tauto.
  - intros b Hin. exact (proj1 (Forall_forall _ _) Hbs b Hin).
  - intros e Hin. exact (proj1 (Forall_forall _ _) Hes e Hin).
Qed.

(** X3.  In every state of a session the score is a non-negative multiple of
    100 and there are at most 3 lives; the score that the game loop has
    captured is a multiple of 100 not above the score, and the lives it has
    captured are not below the lives. *)
Theorem session_score_and_lives evs :
  let s := run random evs mount in
  (exists k : nat, score s = (100 * Z.of_nat k)%Z)
  /\ (exists k : nat, seen_score s = (100 * Z.of_nat k)%Z)
  /\ (seen_score s <= score s)%Z
  /\ (lives s <= seen_lives s <= 3)%Z.
Proof.
  cbn zeta.
  destruct (steady_run evs) as [(_ & _ & _ & Hk & _) [(k & j & Hk1 & Hj1) Hl]].
  split; [exact Hk|]. split; [exists k; exact Hk1|]. split; [lia | exact Hl].
Qed.

(** *** One step *)

(** X5.  A step takes at most one life, and only from a living player; it
    adds to the score 100 times a number that is at most the number of
    bullets in the collection, plus one for the shot it may fire; it ends
    the game only when it takes a life and the captured lives are at most
    1. *)
Theorem step_takes_one_life_at_most dt (s : State num) p :
  player s = Some p ->
  let s' := update random dt s in
  (lives s' = lives s \/ (lives s' = (lives s - 1)%Z /\ alive p = true))
  /\ (exists k, score s' = (score s + 100 * Z.of_nat k)%Z
               /\ (k <= List.length (bullets s) + 1)%nat)
  /\ (gameOver s' = gameOver s
      \/ (gameOver s' = true /\ running s' = false
          /\ lives s' = (lives s - 1)%Z /\ (seen_lives s <= 1)%Z)).
Proof.
  intros Hp. cbn zeta.
  destruct (update_outcome dt s Hp) as (_ & Hk & p' & _ & _ & _ & Hcases).
  cbn zeta in Hcases, Hk.
  destruct Hcases as [(R1 & R2 & R3 & R4) | [(Ha & _ & R1 & R2 & R3 & R4 & _)
                                            | (Ha & Hlast & R1 & R2 & R3 & R4)]].
  - split; [left; exact R3|]. split; [exact Hk | left; exact R2].
  - split; [right; split; assumption|]. split; [exact Hk | left; exact R2].
  - split; [right; split; assumption|]. split; [exact Hk|].
    right. apply Z.leb_le in Hlast. repeat split; auto. lia.
Qed.

(** *** Frames that do not step *)

Lemma commit_same (s s' : State num) :
  running s' = running s -> paused s' = paused s -> gameOver s' = gameOver s ->
  commit random s s' = s'.
Proof.
  intros Hr Hp Hg. unfold commit.
  assert (sameFlags s s' = true) as -> by (apply sameFlags_true; auto).
  rewrite Hg. destruct (gameOver s); reflexivity.
Qed.

Lemma commit_changed (s s' : State num) :
  sameFlags s s' = false -> gameOver s' = gameOver s ->
  commit random s s' = set_seen (score s') (lives s') s'.
Proof.
  intros Hf Hg. unfold commit. rewrite Hf. cbn [gameOver set_seen]. rewrite Hg.
  destruct (gameOver s); reflexivity.
Qed.

(** X6.  While the component is not running, is paused or is over, frames do
    nothing but record their time stamp: after any number of them the state
    is the one before, with the last time stamp. *)
Theorem halted_frames_only_record_time ts now (s : State num) :
  running s = false \/ paused s = true \/ gameOver s = true ->
  run random (map (fun t => Frame t) (ts ++ [now])) s = set_lastTime (Some now) s.
Proof.
  intros Hhalt.
  assert (forall t (s0 : State num),
             negb (running s0) || paused s0 || gameOver s0 = true ->
             step random (Frame t) s0 = set_lastTime (Some t) s0) as Hone.
  { intros t s0 Hg. unfold step. cbn [handle]. unfold loop. rewrite Hg.
    apply commit_same; reflexivity. }
  assert (negb (running s) || paused s || gameOver s = true) as Hg.
  { destruct (running s), (paused s), (gameOver s); try reflexivity;
      destruct Hhalt as [H|[H|H]]; discriminate. }
  clear Hhalt. revert s Hg. induction ts as [|t ts IH]; intros s Hg.
  - cbn. apply Hone. exact Hg.
  - cbn [app map]. unfold run. cbn [fold_left]. fold (run random).
    rewrite (Hone t s Hg).
    change (run random (map (fun t0 => Frame t0) (ts ++ [now])) (set_lastTime (Some t) s)
            = set_lastTime (Some now) (set_lastTime (Some t) s)).
    apply IH. exact Hg.
Qed.

(** *** The pause key *)

(** X7.  The key P toggles [paused] and makes the game loop capture the score
    and the lives of that moment, and changes nothing else of the game; a
    hit after it leaves [gameOver] set exactly when at most one life was
    left or the game was over already; pressing the key twice gives the
    flag that was there. *)
Theorem pause_key_renews_capture (shift : bool) code (s : State num) p :
  let key := if shift then "P"%string else "p"%string in
  let s1 := step random (KeyDown key code) s in
  paused s1 = negb (paused s)
  /\ (seen_score s1 = score s /\ seen_lives s1 = lives s)
  /\ (score s1 = score s /\ lives s1 = lives s /\ player s1 = player s
      /\ bullets s1 = bullets s /\ enemies s1 = enemies s
      /\ running s1 = running s /\ gameOver s1 = gameOver s)
  /\ (gameOver (hitPlayer random p s1) = true <-> (lives s <= 1)%Z \/ gameOver s = true)
  /\ paused (step random (KeyDown key code) s1) = paused s.
Proof.
  cbn zeta.
  assert (forall s0 : State num,
             step random (KeyDown (if shift then "P" else "p") code) s0
             = set_seen (score s0) (lives s0)
                 (set_paused (negb (paused s0))
                    (set_keys (assign (toLowerCase code) true
                                 (assign (toLowerCase (if shift then "P" else "p")) true
                                         (keys s0))) s0))) as E.
  { intros s0. unfold step. cbn [handle].
    assert (String.eqb (if shift then "P" else "p") "p"
            || String.eqb (if shift then "P" else "p") "P" = true) as ->
        by (destruct shift; reflexivity).
    etransitivity; [apply commit_changed; [|reflexivity] | reflexivity].
    destruct s0. unfold sameFlags. eval_fields.
    repeat match goal with b : bool |- _ => destruct b end; reflexivity. }
  rewrite !E. clear E.
  match goal with |- context [hitPlayer random p ?st] =>
    destruct (hitPlayer_spec random p st) as (ps & r & ->) end.
  destruct s as [rn pz g sc lv ks pl bs es pts tm lt st am fr ssc slv rg].
  unfold effects. eval_fields.
  split; [reflexivity|]. split; [split; reflexivity|].
  split; [repeat split|]. split; [|apply negb_involutive].
  destruct (lv - 1 <=? 0)%Z eqn:Hl; eval_fields.
  - apply Z.leb_le in Hl. split; [intros _; left; lia | reflexivity].
  - apply Z.leb_gt in Hl.
    split; [intros ->; now right | intros [H|H]; [lia | exact H]].
Qed.

(** *** The keyboard *)

Lemma keys_commit (s s' : State num) : keys (commit random s s') = keys s'.
Proof.
  unfold commit.
  set (s1 := if sameFlags s s' then s' else set_seen (score s') (lives s') s').
  assert (keys s1 = keys s') as E by (subst s1; destruct (sameFlags s s'); reflexivity).
  destruct (negb (gameOver s) && gameOver s1); [|exact E].
  destruct (player s1); [|exact E].
  rewrite emitExplosion_exact. exact E.
Qed.

Lemma assign_same k v (m : string -> bool) : assign k v m k = v.
Proof. unfold assign. rewrite String.eqb_refl. reflexivity. Qed.

Lemma assign_other k v (m : string -> bool) k' : k' <> k -> assign k v m k' = m k'.
Proof.
  intros Hne. unfold assign. destruct (String.eqb k' k) eqn:E; [|reflexivity].
  apply String.eqb_eq in E. contradiction.
Qed.

Lemma keys_KeyDown key code (s : State num) :
  keys (step random (KeyDown key code) s)
  = assign (toLowerCase code) true (assign (toLowerCase key) true (keys s)).
Proof.
  unfold step. rewrite keys_commit. cbn [handle].
  destruct (String.eqb key "p" || String.eqb key "P"); reflexivity.
Qed.

Lemma keys_KeyUp key code (s : State num) :
  keys (step random (KeyUp key code) s)
  = assign (toLowerCase code) false (assign (toLowerCase key) false (keys s)).
Proof. unfold step. rewrite keys_commit. reflexivity. Qed.

Lemma lowerChar_ascii (c : ascii) :
  Nat.ltb (nat_of_ascii c) 128 = true ->
  Nat.ltb (nat_of_ascii (lowerChar c)) 128 = true
  /\ lowerChar (lowerChar c) = lowerChar c.
Proof.
  destruct c as [[|] [|] [|] [|] [|] [|] [|] [|]];
    intros H; try discriminate H; split; reflexivity.
Qed.

(** The lower-case form of an ASCII name is an ASCII name, and it is its
    own lower-case form. *)
Lemma toLowerCase_ascii (k : string) :
  isASCII k = true ->
  isASCII (toLowerCase k) = true /\ toLowerCase (toLowerCase k) = toLowerCase k.
Proof.
  induction k as [|c k IH]; cbn [isASCII toLowerCase]; [split; reflexivity|].
  intros H. apply andb_true_iff in H. destruct H as [Hc Hk].
  destruct (lowerChar_ascii c Hc) as [H1 H2]. destruct (IH Hk) as [H3 H4].
  rewrite H1, H3, H2, H4. split; reflexivity.
Qed.

(** X8.  For a key whose [key] and [code] are names of ASCII characters: when
    it goes down it is held under the lower-case forms of the two names,
    which are ASCII names that lower to themselves; when it goes up,
    possibly with another case of the same names, both entries are
    cleared; no other entry changes. *)
Theorem key_release_undoes_press key code key' code' (s : State num) :
  isASCII key = true -> isASCII code = true ->
  isASCII key' = true -> isASCII code' = true ->
  toLowerCase key' = toLowerCase key ->
  toLowerCase code' = toLowerCase code ->
  let s1 := step random (KeyDown key code) s in
  let s2 := step random (KeyUp key' code') s1 in
  (keys s1 (toLowerCase key) = true /\ keys s1 (toLowerCase code) = true)
  /\ (keys s2 (toLowerCase key) = false /\ keys s2 (toLowerCase code) = false)
  /\ (forall k, k <> toLowerCase key -> k <> toLowerCase code ->
        keys s1 k = keys s k /\ keys s2 k = keys s k)
  /\ (isASCII (toLowerCase key) = true /\ isASCII (toLowerCase code) = true
      /\ toLowerCase (toLowerCase key) = toLowerCase key
      /\ toLowerCase (toLowerCase code) = toLowerCase code).
Proof.
  intros Ak Ac _ _ Ek Ec. cbn zeta. rewrite keys_KeyUp, keys_KeyDown, Ek, Ec.
  split; [|split; [|split]].
  - split; [|apply assign_same].
    unfold assign. destruct (String.eqb (toLowerCase key) (toLowerCase code)); [reflexivity|].
    rewrite String.eqb_refl. reflexivity.
  - split; [|apply assign_same].
    unfold assign. destruct (String.eqb (toLowerCase key) (toLowerCase code)); [reflexivity|].
    rewrite String.eqb_refl. reflexivity.
  - intros k H1 H2. rewrite !assign_other by assumption. split; reflexivity.
  - destruct (toLowerCase_ascii key Ak) as [H1 H2].
    destruct (toLowerCase_ascii code Ac) as [H3 H4]. auto.
Qed.

(** *** Start and the clock *)

Lemma commit_settled (s s' : State num) :
  sameFlags s s' = false -> gameOver s' = false ->
  commit random s s' = set_seen (score s') (lives s') s'.
Proof.
  intros Hf Hg. unfold commit. rewrite Hf. cbn [gameOver set_seen]. rewrite Hg.
  rewrite andb_false_r. reflexivity.
Qed.

(** [Start Game] and [Play Again]: the state that the click leaves. *)
Lemma step_ClickStart (s : State num) :
  running s = false \/ gameOver s = true ->
  step random ClickStart s = set_seen 0 3 (initGame s).
Proof.
  intros Hc. unfold step. cbn [handle].
  assert (negb (running s) && negb (gameOver s) || gameOver s = true) as ->.
  { destruct (running s), (gameOver s); try reflexivity; destruct Hc; discriminate. }
  etransitivity; [apply commit_settled; [|reflexivity] | reflexivity].
  unfold sameFlags, initGame. eval_fields.
  destruct s as [rn pz g ? ? ? ? ? ? ? ? ? ? ? ? ? ? ?]. eval_fields.
  cbn in Hc. destruct rn, g, pz; try reflexivity; destruct Hc; discriminate.
Qed.

Lemma time_commit (s s' : State num) : time (commit random s s') = time s'.
Proof.
  unfold commit.
  set (s1 := if sameFlags s s' then s' else set_seen (score s') (lives s') s').
  assert (time s1 = time s') as E by (subst s1; destruct (sameFlags s s'); reflexivity).
  destruct (negb (gameOver s) && gameOver s1); [|exact E].
  destruct (player s1); [|exact E].
  rewrite emitExplosion_exact. exact E.
Qed.

(** The clock over one event. *)
Lemma time_step ev (s : State num) :
  time (step random ev s) = time s
  \/ exists now,
      ev = Frame now
      /\ time (step random ev s)
         = add (time s)
             (Math_min (lit 0.033)
                (div (sub now match lastTime s with Some l => l | None => now end)
                     (lit 1000))).
Proof.
  unfold step. rewrite time_commit.
  destruct ev as [now|key code|key code|cx cy|cx cy| | |]; cbn [handle];
    try (left; reflexivity).
  - unfold loop. destruct (negb (running s) || paused s || gameOver s); [left; reflexivity|].
    right. exists now. split; [reflexivity|].
    exact (time_update random _ (set_lastTime (Some now) s)).
  - left. destruct (String.eqb key "p" || String.eqb key "P"); reflexivity.
  - left. destruct (negb (running s) && negb (gameOver s) || gameOver s); reflexivity.
  - left. destruct (paused s && negb (gameOver s)); reflexivity.
Qed.

End Sessions.

(** *** The end of the game *)

Section Endings.
Context {num : Type} {N : Number num}.
Variable random : nat -> num.

Lemma gameOver_commit (s s' : State num) : gameOver (commit random s s') = gameOver s'.
Proof.
  unfold commit.
  set (s1 := if sameFlags s s' then s' else set_seen (score s') (lives s') s').
  assert (gameOver s1 = gameOver s') as E by (subst s1; destruct (sameFlags s s'); reflexivity).
  destruct (negb (gameOver s) && gameOver s1); [|exact E].
  destruct (player s1); [|exact E].
  rewrite emitExplosion_exact. exact E.
Qed.

(** The render in which [gameOver] has become true. *)
Lemma commit_over (s s' : State num) p :
  gameOver s = false -> gameOver s' = true -> player s' = Some p ->
  commit random s s'
  = emitExplosion random (x (pos p)) (y (pos p)) "hsl(var(--destructive))"
      (set_seen (score s') (lives s') s').
Proof.
  intros Hg Hg' Hp. unfold commit.
  assert (sameFlags s s' = false) as ->.
  { unfold sameFlags. rewrite Hg, Hg'. cbn. apply andb_false_r. }
  cbn [gameOver set_seen player]. rewrite Hg, Hg', Hp. reflexivity.
Qed.

(** X23.  Only a frame ends the game; the step that ends it leaves the player
    not alive and the component not running, and the render after it adds
    a last burst of 16 particles at the place of the player, which no
    update has moved or aged yet. *)
Theorem game_ends_with_a_burst ev (s : State num) :
  gameOver s = false ->
  gameOver (step random ev s) = true ->
  exists now p rest r,
    ev = Frame now
    /\ player (step random ev s) = Some p /\ alive p = false
    /\ running (step random ev s) = false
    /\ particles (step random ev s)
       = rest ++ burst random (x (pos p)) (y (pos p)) "hsl(var(--destructive))" r.
Proof.
  intros Hg Hover. unfold step in *. rewrite gameOver_commit in Hover.
  destruct ev as [now|key code|key code|cx cy|cx cy| | |]; cbn [handle] in *.
  - unfold loop in *.
    destruct (negb (running s) || paused s || gameOver s); [cbn in Hover; congruence|].
    set (dt := Math_min (lit 0.033)
                 (div (sub now match lastTime s with Some l => l | None => now end)
                      (lit 1000))) in *.
    set (s0 := set_lastTime (Some now) s) in *.
    destruct (player s0) as [p0|] eqn:Hp0;
      [|rewrite (update_no_player random dt s0 Hp0) in Hover; cbn in Hover; congruence].
    destruct (update_outcome random dt s0 Hp0) as (_ & _ & p' & Hp' & _ & _ & Hcases).
    cbn zeta in Hp', Hcases.
    assert (alive p' = false /\ running (update random dt s0) = false) as [Ha Hr].
    { destruct Hcases as [(_ & R2 & _) | [(_ & _ & _ & R2 & _) | (_ & _ & R1 & _ & _ & R4)]].
      - rewrite R2 in Hover. cbn in Hover. congruence.
      - rewrite R2 in Hover. cbn in Hover. congruence.
      - split; assumption. }
    rewrite (commit_over s (update random dt s0) Hg Hover Hp').
    rewrite emitExplosion_exact.
    exists now, p', (particles (update random dt s0)), (rng (update random dt s0)).
    repeat split; assumption.
  - destruct (String.eqb key "p" || String.eqb key "P"); cbn in Hover; congruence.
  - cbn in Hover. congruence.
  - cbn in Hover. congruence.
  - cbn in Hover. congruence.
  - cbn in Hover. congruence.
  - destruct (negb (running s) && negb (gameOver s) || gameOver s);
      cbn in Hover; congruence.
  - destruct (paused s && negb (gameOver s)); cbn in Hover; congruence.
Qed.

End Endings.

(** *** Where bullets and particles come from *)

Section Provenance.
Context {num : Type} {N : Number num}.
Variable random : nat -> num.

(** Where the velocity of a bullet comes from. *)
Lemma bullets_update_vel dt (s : State num) (b' : Bullet num) :
  In b' (bullets (update random dt s)) ->
  (exists b, In b (bullets s) /\ vel b' = vel b)
  \/ (exists pl, vel b' = vel (newBullet pl (aim s))).
Proof.
  destruct (player s) as [p|] eqn:Hp;
    [|rewrite (update_no_player random dt s Hp); intros Hin; left; exists b'; auto].
  rewrite (update_with_player random dt s Hp).
  set (s0 := set_time (add (time s) dt) s).
  destruct (collisions_frame random dt (beforeCollisions random dt s0))
    as (_ & _ & _ & _ & _ & _ & _ & _ & _ & Hb & _).
  intros Hin. destruct (Forall2_In_r _ Hb Hin) as (b1 & Hin1 & Hsame).
  rewrite bullets_beforeCollisions in Hin1.
  apply filter_In in Hin1. destruct Hin1 as [Hin1 _].
  apply in_map_iff in Hin1. destruct Hin1 as (b & <- & Hinb).
  destruct (moveBullet_attrs dt b) as (_ & Ev & _).
  assert (vel b' = vel b) as E.
  { destruct Hsame as [->| ->]; [exact Ev|]. etransitivity; [|exact Ev]. reflexivity. }
  apply bullets_shoot in Hinb. destruct Hinb as [Hinb|(pl & ->)].
  - left. exists b. auto.
  - right. exists pl. exact E.
Qed.

Lemma particles_commit (s s' : State num) :
  particles (commit random s s') = particles s'
  \/ exists px py r,
      particles (commit random s s')
      = particles s' ++ burst random px py "hsl(var(--destructive))" r.
Proof.
  unfold commit.
  set (s1 := if sameFlags s s' then s' else set_seen (score s') (lives s') s').
  assert (particles s1 = particles s') as E
      by (subst s1; destruct (sameFlags s s'); reflexivity).
  destruct (negb (gameOver s) && gameOver s1); [|left; exact E].
  destruct (player s1) as [p|]; [|left; exact E].
  right. exists (x (pos p)), (y (pos p)), (rng s1).
  rewrite particles_emitExplosion, E. reflexivity.
Qed.

Lemma bullets_commit_any (s s' : State num) : bullets (commit random s s') = bullets s'.
Proof.
  unfold commit.
  set (s1 := if sameFlags s s' then s' else set_seen (score s') (lives s') s').
  assert (bullets s1 = bullets s') as E by (subst s1; destruct (sameFlags s s'); reflexivity).
  destruct (negb (gameOver s) && gameOver s1); [|exact E].
  destruct (player s1) eqn:E1; [|congruence].
  rewrite emitExplosion_exact. exact E.
Qed.

(** The velocity of every bullet after an event is that of a bullet
    before it, or that of a bullet just fired. *)
Lemma bullets_step_vel ev (s : State num) (b' : Bullet num) :
  In b' (bullets (step random ev s)) ->
  (exists b, In b (bullets s) /\ vel b' = vel b)
  \/ (exists pl target, vel b' = vel (newBullet pl target)).
Proof.
  unfold step. rewrite bullets_commit_any.
  assert (In b' (bullets s) ->
          (exists b, In b (bullets s) /\ vel b' = vel b)
          \/ (exists pl target, vel b' = vel (newBullet pl target))) as Hsame
      by (intros Hin; left; exists b'; auto).
  destruct ev as [now|key code|key code|cx cy|cx cy| | |]; cbn [handle]; try exact Hsame.
  - unfold loop. destruct (negb (running s) || paused s || gameOver s); [exact Hsame|].
    intros Hin. apply bullets_update_vel in Hin.
    destruct Hin as [H | (pl & H)]; [left; exact H | right; eauto].
  - destruct (String.eqb key "p" || String.eqb key "P"); exact Hsame.
  - destruct (negb (running s) && negb (gameOver s) || gameOver s); [|exact Hsame].
    intros [].
  - destruct (paused s && negb (gameOver s)); exact Hsame.
Qed.

End Provenance.

(* ================================================================== *)
(** ** The bullet pass in a step *)

Section Pass.
Context {num : Type} {N : Number num}.
Variable random : nat -> num.

(** The bullets are taken in the order of their collection: the pass over
    [bs1 ++ bs2] is the pass over [bs1] followed by the pass over [bs2]
    on the enemies and the state that the first one left. *)
Lemma bulletPass_app bs1 bs2 es (s : State num) :
  bulletPass random (bs1 ++ bs2) es s
  = let '(b1, e1, s1) := bulletPass random bs1 es s in
    let '(b2, e2, s2) := bulletPass random bs2 e1 s1 in
    (b1 ++ b2, e2, s2).
Proof.
  revert es s. induction bs1 as [|b bs1 IH]; intros es s.
  - cbn [app bulletPass]. destruct (bulletPass random bs2 es s) as [[b2 e2] s2].
    reflexivity.
  - cbn [app bulletPass]. destruct (negb (fromPlayer b)).
    + rewrite IH. destruct (bulletPass random bs1 es s) as [[b1 e1] s1].
      destruct (bulletPass random bs2 e1 s1) as [[b2 e2] s2]. reflexivity.
    + destruct (scanEnemies random b es s) as [[es0 s0]|].
      * rewrite IH. destruct (bulletPass random bs1 es0 s0) as [[b1 e1] s1].
        destruct (bulletPass random bs2 e1 s1) as [[b2 e2] s2]. reflexivity.
      * rewrite IH. destruct (bulletPass random bs1 es s) as [[b1 e1] s1].
        destruct (bulletPass random bs2 e1 s1) as [[b2 e2] s2]. reflexivity.
Qed.

(** The inner loop damages the first enemy that the bullet overlaps, and
    that one only. *)
Lemma scanEnemies_first (b : Bullet num) pre (e : Enemy num) post (s : State num) :
  Forall (fun e0 : Enemy num => overlaps b e0 = false) pre ->
  overlaps b e = true ->
  scanEnemies random b (pre ++ e :: post) s
  = let (e', s') := damage random e s in Some (pre ++ e' :: post, s').
Proof.
  intros Hpre Ho. induction Hpre as [|a pre Ha _ IH]; cbn [app scanEnemies].
  - rewrite Ho. destruct (damage random e s). reflexivity.
  - rewrite Ha, IH. destruct (damage random e s). reflexivity.
Qed.

(** The turn of one player-fired bullet that overlaps an enemy, and of one
    that overlaps none. *)
Lemma bulletPass_hit bs1 (b : Bullet num) bs2 es (s : State num) bs1' pre (e : Enemy num)
      post sa e' sb bs2' es2 s2 :
  bulletPass random bs1 es s = (bs1', pre ++ e :: post, sa) ->
  fromPlayer b = true ->
  Forall (fun e0 : Enemy num => overlaps b e0 = false) pre ->
  overlaps b e = true ->
  damage random e sa = (e', sb) ->
  bulletPass random bs2 (pre ++ e' :: post) sb = (bs2', es2, s2) ->
  bulletPass random (bs1 ++ b :: bs2) es s
  = (bs1' ++ bullet_with (set_alive false) b :: bs2', es2, s2).
Proof.
  intros H1 Hfrom Hpre Ho Hd H2.
  rewrite bulletPass_app, H1. cbn [bulletPass]. rewrite Hfrom. cbn [negb].
  rewrite (@scanEnemies_first b pre e post sa Hpre Ho), Hd, H2. reflexivity.
Qed.

Lemma bulletPass_miss bs1 (b : Bullet num) bs2 es (s : State num) bs1' es1 sa bs2' es2 s2 :
  bulletPass random bs1 es s = (bs1', es1, sa) ->
  Forall (fun e0 : Enemy num => overlaps b e0 = false) es1 ->
  bulletPass random bs2 es1 sa = (bs2', es2, s2) ->
  bulletPass random (bs1 ++ b :: bs2) es s = (bs1' ++ b :: bs2', es2, s2).
Proof.
  intros H1 Hno H2.
  rewrite bulletPass_app, H1. cbn [bulletPass].
  destruct (negb (fromPlayer b)); [rewrite H2; reflexivity|].
  assert (scanEnemies random b es1 sa = None) as -> by (apply scanEnemies_None; exact Hno).
  rewrite H2. reflexivity.
Qed.

(** What the rest of a step does with the result of the bullet pass: the
    bullets and the score stay, and every enemy keeps its place. *)
Lemma after_bulletPass dt (s : State num) p bs es s2 :
  player s = Some p ->
  let s1 := beforeCollisions random dt (set_time (add (time s) dt) s) in
  bulletPass random (bullets s1) (enemies s1) s1 = (bs, es, s2) ->
  bullets (update random dt s) = bs
  /\ score (update random dt s) = score s2
  /\ Forall2 sameEnemy es (enemies (update random dt s)).
Proof.
  intros Hp. cbv zeta. intros Hpass.
  rewrite (update_with_player random dt s Hp).
  set (s1 := beforeCollisions random dt (set_time (add (time s) dt) s)) in *.
  assert (collideBullets random s1 = set_enemies es (set_bullets bs s2)) as ->
      by (unfold collideBullets; rewrite Hpass; reflexivity).
  set (X := set_enemies es (set_bullets bs s2)).
  destruct (collidePlayer_hit random X) as (Hb & Hsc & _).
  destruct (keeps_collidePlayer random X)
    as (_ & _ & _ & _ & _ & _ & _ & _ & _ & _ & He & _).
  unfold updateParticles. cbn [bullets score enemies set_particles].
  rewrite Hb, Hsc. repeat split. exact He.
Qed.

(** *** The cull *)

Lemma movePlayer_set_enemies dt es (s : State num) :
  movePlayer dt (set_enemies es s) = set_enemies es (movePlayer dt s).
Proof. unfold movePlayer. cbn [player set_enemies]. destruct (player s); reflexivity. Qed.

Lemma shoot_set_enemies dt es (s : State num) :
  shoot dt (set_enemies es s) = set_enemies es (shoot dt s).
Proof.
  unfold shoot, isFiring. cbn [player firing keys set_enemies].
  destruct (player s); [|reflexivity].
  destruct ((firing s || keys s " " || keys s "space") && _); reflexivity.
Qed.

Lemma updateBullets_set_enemies dt es (s : State num) :
  updateBullets dt (set_enemies es s) = set_enemies es (updateBullets dt s).
Proof. reflexivity. Qed.

Lemma spawnEnemies_set_enemies dt (s : State num) :
  exists w, forall es,
    spawnEnemies random dt (set_enemies es s)
    = set_enemies (es ++ w) (spawnEnemies random dt s).
Proof.
  unfold spawnEnemies. cbn [spawnTimer set_spawnTimer set_enemies].
  destruct (leb (sub (spawnTimer s) dt) (lit 0)).
  - eexists. intros es. rewrite !spawnWave_exact. cbv zeta. unfold waveCount.
    cbn [rng seen_score enemies set_spawnTimer set_enemies set_rng]. reflexivity.
  - exists []. intros es. rewrite app_nil_r. reflexivity.
Qed.

(** The enemies enter the blocks before the collision passes in one place
    only, the cull at the end of the enemy block. *)
Lemma beforeCollisions_set_enemies dt (s : State num) :
  exists w tg sc s',
    forall es,
      beforeCollisions random dt (set_enemies es s)
      = set_enemies (filter (fun e : Enemy num => alive e)
                            (map (moveEnemy dt tg sc) (es ++ w))) s'.
Proof.
  set (s1 := updateBullets dt (shoot dt (movePlayer dt s))).
  destruct (spawnEnemies_set_enemies dt s1) as (w & Hw).
  exists w, (player (spawnEnemies random dt s1)), (seen_score (spawnEnemies random dt s1)),
         (spawnEnemies random dt s1).
  intros es. unfold beforeCollisions.
  rewrite movePlayer_set_enemies, shoot_set_enemies, updateBullets_set_enemies.
  fold s1. rewrite Hw. reflexivity.
Qed.

(** An enemy that is not alive when a step begins has no part in it: the
    step is the step of the state without that enemy. *)
Lemma beforeCollisions_culls dt (s : State num) pre (e : Enemy num) post :
  enemies s = pre ++ e :: post ->
  alive e = false ->
  beforeCollisions random dt s = beforeCollisions random dt (set_enemies (pre ++ post) s).
Proof.
  intros He Ha.
  destruct (beforeCollisions_set_enemies dt s) as (w & tg & sc & s' & H).
  rewrite (H (pre ++ post)).
  assert (s = set_enemies (pre ++ e :: post) s) as Es by (rewrite <- He; reflexivity).
  rewrite Es at 1. rewrite (H (pre ++ e :: post)). f_equal.
  rewrite <- !app_assoc. cbn [app].
  rewrite !map_app, !filter_app. cbn [map filter].
  assert (alive (moveEnemy dt tg sc e) = alive e) as -> by (destruct tg; reflexivity).
  rewrite Ha, !map_app, !filter_app. reflexivity.
Qed.

Lemma update_culls dt (s : State num) p pre (e : Enemy num) post :
  player s = Some p ->
  enemies s = pre ++ e :: post ->
  alive e = false ->
  update random dt s = update random dt (set_enemies (pre ++ post) s).
Proof.
  intros Hp He Ha.
  rewrite (update_with_player random dt s Hp).
  rewrite (@update_with_player _ _ random dt (set_enemies (pre ++ post) s) p Hp).
  rewrite (@beforeCollisions_culls dt (set_time (add (time s) dt) s) pre e post He Ha).
  reflexivity.
Qed.

End Pass.

Section PassRational.
Context {host : Host}.
Variable random : nat -> Q.
Local Open Scope Q_scope.

(** C2.  In the bullet pass of a step, for a player-fired bullet [b] at any
    place of the bullet collection and the first enemy [e], in the order of
    the enemy collection as the bullets before [b] left it, that the
    enemies before it leave to the bullet: [b] entered the pass alive; it
    hits [e] exactly when the squared distance of the centers is at most
    the square of the sum of the radii, that is at every distance [d] up to
    and including the sum of the radii and at none beyond it.  On a hit the
    step leaves [b] in its place marked not alive, the pass goes on with
    the next bullet and with no other enemy touched, and [e] has lost one
    hit-point.  With one hit-point [e] is then not alive and 100 is scored
    for the hit; the step leaves it in its place, and the next step, which
    is the step of the state without it, removes it.  With two hit-points
    [e] stays as it was, with one hit-point left and nothing scored, and
    another hit kills it in the same way.  A bullet that overlaps no enemy
    is left as it is. *)
Theorem bullet_hit_rules dt (s : State Q) p (bs1 bs2 bs1' : list (Bullet Q)) (b : Bullet Q)
        (pre post : list (Enemy Q)) (e : Enemy Q) (sa : State Q) :
  player s = Some p ->
  let s1 := beforeCollisions random dt (set_time (add (time s) dt) s) in
  let u := update random dt s in
  bullets s1 = bs1 ++ b :: bs2 ->
  bulletPass random bs1 (enemies s1) s1 = (bs1', pre ++ e :: post, sa) ->
  fromPlayer b = true ->
  Forall (fun e0 : Enemy Q => overlaps b e0 = false) pre ->
  let r := radius b + radius e in
  let d2 := (x (pos b) - x (pos e)) * (x (pos b) - x (pos e))
            + (y (pos b) - y (pos e)) * (y (pos b) - y (pos e)) in
  alive b = true
  /\ (overlaps b e = true <-> d2 <= r * r)
  /\ (forall d, 0 <= d -> 0 <= r -> d * d == d2 -> (overlaps b e = true <-> d <= r))
  /\ (overlaps b e = true ->
      exists e' sb bs2' es2 s2,
        damage random e sa = (e', sb)
        /\ bulletPass random bs2 (pre ++ e' :: post) sb = (bs2', es2, s2)
        /\ bullets u = bs1' ++ bullet_with (set_alive false) b :: bs2'
        /\ score u = score s2
        /\ hp e' = (hp e - 1)%Z /\ entity_body e' = entity_body e
        /\ (hp e = 1%Z -> alive e' = false /\ score sb = (score sa + 100)%Z)
        /\ (hp e = 2%Z ->
            alive e' = alive e /\ hp e' = 1%Z /\ score sb = score sa
            /\ forall sx : State Q,
                 alive (fst (damage random e' sx)) = false
                 /\ score (snd (damage random e' sx)) = (score sx + 100)%Z)
        /\ exists pre' e'' post',
             enemies u = pre' ++ e'' :: post'
             /\ List.length pre' = List.length pre
             /\ entity_body e'' = entity_body e /\ (hp e'' <= hp e')%Z
             /\ (alive e' = false ->
                 alive e'' = false
                 /\ forall dt',
                      update random dt' u
                      = update random dt' (set_enemies (pre' ++ post') u)))
  /\ (overlaps b e = false ->
      Forall (fun e0 : Enemy Q => overlaps b e0 = false) post ->
      exists bs2' es2 s2,
        bulletPass random bs2 (pre ++ e :: post) sa = (bs2', es2, s2)
        /\ bullets u = bs1' ++ b :: bs2'
        /\ score u = score s2).
Proof.
  intros Hp. cbv zeta. intros Hbs Hpass1 Hfrom Hpre.
  set (s1 := beforeCollisions random dt (set_time (add (time s) dt) s)) in *.
  split.
  { assert (In b (bullets s1)) as Hin by (rewrite Hbs; apply in_elt).
    unfold s1 in Hin. rewrite bullets_beforeCollisions in Hin.
    apply filter_In in Hin. apply Hin. }
  split; [apply overlaps_iff|].
  split.
  { intros d Hd Hr Hdd. rewrite overlaps_iff, <- Hdd. apply square_le; assumption. }
  split.
  - intros Ho.
    destruct (damage random e sa) as [e' sb] eqn:Hd.
    destruct (bulletPass random bs2 (pre ++ e' :: post) sb) as [[bs2' es2] s2] eqn:Hpass2.
    exists e', sb, bs2', es2, s2.
    split; [reflexivity|]. split; [exact Hpass2|].
    pose proof (@bulletPass_hit Q _ random bs1 b bs2 (enemies s1) s1 bs1' pre e post sa
                  e' sb bs2' es2 s2 Hpass1 Hfrom Hpre Ho Hd Hpass2) as Hpass.
    rewrite <- Hbs in Hpass.
    destruct (@after_bulletPass Q _ random dt s p _ _ _ Hp Hpass) as (Hb & Hsc & He).
    split; [exact Hb|]. split; [exact Hsc|].
    destruct (damage_effects random _ _ Hd)
      as (k & ps & r & -> & Hk1 & Hhp & Hk & Ha & Hbody & _).
    split; [exact Hhp|]. split; [exact Hbody|].
    split; [|split].
    + intros H1. rewrite Hhp, H1 in Ha, Hk. cbn in Ha.
      assert (k = 1%nat) as -> by (apply (proj2 Hk); lia).
      split; [exact Ha|]. unfold effects; eval_fields; lia.
    + intros H2. rewrite Hhp, H2 in Ha, Hk. cbn in Ha.
      assert (k = 0%nat) as ->.
      { destruct k as [|[|k]]; [reflexivity| |lia]. destruct Hk as [Hk _].
        specialize (Hk eq_refl). lia. }
      split; [exact Ha|]. split; [lia|]. split; [unfold effects; eval_fields; lia|].
      intros sx. destruct (damage random e' sx) as [ex sx'] eqn:Hd'.
      destruct (damage_effects random _ _ Hd')
        as (k' & ps' & r' & -> & _ & Hhp' & Hk' & Ha' & _).
      cbn [fst snd].
      assert (hp ex = 0%Z) as H0 by lia.
      rewrite H0 in Ha', Hk'. cbn in Ha'.
      assert (k' = 1%nat) as -> by (apply (proj2 Hk'); lia).
      split; [exact Ha'|]. unfold effects; eval_fields; lia.
    + destruct (bulletPass_frame random _ _ _ Hpass2) as (_ & He2 & _).
      pose proof (Forall2_sameEnemy_trans He2 He) as He3.
      apply Forall2_app_inv_l in He3.
      destruct He3 as (pre' & rest & Hpre' & Hrest & Eu).
      inversion Hrest as [|? e'' ? post' Hsame Hpost']; subst.
      exists pre', e'', post'. split; [exact Eu|].
      split; [symmetry; exact (Forall2_length Hpre')|].
      destruct Hsame as (Sb & _ & _ & _ & Shp & Sa).
      split; [rewrite Sb; exact Hbody|]. split; [exact Shp|].
      intros Hdead.
      assert (alive e'' = false) as Hdead''.
      { destruct (alive e'') eqn:E; [|reflexivity]. rewrite (Sa eq_refl) in Hdead.
        discriminate. }
      split; [exact Hdead''|]. intros dt'.
      destruct (update_player random dt s Hp) as (p2 & _ & Hu).
      assert (exists pu, player (update random dt s) = Some pu) as (pu & Hpu)
          by (destruct Hu as [Hu|[Hu|Hu]]; rewrite Hu; eauto).
      exact (@update_culls Q _ random dt' (update random dt s) pu pre' e'' post'
               Hpu Eu Hdead'').
  - intros Ho Hpost.
    destruct (bulletPass random bs2 (pre ++ e :: post) sa) as [[bs2' es2] s2] eqn:Hpass2.
    exists bs2', es2, s2. split; [reflexivity|].
    assert (Forall (fun e0 : Enemy Q => overlaps b e0 = false) (pre ++ e :: post)) as Hno
        by (apply Forall_app; split; [exact Hpre | constructor; assumption]).
    pose proof (@bulletPass_miss Q _ random bs1 b bs2 (enemies s1) s1 bs1' _ sa
                  bs2' es2 s2 Hpass1 Hno Hpass2) as Hpass.
    rewrite <- Hbs in Hpass.
    destruct (@after_bulletPass Q _ random dt s p _ _ _ Hp Hpass) as (Hb & Hsc & _).
    split; [exact Hb | exact Hsc].
Qed.

End PassRational.

(* ================================================================== *)
(** ** Sessions over exact rationals *)

Section RationalSessions.
Context {host : Host}.
Variable random : nat -> Q.
Local Open Scope Q_scope.

(** *** clamp *)

Lemma clamp_inside_eq (v lo hi : Q) : lo <= v <= hi -> clamp v lo hi == v.
Proof.
  intros [H1 H2]. unfold clamp.
  destruct (Math_min_spec hi v) as [[Hc ->]|[Hc ->]].
  - assert (v == hi) as E by (apply Qle_antisym; assumption).
    destruct (Math_max_spec lo hi) as [[_ ->]|[Hc' ->]]; [symmetry; exact E|].
    rewrite E in H1. exfalso. apply (Qlt_irrefl hi). eapply Qlt_le_trans; eauto.
  - destruct (Math_max_spec lo v) as [[_ ->]|[Hc' ->]]; [reflexivity|].
    apply Qle_antisym; [exact H1 | apply Qlt_le_weak; exact Hc'].
Qed.

(** X9.  [clamp] gives [v] when it lies between the bounds, the lower bound
    when [v] is below it, the upper bound when [v] is above it; and when
    the bounds are the wrong way round it gives [min]. *)
Theorem clamp_cases (v lo hi : Q) :
  (lo <= v <= hi -> clamp v lo hi == v)
  /\ (lo <= hi -> v <= lo -> clamp v lo hi == lo)
  /\ (lo <= hi -> hi <= v -> clamp v lo hi == hi)
  /\ (hi < lo -> clamp v lo hi = lo).
Proof.
  split; [apply clamp_inside_eq|]. split; [|split].
  - intros Hb Hv. unfold clamp.
    destruct (Math_min_spec hi v) as [[Hc ->]|[Hc ->]].
    + destruct (Math_max_spec lo hi) as [[_ ->]|[_ ->]]; [|reflexivity].
      apply Qle_antisym; [|exact Hb]. eapply Qle_trans; eauto.
    + destruct (Math_max_spec lo v) as [[Hc' ->]|[_ ->]]; [|reflexivity].
      apply Qle_antisym; assumption.
  - intros Hb Hv. unfold clamp.
    destruct (Math_min_spec hi v) as [[Hc ->]|[Hc ->]].
    + destruct (Math_max_spec lo hi) as [[_ ->]|[Hc' ->]]; [reflexivity|].
      apply Qle_antisym; [exact Hb | apply Qlt_le_weak; exact Hc'].
    + exfalso. apply (Qlt_irrefl v). eapply Qlt_le_trans; eauto.
  - intros Hb. unfold clamp.
    destruct (Math_min_spec hi v) as [[Hc ->]|[Hc ->]].
    + destruct (Math_max_spec lo hi) as [[Hc' _]|[_ ->]]; [|reflexivity].
      exfalso. apply (Qlt_irrefl hi). eapply Qlt_le_trans; eauto.
    + destruct (Math_max_spec lo v) as [[Hc' _]|[_ ->]]; [|reflexivity].
      exfalso. apply (Qlt_irrefl lo). eapply Qle_lt_trans; [exact Hc'|].
      eapply Qlt_trans; eauto.
Qed.

(** *** toCanvas *)

Lemma toCanvas_x (rect : DOMRect.t Q) cx cy :
  x (toCanvas rect cx cy) == (cx - DOMRect.left rect) / DOMRect.width rect * 480.
Proof.
  unfold toCanvas, INTERNAL_WIDTH. cbn [x lit NumQ].
  rewrite mul_eq, div_eq, sub_eq. reflexivity.
Qed.

Lemma toCanvas_y (rect : DOMRect.t Q) cx cy :
  y (toCanvas rect cx cy) == (cy - DOMRect.top rect) / DOMRect.height rect * 720.
Proof.
  unfold toCanvas, INTERNAL_HEIGHT. cbn [y lit NumQ].
  rewrite mul_eq, div_eq, sub_eq. reflexivity.
Qed.

Lemma scale_bounds (a w k : Q) : 0 < w -> 0 <= k -> 0 <= a <= w -> 0 <= a / w * k <= k.
Proof.
  intros Hw Hk [H0 H1].
  assert (0 <= a / w) as Hq0 by (apply Qle_shift_div_l; [exact Hw | Lqa.lra]).
  assert (a / w <= 1) as Hq1 by (apply Qle_shift_div_r; [exact Hw | Lqa.lra]).
  split; [apply Qmult_le_0_compat; assumption|].
  setoid_replace k with (1 * k) at 2 by ring.
  apply Qmult_le_compat_r; assumption.
Qed.

(** X10.  For a canvas rectangle of positive size, [toCanvas] maps a pointer
    inside the rectangle into the playfield, the corner (left, top) to
    (0, 0), the opposite corner to (480, 720), and the client position at
    which the playfield point [(px, py)] is displayed back to [(px, py)]. *)
Theorem toCanvas_maps_rect_to_field (rect : DOMRect.t Q) :
  0 < DOMRect.width rect -> 0 < DOMRect.height rect ->
  let l := DOMRect.left rect in
  let tp := DOMRect.top rect in
  let w := DOMRect.width rect in
  let h := DOMRect.height rect in
  (forall cx cy, l <= cx <= l + w -> tp <= cy <= tp + h ->
     0 <= x (toCanvas rect cx cy) <= 480 /\ 0 <= y (toCanvas rect cx cy) <= 720)
  /\ (x (toCanvas rect l tp) == 0 /\ y (toCanvas rect l tp) == 0)
  /\ (x (toCanvas rect (l + w) (tp + h)) == 480 /\ y (toCanvas rect (l + w) (tp + h)) == 720)
  /\ (forall px py,
        x (toCanvas rect (l + px / 480 * w) (tp + py / 720 * h)) == px
        /\ y (toCanvas rect (l + px / 480 * w) (tp + py / 720 * h)) == py).
Proof.
  intros Hw Hh. cbn zeta.
  split; [|split; [|split]].
  - intros cx cy Hx Hy. rewrite toCanvas_x, toCanvas_y.
    split; apply scale_bounds; try assumption; try Lqa.lra.
  - rewrite toCanvas_x, toCanvas_y. split; field; intros E; rewrite E in *;
      eapply Qlt_irrefl; eassumption.
  - rewrite toCanvas_x, toCanvas_y. split; field; intros E; rewrite E in *;
      eapply Qlt_irrefl; eassumption.
  - intros px py. rewrite toCanvas_x, toCanvas_y. split; field; intros E; rewrite E in *;
      eapply Qlt_irrefl; eassumption.
Qed.

(** *** The movement keys *)

Lemma intent_table (s : State Q) :
  let left := keys s "arrowleft" || keys s "a" in
  let right := keys s "arrowright" || keys s "d" in
  let up := keys s "arrowup" || keys s "w" in
  let down := keys s "arrowdown" || keys s "s" in
  x (intent s) = (if right then if left then 0 else 1 else if left then -1 else 0)
  /\ y (intent s) = (if down then if up then 0 else 1 else if up then -1 else 0).
Proof.
  cbn zeta. unfold intent. cbn [x y].
  destruct (keys s "arrowleft" || keys s "a"), (keys s "arrowright" || keys s "d"),
           (keys s "arrowup" || keys s "w"), (keys s "arrowdown" || keys s "s");
    split; reflexivity.
Qed.

Lemma zero_displacement (len sp dt : Q) : mul (mul (div 0 len) sp) dt == 0.
Proof. rewrite !mul_eq, div_eq. unfold Qdiv. ring. Qed.

(** X11.  Opposite movement keys cancel: when left is held exactly when
    right is, and up exactly when down is, the intent is (0, 0), and a
    player inside the field keeps its position, whatever the delta and
    whatever [Math.hypot] gives. *)
Theorem opposite_keys_cancel dt (s : State Q) p :
  player s = Some p -> inField (pos p) ->
  keys s "arrowleft" || keys s "a" = keys s "arrowright" || keys s "d" ->
  keys s "arrowup" || keys s "w" = keys s "arrowdown" || keys s "s" ->
  intent s = mkVec2 0 0
  /\ exists p', player (movePlayer dt s) = Some p'
       /\ x (pos p') == x (pos p) /\ y (pos p') == y (pos p).
Proof.
  intros Hp [Hx Hy] Hh Hv.
  destruct (intent_table s) as [Ex Ey]. cbn zeta in Ex, Ey.
  rewrite Hh in Ex. rewrite Hv in Ey.
  assert (intent s = mkVec2 0 0) as Hi.
  { change (intent s) with (mkVec2 (x (intent s)) (y (intent s))).
    rewrite Ex, Ey.
    destruct (keys s "arrowright" || keys s "d"), (keys s "arrowdown" || keys s "s");
      reflexivity. }
  split; [exact Hi|].
  unfold movePlayer. rewrite Hp, Hi. cbn [x y].
  eexists. split; [reflexivity|].
  set (L := or_else (Math_hypot 0 0) (lit 1)).
  change (clamp (add (x (pos p)) (mul (mul (div 0 L) (speed p)) dt))
                (lit 15) (sub INTERNAL_WIDTH (lit 15)) == x (pos p)
          /\ clamp (add (y (pos p)) (mul (mul (div 0 L) (speed p)) dt))
                   (lit 15) (sub INTERNAL_HEIGHT (lit 15)) == y (pos p)).
  unfold margin, fieldW, fieldH in Hx, Hy.
  assert (sub INTERNAL_WIDTH (lit 15) == 465) as EW by reflexivity.
  assert (sub INTERNAL_HEIGHT (lit 15) == 705) as EH by reflexivity.
  assert (forall a : Q, add a (mul (mul (div 0 L) (speed p)) dt) == a) as Hz
      by (intros a; rewrite add_eq, zero_displacement; ring).
  split.
  - rewrite clamp_inside_eq; [apply Hz|]. rewrite Hz, EW. cbn [lit NumQ]. Lqa.lra.
  - rewrite clamp_inside_eq; [apply Hz|]. rewrite Hz, EH. cbn [lit NumQ]. Lqa.lra.
Qed.

(** *** Where the player and the bullets are *)

Lemma outOfField_false (p : Vec2 Q) :
  outOfField p = false <-> (-10 <= x p <= 490 /\ -10 <= y p <= 730).
Proof.
  unfold outOfField. rewrite !orb_false_iff. unfold gtb.
  assert (add INTERNAL_HEIGHT (lit 10) == 730) as EH by reflexivity.
  assert (add INTERNAL_WIDTH (lit 10) == 490) as EW by reflexivity.
  assert (forall a b : Q, ltb a b = false <-> b <= a) as Hlt.
  { intros a b. unfold ltb. rewrite negb_false_iff. apply leb_le. }
  rewrite !Hlt. cbn [lit NumQ]. rewrite EH, EW. tauto.
Qed.

Lemma player_commit (s s' : State Q) : player (commit random s s') = player s'.
Proof.
  unfold commit.
  set (s1 := if sameFlags s s' then s' else set_seen (score s') (lives s') s').
  assert (player s1 = player s') as E by (subst s1; destruct (sameFlags s s'); reflexivity).
  destruct (negb (gameOver s) && gameOver s1); [|exact E].
  destruct (player s1) eqn:E1; [|congruence].
  rewrite emitExplosion_exact. cbn [player set_rng set_particles]. congruence.
Qed.

Lemma bullets_commit (s s' : State Q) : bullets (commit random s s') = bullets s'.
Proof.
  unfold commit.
  set (s1 := if sameFlags s s' then s' else set_seen (score s') (lives s') s').
  assert (bullets s1 = bullets s') as E by (subst s1; destruct (sameFlags s s'); reflexivity).
  destruct (negb (gameOver s) && gameOver s1); [|exact E].
  destruct (player s1) eqn:E1; [|congruence].
  rewrite emitExplosion_exact. exact E.
Qed.

Lemma placed_update dt (s : State Q) : placed s -> placed (update random dt s).
Proof.
  intros [Hpl Hbs]. split.
  - intros p Hp. destruct (update_player_pos random dt s Hp) as (p1 & Hp1 & [E|E]).
    + unfold inField. rewrite E. exact (movePlayer_inField _ _ Hp1).
    + unfold inField. rewrite E. apply startPos_inField.
  - intros b Hin. destruct (player s) as [p|] eqn:Hp.
    + destruct (@bullets_update _ _ random dt s p b Hp Hin) as (_ & _ & _ & _ & Hout).
      apply outOfField_false. exact Hout.
    + rewrite (update_no_player random dt s Hp) in Hin. apply Hbs. exact Hin.
Qed.

Lemma placed_step ev (s : State Q) : placed s -> placed (step random ev s).
Proof.
  intros H. unfold step, placed. rewrite player_commit, bullets_commit.
  destruct ev as [now|key code|key code|cx cy|cx cy| | |]; cbn [handle]; try exact H.
  - unfold loop. destruct (negb (running s) || paused s || gameOver s); [exact H|].
    apply placed_update. exact H.
  - destruct (String.eqb key "p" || String.eqb key "P"); exact H.
  - destruct (negb (running s) && negb (gameOver s) || gameOver s); [|exact H].
    split.
    + intros p [= <-]. apply startPos_inField.
    + intros b [].
  - destruct (paused s && negb (gameOver s)); exact H.
Qed.

(** X4.  In every state of a session the player is inside the field, 15 from
    each wall at least, and every bullet is within 10 of the field. *)
Theorem session_positions evs :
  let s := run random evs mount in
  (forall p, player s = Some p ->
     15 <= x (pos p) <= 465 /\ 15 <= y (pos p) <= 705)
  /\ (forall b, In b (bullets s) ->
        -10 <= x (pos b) <= 490 /\ -10 <= y (pos b) <= 730).
Proof.
  cbn zeta.
  assert (placed (run random evs mount)) as [H1 H2].
  { apply run_invariant; [apply placed_step|].
    split; [intros p [=] | intros b []]. }
  split; [|exact H2].
  intros p Hp. specialize (H1 p Hp). unfold inField, margin, fieldW, fieldH in H1.
  destruct H1 as [[A B] [C D]].
  repeat split; try assumption; Lqa.lra.
Qed.

(** *** Waves *)

Lemma floor_Qred (q : Q) : Qfloor (Qred q) = Qfloor q.
Proof. apply Qfloor_comp. apply Qred_correct. Qed.

Lemma floor_range (q : Q) (n : Z) : 0 <= q < inject_Z n -> (0 <= Qfloor q < n)%Z.
Proof.
  intros [H0 H1]. split.
  - change 0%Z with (Qfloor 0). apply Qfloor_resp_le. exact H0.
  - rewrite Zlt_Qlt. eapply Qle_lt_trans; [apply Qfloor_le | exact H1].
Qed.

Lemma floor_mul_range (r : Q) (n : Z) :
  (0 < n)%Z -> 0 <= r < 1 -> (0 <= Math_floor (mul r (inject_Z n)) < n)%Z.
Proof.
  intros Hn [H0 H1]. cbn [Math_floor NumQ]. unfold mul. cbn [NumQ].
  rewrite floor_Qred. apply floor_range.
  assert (0 < inject_Z n) as Hq by (rewrite Zlt_Qlt in Hn; exact Hn).
  split; [apply Qmult_le_0_compat; [exact H0 | apply Qlt_le_weak; exact Hq]|].
  setoid_replace (inject_Z n) with (1 * inject_Z n) at 2 by ring.
  apply Qmult_lt_compat_r; assumption.
Qed.

Lemma floor_quotient (a : Z) (b : positive) :
  Math_floor (div (of_Z a : Q) (lit (Zpos b # 1))) = (a / Zpos b)%Z.
Proof.
  cbn [Math_floor NumQ]. unfold div, of_Z. cbn [NumQ lit]. rewrite floor_Qred.
  unfold Qdiv, Qinv, inject_Z, Qmult. cbn [Qnum Qden]. unfold Qfloor.
  rewrite Z.mul_1_r. reflexivity.
Qed.

Lemma scaled_range (r k : Q) : 0 < k -> 0 <= r < 1 -> 0 <= mul r k < k.
Proof.
  intros Hk [H0 H1]. rewrite mul_eq.
  split; [apply Qmult_le_0_compat; [exact H0 | apply Qlt_le_weak; exact Hk]|].
  setoid_replace k with (1 * k) at 2 by ring.
  apply Qmult_lt_compat_r; assumption.
Qed.

Lemma entry_atTheGate (side : Z) (r : Q) :
  (0 <= side < 4)%Z -> 0 <= r < 1 -> atTheGate (entry side r).
Proof.
  intros Hs Hr. unfold atTheGate, entry.
  assert (0 <= mul r INTERNAL_WIDTH < 480) as HW by (apply scaled_range; [reflexivity | exact Hr]).
  assert (0 <= mul r INTERNAL_HEIGHT < 720) as HH by (apply scaled_range; [reflexivity | exact Hr]).
  assert (side = 0 \/ side = 1 \/ side = 2 \/ side = 3)%Z as [->|[->|[->| ->]]] by lia;
    cbn [Z.eqb Pos.eqb x y].
  - left. split; [reflexivity | exact HW].
  - right; left. split; [reflexivity | exact HH].
  - right; right; left. split; [reflexivity | exact HW].
  - right; right; right. split; [reflexivity | exact HH].
Qed.

Lemma newEnemy_facts (sc : Z) (i : nat) :
  (forall j, 0 <= random j < 1) -> (0 <= sc)%Z ->
  let e := newEnemy random sc i in
  alive e = true /\ radius e = 14 /\ vel e = mkVec2 0 0 /\ t e = 0
  /\ hp e = (1 + sc / 800)%Z /\ (1 <= hp e)%Z /\ (0 <= pattern e <= 2)%Z
  /\ atTheGate (pos e).
Proof.
  intros Hr Hsc. cbn zeta. unfold newEnemy.
  cbn [alive radius vel t hp pattern pos enemy_entity entity_body].
  split; [reflexivity|]. split; [reflexivity|]. split; [reflexivity|].
  split; [reflexivity|].
  rewrite (floor_quotient sc 800).
  split; [reflexivity|].
  split; [pose proof (Z.div_pos sc 800 Hsc); lia|].
  split.
  - pose proof (floor_mul_range (n := 3) (r := random (S (S i))) eq_refl (Hr _)) as H.
    change (lit 3) with (inject_Z 3). lia.
  - apply entry_atTheGate; [|apply Hr].
    exact (floor_mul_range (n := 4) (r := random i) eq_refl (Hr _)).
Qed.

(** X12.  With [Math.random] in [[0, 1)] and a captured score [sc >= 0],
    [spawnWave] appends between [4 + sc/500] and [6 + sc/500] enemies (the
    quotient rounded down) and draws one random number and three more for
    each of them; every new enemy is alive, has radius 14, [1 + sc/800] hit
    points, a pattern among 0, 1, 2, and sits 25 outside one of the four
    edges of the field; nothing else changes. *)
Theorem wave_enters_outside_the_field (s : State Q) :
  (forall j, 0 <= random j < 1) -> (0 <= seen_score s)%Z ->
  let s' := spawnWave random s in
  exists w,
    enemies s' = enemies s ++ w
    /\ (4 + seen_score s / 500 <= Z.of_nat (List.length w) <= 6 + seen_score s / 500)%Z
    /\ rng s' = (rng s + 1 + 3 * List.length w)%nat
    /\ Forall (fun e : Enemy Q =>
                 alive e = true /\ radius e = 14 /\ t e = 0
                 /\ hp e = (1 + seen_score s / 800)%Z /\ (1 <= hp e)%Z
                 /\ (0 <= pattern e <= 2)%Z /\ atTheGate (pos e)) w
    /\ (player s' = player s /\ bullets s' = bullets s /\ particles s' = particles s
        /\ score s' = score s /\ lives s' = lives s /\ spawnTimer s' = spawnTimer s).
Proof.
  intros Hr Hsc. cbn zeta. rewrite spawnWave_exact. cbn zeta.
  set (n := Z.to_nat (waveCount random s)).
  exists (wave random (seen_score s) n (S (rng s))).
  assert (List.length (wave random (seen_score s) n (S (rng s))) = n) as Hlen
      by (unfold wave; rewrite length_map, length_seq; reflexivity).
  rewrite Hlen.
  split; [reflexivity|]. split.
  - subst n. unfold waveCount.
    rewrite (floor_quotient (seen_score s) 500).
    pose proof (floor_mul_range (n := 3) (r := random (rng s)) eq_refl (Hr _)) as H.
    change (inject_Z 3) with (lit 3 : Q) in H.
    pose proof (Z.div_pos (seen_score s) 500 Hsc eq_refl). lia.
  - split; [eval_fields; lia|]. split; [|repeat split].
    apply Forall_forall. intros e Hin. unfold wave in Hin.
    apply in_map_iff in Hin. destruct Hin as (j & <- & _).
    destruct (newEnemy_facts (3 * j + S (rng s)) Hr Hsc) as (A & B & _ & D & E & F & G & H).
    repeat split; assumption || apply G.
Qed.

(** *** Bursts *)

(** X13.  With [Math.random] in [[0, 1)], [emitExplosion] appends exactly 16
    particles, all at the given point and of the given colour, with a
    lifetime in [[0.4, 0.7)], and draws 48 random numbers; nothing else
    changes. *)
Theorem explosion_has_16_particles px py c (s : State Q) :
  (forall j, 0 <= random j < 1) ->
  let s' := emitExplosion random px py c s in
  exists ps,
    particles s' = particles s ++ ps /\ List.length ps = 16%nat
    /\ Forall (fun q : Particle Q =>
                 pos q = mkVec2 px py /\ color q = c /\ 0.4 <= life q < 0.7) ps
    /\ rng s' = (48 + rng s)%nat
    /\ (player s' = player s /\ bullets s' = bullets s /\ enemies s' = enemies s
        /\ score s' = score s /\ lives s' = lives s
        /\ running s' = running s /\ gameOver s' = gameOver s).
Proof.
  intros Hr. cbn zeta. rewrite emitExplosion_exact.
  exists (burst random px py c (rng s)).
  split; [reflexivity|]. split; [reflexivity|]. split; [|repeat split].
  apply Forall_forall. intros q Hin. unfold burst in Hin.
  apply in_map_iff in Hin. destruct Hin as (j & <- & _).
  unfold newParticle. cbn [pos color life particle_body].
  split; [reflexivity|]. split; [reflexivity|].
  destruct (Hr (S (S (3 * j + rng s)))) as [H0 H1].
  rewrite add_eq, mul_eq. cbn [lit NumQ]. split; Lqa.lra.
Qed.

(** *** The clock *)

Lemma delta_cap (a : Q) : Math_min (lit 0.033) a <= 0.033.
Proof.
  destruct (Math_min_spec (lit 0.033) a) as [[_ ->]|[H ->]].
  - cbn [lit NumQ]. apply Qle_refl.
  - apply Qlt_le_weak. exact H.
Qed.

(** X17.  However far apart the time stamps of the frames lie, the clock of the
    simulation advances by at most 0.033 for each frame, and no other event
    moves it: a slow frame slows the game down, it does not make it jump. *)
Theorem clock_gains_33ms_per_frame_at_most evs (s : State Q) :
  time (run random evs s) <= time s + 0.033 * inject_Z (Z.of_nat (frameCount evs)).
Proof.
  revert s. induction evs as [|ev evs IH]; intros s.
  - unfold run, frameCount. cbn [fold_left filter List.length Z.of_nat].
    change (inject_Z 0) with 0. Lqa.lra.
  - unfold run. cbn [fold_left]. fold (run random).
    eapply Qle_trans; [apply IH|].
    assert (frameCount (ev :: evs)
            = ((match ev with Frame _ => 1 | _ => 0 end) + frameCount evs)%nat) as ->.
    { unfold frameCount. cbn [filter]. destruct ev; reflexivity. }
    rewrite Nat2Z.inj_add, inject_Z_plus.
    destruct (time_step random ev s) as [-> | (now & -> & ->)].
    + assert (0 <= inject_Z (Z.of_nat (match ev with Frame _ => 1 | _ => 0 end)))
        by (destruct ev; cbn; discriminate).
      Lqa.nra.
    + rewrite add_eq. change (inject_Z (Z.of_nat 1)) with 1.
      pose proof (delta_cap
                    (div (sub now match lastTime s with Some l => l | None => now end)
                         (lit 1000))).
      Lqa.lra.
Qed.

(** *** Distances *)

Lemma square_nonneg (a : Q) : 0 <= a * a.
Proof.
  destruct (Qlt_le_dec a 0) as [H|H].
  - setoid_replace (a * a) with ((- a) * (- a)) by ring.
    apply Qmult_le_0_compat; Lqa.lra.
  - apply Qmult_le_0_compat; assumption.
Qed.

(** X19.  [dist2] is symmetric, never negative, and zero exactly between
    points with the same coordinates; and the overlap test of the collision
    passes does not depend on which entity comes first. *)
Theorem dist2_is_symmetric (a b : Vec2 Q) (e1 e2 : Entity Q) :
  dist2 a b = dist2 b a
  /\ 0 <= dist2 a b
  /\ (dist2 a b == 0 <-> x a == x b /\ y a == y b)
  /\ overlaps e1 e2 = overlaps e2 e1.
Proof.
  assert (forall p q : Vec2 Q, dist2 p q = dist2 q p) as Hsym.
  { intros p q. unfold dist2. cbv zeta. unfold add. cbn [NumQ].
    apply Qred_complete. rewrite !mul_eq, !sub_eq. ring. }
  split; [apply Hsym|]. split; [|split].
  - rewrite dist2_eq.
    pose proof (square_nonneg (x a - x b)). pose proof (square_nonneg (y a - y b)).
    Lqa.lra.
  - rewrite dist2_eq. split.
    + intros H.
      assert ((x a - x b) * (x a - x b) == 0 /\ (y a - y b) * (y a - y b) == 0) as [Hx Hy].
      { pose proof (square_nonneg (x a - x b)). pose proof (square_nonneg (y a - y b)).
        split; Lqa.lra. }
      apply Qmult_integral in Hx. apply Qmult_integral in Hy.
      split; [destruct Hx | destruct Hy]; Lqa.lra.
    + intros [Hx Hy]. rewrite Hx, Hy. ring.
  - unfold overlaps. cbv zeta. rewrite (Hsym (pos e1) (pos e2)). f_equal.
    assert (add (radius e1) (radius e2) = add (radius e2) (radius e1)) as ->
        by (unfold add; cbn [NumQ]; apply Qred_complete; ring).
    reflexivity.
Qed.

(** *** The first frame of a session *)

Lemma first_delta (now : Q) : Math_min (lit 0.033) (div (sub now now) (lit 1000)) = 0.
Proof.
  assert (sub now now = 0) as ->.
  { unfold sub. cbn [NumQ]. rewrite (Qred_complete (now - now) 0) by ring. reflexivity. }
  reflexivity.
Qed.

(** X18.  After [Start Game] or [Play Again] the session has score 0, three
    lives, a new player at the start position and empty collections, and
    the game loop has captured that score and those lives.  The first frame
    after it, whatever its time stamp, performs a step with the delta 0:
    the clock stands, the first wave of [4 + floor (3 r)] enemies enters,
    the spawn timer is set to 2, and the game is not over after it. *)
Theorem first_frame_spawns_a_wave now (s : State Q) :
  running s = false \/ gameOver s = true ->
  let s1 := step random ClickStart s in
  let s2 := step random (Frame now) s1 in
  (score s1 = 0%Z /\ lives s1 = 3%Z /\ seen_score s1 = 0%Z /\ seen_lives s1 = 3%Z
   /\ player s1 = Some newPlayer /\ bullets s1 = [] /\ enemies s1 = []
   /\ particles s1 = [] /\ running s1 = true /\ paused s1 = false
   /\ gameOver s1 = false /\ time s1 = time s /\ keys s1 = keys s)
  /\ s2 = update random 0 (set_lastTime (Some now) s1)
  /\ time s2 == time s
  /\ spawnTimer s2 = 2
  /\ List.length (enemies s2) = Z.to_nat (4 + Qfloor (random (rng s) * 3))
  /\ (running s2 = true /\ gameOver s2 = false).
Proof.
  intros Hc. cbn zeta. rewrite (step_ClickStart random s Hc).
  set (s1 := set_seen 0 3 (initGame s)).
  split; [repeat split|].
  set (s1' := set_lastTime (Some now) s1).
  assert (player s1' = Some newPlayer) as Hp by reflexivity.
  assert (loop random now s1 = update random 0 s1') as Hloop.
  { unfold loop. change (negb (running s1) || paused s1 || gameOver s1) with false.
    cbv iota. change (lastTime s1) with (@None Q). cbv iota beta zeta.
    rewrite first_delta. reflexivity. }
  destruct (update_outcome random 0 s1' Hp)
    as ((Hpz & _) & _ & p' & _ & _ & _ & Hcases).
  cbn zeta in Hpz, Hcases.
  assert (running (update random 0 s1') = true /\ gameOver (update random 0 s1') = false)
    as [Hrun Hover].
  { destruct Hcases as [(R1 & R2 & _) | [(_ & _ & R1 & R2 & _) | (_ & Hlast & _)]].
    - split; [rewrite R1 | rewrite R2]; reflexivity.
    - split; [rewrite R1 | rewrite R2]; reflexivity.
    - discriminate Hlast. }
  assert (step random (Frame now) s1 = update random 0 s1') as Hstep.
  { unfold step. cbn [handle]. rewrite Hloop. apply commit_same.
    - rewrite Hrun. reflexivity.
    - rewrite Hpz. reflexivity.
    - rewrite Hover. reflexivity. }
  rewrite Hstep. split; [reflexivity|].
  split.
  { rewrite time_update. change (time s1') with (time s). rewrite add_eq. ring. }
  assert (spawnTimer s1' - 0 <= 0) as Hdue by (cbn; discriminate).
  destruct (@spawn_timer_reset _ random 0 s1' newPlayer Hp Hdue) as (Ht & Hn & _).
  cbn zeta in Ht, Hn.
  split; [rewrite Ht; reflexivity|].
  split; [|split; assumption].
  rewrite Hn. change (enemies s1') with (@nil (Enemy Q)). cbn [filter List.length plus].
  unfold waveCount. change (seen_score s1') with 0%Z. change (rng s1') with (rng s).
  f_equal.
  change (Math_floor (div (of_Z 0) (lit 500))) with 0%Z.
  cbn [Math_floor mul lit NumQ]. rewrite floor_Qred. lia.
Qed.

End RationalSessions.

(** *** Hit points *)

Section HitPoints.
Context {host : Host}.
Variable random : nat -> Q.

Lemma hpOK_damage sc (e e' : Enemy Q) (s s' : State Q) :
  damage random e s = (e', s') -> hpOK sc e -> hpOK sc e'.
Proof.
  intros Hd [_ Hmax]. apply damage_effects in Hd.
  destruct Hd as (k & ps & r & _ & _ & Hhp & _ & Ha & _).
  split.
  - intros Halive. rewrite Ha in Halive.
    destruct (hp e' <=? 0)%Z eqn:E; [discriminate|]. apply Z.leb_gt in E. lia.
  - lia.
Qed.

Lemma hpOK_scanEnemies sc (b : Bullet Q) es (s : State Q) es' s' :
  scanEnemies random b es s = Some (es', s') ->
  Forall (hpOK sc) es -> Forall (hpOK sc) es'.
Proof.
  intros Hscan Hall. apply scanEnemies_Some in Hscan.
  destruct Hscan as (pre & e & post & e' & -> & -> & _ & _ & Hd).
  apply Forall_app in Hall. destruct Hall as [Hpre Hrest].
  inversion Hrest as [|? ? He Hpost]; subst.
  apply Forall_app. split; [exact Hpre|].
  constructor; [eapply hpOK_damage; eassumption | exact Hpost].
Qed.

Lemma hpOK_bulletPass sc bs es (s : State Q) bs' es' s' :
  bulletPass random bs es s = (bs', es', s') ->
  Forall (hpOK sc) es -> Forall (hpOK sc) es'.
Proof.
  revert es s bs' es' s'. induction bs as [|b bs IH]; intros es s bs' es' s'; cbn [bulletPass].
  - intros [= <- <- <-]. auto.
  - destruct (negb (fromPlayer b)).
    + destruct (bulletPass random bs es s) as [[bs1 es1] s1] eqn:Hp.
      intros [= <- <- <-]. eapply IH; eassumption.
    + destruct (scanEnemies random b es s) as [[es0 s0]|] eqn:Hscan.
      * destruct (bulletPass random bs es0 s0) as [[bs1 es1] s1] eqn:Hp.
        intros [= <- <- <-] Hall. eapply IH; [eassumption|].
        eapply hpOK_scanEnemies; eassumption.
      * destruct (bulletPass random bs es s) as [[bs1 es1] s1] eqn:Hp.
        intros [= <- <- <-]. eapply IH; eassumption.
Qed.

Lemma hpOK_collideBullets sc (s : State Q) :
  Forall (hpOK sc) (enemies s) -> Forall (hpOK sc) (enemies (collideBullets random s)).
Proof.
  unfold collideBullets.
  destruct (bulletPass random (bullets s) (enemies s) s) as [[bs es] s1] eqn:Hp.
  intros H. cbn [enemies set_enemies]. eapply hpOK_bulletPass; eassumption.
Qed.

Lemma hpOK_collidePlayer sc (s : State Q) :
  Forall (hpOK sc) (enemies s) -> Forall (hpOK sc) (enemies (collidePlayer random s)).
Proof.
  intros Hall. unfold collidePlayer. destruct (player s) as [p|]; [|exact Hall].
  destruct (playerScan random p (enemies s) s) as [[es' s']|] eqn:Hscan; [|exact Hall].
  cbn [enemies set_enemies].
  apply playerScan_Some in Hscan.
  destruct Hscan as (_ & pre & e & post & E & -> & _).
  rewrite E in Hall. apply Forall_app in Hall. destruct Hall as [Hpre Hrest].
  inversion Hrest as [|? ? [_ He] Hpost]; subst.
  apply Forall_app. split; [exact Hpre|].
  constructor; [|exact Hpost]. split; [discriminate | exact He].
Qed.

Lemma hpOK_newEnemy sc i : (0 <= sc)%Z -> hpOK sc (newEnemy random sc i).
Proof.
  intros Hsc. unfold hpOK, newEnemy. cbn [alive hp enemy_entity].
  rewrite (floor_quotient sc 800).
  pose proof (Z.div_pos sc 800 Hsc eq_refl). split; [intros _|]; lia.
Qed.

Lemma hpOK_update dt (s : State Q) :
  (0 <= seen_score s)%Z ->
  Forall (hpOK (seen_score s)) (enemies s) ->
  Forall (hpOK (seen_score s)) (enemies (update random dt s)).
Proof.
  intros Hsc Hall. destruct (player s) as [p|] eqn:Hp;
    [|rewrite (update_no_player random dt s Hp); exact Hall].
  rewrite (update_with_player random dt s Hp).
  set (s0 := set_time (add (time s) dt) s).
  unfold updateParticles. cbn [enemies set_particles].
  apply hpOK_collidePlayer, hpOK_collideBullets.
  rewrite (enemies_beforeCollisions random dt s0).
  apply Forall_forall. intros e' Hin.
  apply filter_In in Hin. destruct Hin as [Hin _].
  apply in_map_iff in Hin. destruct Hin as (e & <- & Hine).
  destruct (moveEnemy_attrs dt (player (shoot dt (movePlayer dt s0))) (seen_score s0) e)
    as (_ & _ & Ea & Eh & _).
  assert (hpOK (seen_score s) e) as [H1 H2].
  { destruct (enemies_spawnEnemies random dt (updateBullets dt (shoot dt (movePlayer dt s0))))
      as (n & i & E).
    rewrite E in Hine. apply in_app_or in Hine. destruct Hine as [Hine|Hine].
    - destruct (early_blocks_frame dt s0) as (E0 & _). rewrite E0 in Hine.
      exact (proj1 (Forall_forall _ _) Hall e Hine).
    - unfold wave in Hine. apply in_map_iff in Hine. destruct Hine as (j & <- & _).
      destruct (early_blocks_frame dt s0) as (_ & _ & _ & Es & _). rewrite Es.
      apply hpOK_newEnemy. exact Hsc. }
  split; rewrite ?Ea, Eh; assumption.
Qed.

Lemma enemies_commit (s s' : State Q) : enemies (commit random s s') = enemies s'.
Proof.
  unfold commit.
  set (s1 := if sameFlags s s' then s' else set_seen (score s') (lives s') s').
  assert (enemies s1 = enemies s') as E by (subst s1; destruct (sameFlags s s'); reflexivity).
  destruct (negb (gameOver s) && gameOver s1); [|exact E].
  destruct (player s1); [|exact E].
  rewrite emitExplosion_exact. exact E.
Qed.

Lemma seen_score_commit (s s' : State Q) :
  seen_score (commit random s s') = seen_score s'
  \/ seen_score (commit random s s') = score s'.
Proof.
  unfold commit.
  set (s1 := if sameFlags s s' then s' else set_seen (score s') (lives s') s').
  assert (seen_score s1 = seen_score s' \/ seen_score s1 = score s') as E
      by (subst s1; destruct (sameFlags s s'); [left | right]; reflexivity).
  destruct (negb (gameOver s) && gameOver s1); [|exact E].
  destruct (player s1); [|exact E].
  rewrite emitExplosion_exact. exact E.
Qed.

Lemma hpOK_mono sc sc' (e : Enemy Q) : (sc <= sc')%Z -> hpOK sc e -> hpOK sc' e.
Proof.
  intros Hle [H1 H2]. split; [exact H1|].
  pose proof (Z.div_le_mono sc sc' 800 eq_refl Hle). lia.
Qed.

(** The enemies of a state that the handler of an event leaves. *)
Lemma hpOK_handle ev (s : State Q) :
  steady s -> Forall (hpOK (seen_score s)) (enemies s) ->
  Forall (hpOK (seen_score (handle random ev s))) (enemies (handle random ev s))
  /\ (enemies (handle random ev s) = []
      \/ (seen_score (handle random ev s) <= score (handle random ev s))%Z).
Proof.
  intros Hst Hall.
  assert (0 <= seen_score s <= score s)%Z as Hs.
  { destruct Hst as [_ [(k & j & Hk & Hj) _]]. lia. }
  destruct ev as [now|key code|key code|cx cy|cx cy| | |]; cbn [handle];
    try (split; [exact Hall | right; exact (proj2 Hs)]).
  - unfold loop. destruct (negb (running s) || paused s || gameOver s);
      [split; [exact Hall | right; exact (proj2 Hs)]|].
    set (dt := Math_min (lit 0.033)
                 (div (sub now match lastTime s with Some l => l | None => now end)
                      (lit 1000))).
    set (s0 := set_lastTime (Some now) s).
    assert (seen_score (update random dt s0) = seen_score s) as Es.
    { destruct (player s0) as [p|] eqn:Hp.
      - destruct (update_outcome random dt s0 Hp) as ((_ & E & _) & _). exact E.
      - rewrite (update_no_player random dt s0 Hp). reflexivity. }
    rewrite Es. split.
    + apply (hpOK_update dt s0 (proj1 Hs) Hall).
    + right. pose proof (score_update random dt s0) as Hsc.
      change (score s0) with (score s) in Hsc. lia.
  - destruct (String.eqb key "p" || String.eqb key "P");
      (split; [exact Hall | right; exact (proj2 Hs)]).
  - destruct (negb (running s) && negb (gameOver s) || gameOver s);
      [|split; [exact Hall | right; exact (proj2 Hs)]].
    split; [constructor | left; reflexivity].
  - destruct (paused s && negb (gameOver s));
      (split; [exact Hall | right; exact (proj2 Hs)]).
Qed.

Lemma hpOK_step ev (s : State Q) :
  steady s /\ Forall (hpOK (seen_score s)) (enemies s) ->
  steady (step random ev s)
  /\ Forall (hpOK (seen_score (step random ev s))) (enemies (step random ev s)).
Proof.
  intros [Hst Hall]. split; [apply steady_step; exact Hst|].
  destruct (hpOK_handle ev Hst Hall) as [H Hle].
  unfold step. rewrite enemies_commit.
  destruct (seen_score_commit s (handle random ev s)) as [-> | ->]; [exact H|].
  destruct Hle as [-> | Hle]; [constructor|].
  eapply Forall_impl; [|exact H]. intros e. apply hpOK_mono. exact Hle.
Qed.

(** X24.  In every state of a session a living enemy has at least one hit
    point, and no enemy has more than [1 + sc / 800] of them, for the score
    [sc] that the game loop has captured (the quotient rounded down). *)
Theorem session_hit_points evs :
  let s := run random evs mount in
  Forall (fun e : Enemy Q =>
            (alive e = true -> (1 <= hp e)%Z) /\ (hp e <= 1 + seen_score s / 800)%Z)
         (enemies s).
Proof.
  cbn zeta.
  assert (steady (run random evs mount)
          /\ Forall (hpOK (seen_score (run random evs mount)))
                    (enemies (run random evs mount))) as [_ H].
  { apply (run_invariant random
             (fun s => steady s /\ Forall (hpOK (seen_score s)) (enemies s))).
    - intros ev s. apply hpOK_step.
    - split; [apply steady_mount | constructor]. }
  exact H.
Qed.

End HitPoints.

(** *** Particles *)

Section Lifetimes.
Context {host : Host}.
Variable random : nat -> Q.
Local Open Scope Q_scope.

Lemma visible_step ev (s : State Q) :
  (forall j, 0 <= random j < 1) ->
  Forall (fun q : Particle Q => 0 < life q) (particles s) ->
  Forall (fun q : Particle Q => 0 < life q) (particles (step random ev s)).
Proof.
  intros Hr Hall.
  assert (Forall (fun q : Particle Q => 0 < life q) (particles (handle random ev s))) as Hh.
  { destruct ev as [now|key code|key code|cx cy|cx cy| | |]; cbn [handle]; try exact Hall.
    - unfold loop. destruct (negb (running s) || paused s || gameOver s); [exact Hall|].
      set (dt := Math_min (lit 0.033)
                   (div (sub now match lastTime s with Some l => l | None => now end)
                        (lit 1000))).
      set (s0 := set_lastTime (Some now) s).
      destruct (player s0) as [p|] eqn:Hp;
        [|rewrite (update_no_player random dt s0 Hp); exact Hall].
      apply Forall_forall. intros q Hin.
      apply ltb_lt. exact (@particles_update _ _ random dt s0 p q Hp Hin).
    - destruct (String.eqb key "p" || String.eqb key "P"); exact Hall.
    - destruct (negb (running s) && negb (gameOver s) || gameOver s);
        [constructor | exact Hall].
    - destruct (paused s && negb (gameOver s)); exact Hall. }
  unfold step.
  destruct (particles_commit random s (handle random ev s)) as [-> | (px & py & r & ->)];
    [exact Hh|].
  apply Forall_app. split; [exact Hh|].
  apply Forall_forall. intros q Hin. apply In_burst in Hin. destruct Hin as (j & ->).
  unfold newParticle. cbn [life].
  destruct (Hr (S (S (3 * j + r)))) as [H0 H1].
  rewrite add_eq, mul_eq. cbn [lit NumQ]. Lqa.lra.
Qed.

(** X25.  With [Math.random] in [[0, 1)], every particle of every state of a
    session has a positive lifetime: no event leaves a particle behind
    whose lifetime has run out. *)
Theorem session_particles_are_alive evs :
  (forall j, 0 <= random j < 1) ->
  Forall (fun q : Particle Q => 0 < life q) (particles (run random evs mount)).
Proof.
  intros Hr. apply run_invariant; [|constructor].
  intros ev s. apply visible_step. exact Hr.
Qed.

End Lifetimes.

(* ================================================================== *)
(** ** Motion over the real numbers *)

Section RealMotion.
Variable random : nat -> R.
Local Open Scope R_scope.

Ltac lits :=
  repeat match goal with
         | |- context [@lit R NumR ?q] =>
           let v := eval cbv in (Qnum q) in
           let d := eval cbv in (Zpos (Qden q)) in
           replace (@lit R NumR q) with (IZR v / IZR d)
             by (cbn [lit NumR]; unfold Q2R; cbn [Qnum Qden]; reflexivity)
         end.

(** [Math.hypot(a, b) || 1] *)
Lemma len_cases (a b : R) :
  let L := or_else (Math_hypot a b) (lit 1) in
  (a = 0 /\ b = 0 /\ L = 1)
  \/ ((a <> 0 \/ b <> 0) /\ L = sqrt (a * a + b * b) /\ 0 < L /\ L * L = a * a + b * b).
Proof.
  cbn zeta. cbn [Math_hypot NumR]. unfold or_else, is_zero. cbn [leb NumR].
  change (lit 0 : R) with (lit (inject_Z 0) : R).
  change (lit 1 : R) with (lit (inject_Z 1) : R). rewrite !lit_Z.
  assert (0 <= a * a + b * b) as Hnn by Lra.nra.
  destruct (Req_dec (a * a + b * b) 0) as [E|E].
  - left. assert (a = 0 /\ b = 0) as [-> ->] by (split; Lra.nra).
    replace (0 * 0 + 0 * 0) with 0 by Lra.lra. rewrite sqrt_0.
    assert (Rleb 0 0 = true) as -> by (apply Rleb_le; Lra.lra).
    repeat split.
  - right. assert (0 < sqrt (a * a + b * b)) as Hpos by (apply sqrt_lt_R0; Lra.lra).
    assert (Rleb (sqrt (a * a + b * b)) 0 = false) as -> by (apply Rleb_gt; exact Hpos).
    cbn [andb]. split; [|split; [reflexivity | split; [exact Hpos | apply sqrt_def; exact Hnn]]].
    destruct (Req_dec a 0) as [->|Ha]; [|now left].
    right. intros ->. apply E. Lra.lra.
Qed.

(** A vector of the given direction, scaled to the length [|k|]. *)
Lemma scaled_length (a b L k : R) :
  0 < L -> L * L = a * a + b * b ->
  sqrt ((a / L * k) * (a / L * k) + (b / L * k) * (b / L * k)) = Rabs k.
Proof.
  intros HL HLL.
  replace ((a / L * k) * (a / L * k) + (b / L * k) * (b / L * k)) with (Rsqr k).
  - apply sqrt_Rsqr_abs.
  - unfold Rsqr. transitivity ((a * a + b * b) * (k * k) / (L * L)).
    + rewrite <- HLL. field. Lra.lra.
    + field. Lra.lra.
Qed.

(** *** The bullet that is fired *)

(** X15.  A bullet is fired towards the aim at speed 400 and starts 15 from the
    center of the player; when the aim is exactly on the player, the
    bullet starts on the player with velocity (0, 0), and no step moves
    it. *)
Theorem bullet_speed_is_400 (p : Player R) (target : Vec2 R) :
  let b := newBullet p target in
  let ax := x target - x (pos p) in
  let ay := y target - y (pos p) in
  (fromPlayer b = true /\ alive b = true /\ radius b = 2)
  /\ ((ax <> 0 \/ ay <> 0) ->
      Math_hypot (x (vel b)) (y (vel b)) = 400
      /\ Math_hypot (x (pos b) - x (pos p)) (y (pos b) - y (pos p)) = 15
      /\ exists k, 0 < k /\ x (vel b) = k * ax /\ y (vel b) = k * ay)
  /\ (ax = 0 /\ ay = 0 ->
      vel b = mkVec2 0 0 /\ pos b = pos p
      /\ forall dt, entity_body (moveBullet dt b) = entity_body b).
Proof.
  cbn zeta. unfold newBullet. cbv zeta.
  set (ax := sub (x target) (x (pos p))). set (ay := sub (y target) (y (pos p))).
  change (x target - x (pos p)) with ax. change (y target - y (pos p)) with ay.
  destruct (len_cases ax ay) as [(E1 & E2 & EL) | (Hne & _ & HL & HLL)]; cbn zeta in *;
    set (L := or_else (Math_hypot ax ay) (lit 1)) in *.
  - split.
    { repeat split. cbn [radius bullet_entity]. lits. Lra.lra. }
    split; [intros [H|H]; contradiction|]. intros _.
    cbn [vel pos x y bullet_entity entity_body].
    rewrite E1, E2, EL. cbn [add sub mul div NumR]. lits.
    assert (forall k : R, 0 / 1 * k = 0) as Hz by (intros k; field).
    rewrite !Hz, !Rplus_0_r.
    split; [reflexivity|]. split; [reflexivity|].
    intros dt. unfold moveBullet. cbv zeta.
    assert (forall e : Entity R, entity_body (set_alive false e) = entity_body e) as Hsa
        by reflexivity.
    destruct (outOfField _); cbn [entity_body bullet_entity bullet_with set_pos set_alive
                                  pos vel x y add mul NumR];
      rewrite !Rmult_0_l, !Rplus_0_r; reflexivity.
  - split.
    { repeat split. cbn [radius bullet_entity]. lits. Lra.lra. }
    split; [|intros [H1 H2]; destruct Hne; contradiction]. intros _.
    cbn [vel pos x y bullet_entity entity_body Math_hypot add sub mul div NumR].
    lits.
    split; [|split].
    + rewrite (scaled_length (400 / 1) HL HLL). rewrite Rabs_right; Lra.lra.
    + replace (x (pos p) + ax / L * (15 / 1) - x (pos p)) with (ax / L * (15 / 1)) by ring.
      replace (y (pos p) + ay / L * (15 / 1) - y (pos p)) with (ay / L * (15 / 1)) by ring.
      rewrite (scaled_length (15 / 1) HL HLL). rewrite Rabs_right; Lra.lra.
    + exists (400 / L). split; [apply Rdiv_lt_0_compat; Lra.lra|].
      split; field; Lra.lra.
Qed.

(** *** Enemies *)

(** The speed of the enemies for the score [sc]. *)
Lemma enemy_speed (sc : Z) :
  (0 <= sc)%Z ->
  let base := add (lit 35) (Math_min (lit 80) (mul (of_Z sc) (lit 0.03))) in
  35 <= base <= 115
  /\ ((sc <= 2666)%Z -> base = 35 + 0.03 * IZR sc)
  /\ ((2667 <= sc)%Z -> base = 115).
Proof.
  intros Hsc. cbn zeta. unfold Math_min, of_Z. rewrite lit_Z. cbn [leb add mul NumR].
  lits.
  apply IZR_le in Hsc.
  destruct (Rleb (80 / 1) (IZR sc * (3 / 100))) eqn:E.
  - apply Rleb_le in E. split; [Lra.lra|]. split.
    + intros H. apply IZR_le in H. Lra.lra.
    + intros _. Lra.lra.
  - apply Rleb_gt in E. split; [Lra.lra|]. split.
    + intros _. Lra.lra.
    + intros H. apply IZR_le in H. Lra.lra.
Qed.
(** X16.  An enemy away from the player moves straight towards it, by the
    enemy speed times the delta: with [0 <= speed * dt <= distance] it ends
    that much closer.  An enemy exactly on the player stays.  The speed
    lies between 35 and 115. *)
Theorem enemy_closes_in dt (sc : Z) (p : Player R) (e : Enemy R) :
  (0 <= sc)%Z ->
  let e' := moveEnemy dt (Some p) sc e in
  let dx := x (pos p) - x (pos e) in
  let dy := y (pos p) - y (pos e) in
  let l := sqrt (dx * dx + dy * dy) in
  let base := add (lit 35) (Math_min (lit 80) (mul (of_Z sc) (lit 0.03))) in
  35 <= base <= 115
  /\ (t e' = t e + dt /\ hp e' = hp e /\ alive e' = alive e /\ radius e' = radius e)
  /\ (0 < l ->
      Math_hypot (x (pos e') - x (pos e)) (y (pos e') - y (pos e)) = base * Rabs dt
      /\ Math_hypot (x (pos p) - x (pos e')) (y (pos p) - y (pos e')) = Rabs (l - base * dt))
  /\ (l = 0 -> pos e' = pos e).
Proof.
  intros Hsc. cbn zeta.
  destruct (enemy_speed Hsc) as (Hbase & _). cbn zeta in Hbase.
  set (base := add (lit 35) (Math_min (lit 80) (mul (of_Z sc) (lit 0.03)))) in *.
  split; [exact Hbase|]. split; [repeat split|].
  unfold moveEnemy. cbv zeta. fold base.
  cbn [pos x y enemy_with set_pos set_t enemy_entity entity_body].
  set (dx := sub (x (pos p)) (x (pos e))). set (dy := sub (y (pos p)) (y (pos e))).
  change (x (pos p) - x (pos e)) with dx. change (y (pos p) - y (pos e)) with dy.
  destruct (len_cases dx dy) as [(E1 & E2 & EL) | (Hne & EL & HL & HLL)]; cbn zeta in *;
    set (L := or_else (Math_hypot dx dy) (lit 1)) in *.
  - split.
    + intros Hl. exfalso. rewrite E1, E2 in Hl.
      replace (0 * 0 + 0 * 0) with 0 in Hl by Lra.lra. rewrite sqrt_0 in Hl. Lra.lra.
    + intros _. rewrite E1, E2, EL. cbn [add mul div NumR].
      assert (forall k : R, 0 / 1 * k = 0) as Hz by (intros k; field).
      rewrite !Hz, !Rmult_0_l, !Rplus_0_r. reflexivity.
  - rewrite <- EL. split.
    + intros _. cbn [Math_hypot add sub mul div NumR]. split.
      * replace (x (pos e) + dx / L * base * dt - x (pos e)) with (dx / L * (base * dt)) by ring.
        replace (y (pos e) + dy / L * base * dt - y (pos e)) with (dy / L * (base * dt)) by ring.
        rewrite (scaled_length (base * dt) HL HLL).
        rewrite Rabs_mult, (Rabs_right base); [reflexivity | Lra.lra].
      * replace (x (pos p) - (x (pos e) + dx / L * base * dt))
          with (dx / L * (L - base * dt)) by (unfold dx; cbn [sub NumR]; field; Lra.lra).
        replace (y (pos p) - (y (pos e) + dy / L * base * dt))
          with (dy / L * (L - base * dt)) by (unfold dy; cbn [sub NumR]; field; Lra.lra).
        apply (scaled_length (L - base * dt) HL HLL).
    + intros E0. rewrite E0 in HL. Lra.lra.
Qed.


(** *** The particles of a burst *)

Lemma polar_length (a sp : R) :
  0 <= sp -> sqrt (cos a * sp * (cos a * sp) + sin a * sp * (sin a * sp)) = sp.
Proof.
  intros Hsp.
  replace (cos a * sp * (cos a * sp) + sin a * sp * (sin a * sp)) with (Rsqr sp).
  - apply sqrt_Rsqr. exact Hsp.
  - unfold Rsqr. pose proof (sin2_cos2 a) as H. unfold Rsqr in H.
    transitivity ((sin a * sin a + cos a * cos a) * (sp * sp)); [rewrite H; ring | ring].
Qed.

Lemma newParticle_speed px py c (i : Z) (r : nat) :
  0 <= random (S r) < 1 ->
  let q := newParticle random px py c i r in
  pos q = mkVec2 px py /\ 60 <= Math_hypot (x (vel q)) (y (vel q)) < 140.
Proof.
  intros [H0 H1]. cbn zeta. split; [reflexivity|].
  unfold newParticle. cbv zeta. cbn [pos vel x y particle_body].
  set (a := add (div (mul (mul Math_PI (lit 2)) (of_Z i)) (lit 16))
                (mul (random r) (lit 0.3))).
  set (sp := add (lit 60) (mul (random (S r)) (lit 80))).
  assert (60 <= sp < 140) as Hsp.
  { subst sp. cbn [add mul NumR]. lits. Lra.lra. }
  clearbody a sp.
  change (60 <= sqrt (cos a * sp * (cos a * sp) + sin a * sp * (sin a * sp)) < 140).
  rewrite polar_length; Lra.lra.
Qed.


(** With [Math.random] in [[0, 1)], every particle that [emitExplosion]
    adds starts at the given point and flies at a speed of at least 60 and
    less than 140. *)
(** X14.  With [Math.random] in [[0, 1)], each of the 16 particles that
    [emitExplosion] adds starts at the given point and flies at a speed of
    at least 60 and less than 140. *)
Theorem explosion_speed px py c (s : State R) :
  (forall j, 0 <= random j < 1) ->
  exists ps,
    particles (emitExplosion random px py c s) = particles s ++ ps
    /\ List.length ps = 16%nat
    /\ Forall (fun q : Particle R =>
                 pos q = mkVec2 px py
                 /\ 60 <= Math_hypot (x (vel q)) (y (vel q)) < 140) ps.
Proof.
  intros Hr. exists (burst random px py c (rng s)).
  split; [apply particles_emitExplosion|]. split; [reflexivity|].
  apply Forall_forall. intros q Hin.
  apply In_burst in Hin. destruct Hin as (j & ->).
  apply newParticle_speed. apply Hr.
Qed.


End RealMotion.

(** *** Bullets of a session *)

Section BulletSpeed.
Variable random : nat -> R.
Local Open Scope R_scope.

Ltac lits :=
  repeat match goal with
         | |- context [@lit R NumR ?q] =>
           let v := eval cbv in (Qnum q) in
           let d := eval cbv in (Zpos (Qden q)) in
           replace (@lit R NumR q) with (IZR v / IZR d)
             by (cbn [lit NumR]; unfold Q2R; cbn [Qnum Qden]; reflexivity)
         end.

(** A bullet is fired at speed 400, or stands still. *)
Lemma newBullet_speed (p : Player R) (target : Vec2 R) :
  let b := newBullet p target in
  Math_hypot (x (vel b)) (y (vel b)) = 400 \/ vel b = mkVec2 0 0.
Proof.
  unfold newBullet. cbv zeta.
  set (ax := sub (x target) (x (pos p))). set (ay := sub (y target) (y (pos p))).
  destruct (len_cases ax ay) as [(E1 & E2 & EL) | (Hne & _ & HL & HLL)]; cbn zeta in *;
    set (L := or_else (Math_hypot ax ay) (lit 1)) in *.
  - right. cbn [vel pos x y bullet_entity entity_body].
    rewrite E1, E2, EL. cbn [add sub mul div NumR]. lits.
    assert (forall k : R, 0 / 1 * k = 0) as Hz by (intros k; field).
    rewrite !Hz. reflexivity.
  - left. cbn [vel pos x y bullet_entity entity_body Math_hypot add sub mul div NumR].
    lits. rewrite (scaled_length (400 / 1) HL HLL). rewrite Rabs_right; Lra.lra.
Qed.

(** X26.  Every bullet of every state of a session has a velocity of length 400
    (pixels per second), or the velocity (0, 0) of a bullet fired with the
    aim exactly on the player: no event changes the velocity of a bullet,
    whatever [Math.random] gives. *)
Theorem session_bullets_fly_at_400 evs :
  Forall (fun b : Bullet R =>
            Math_hypot (x (vel b)) (y (vel b)) = 400 \/ vel b = mkVec2 0 0)
         (bullets (run random evs mount)).
Proof.
  apply run_invariant; [|constructor].
  intros ev s Hall. apply Forall_forall. intros b' Hin.
  apply bullets_step_vel in Hin.
  destruct Hin as [(b & Hb & ->) | (pl & target & ->)].
  - exact (proj1 (Forall_forall _ _) Hall b Hb).
  - apply newBullet_speed.
Qed.

End BulletSpeed.

Section Reach.
Variable random : nat -> R.
Local Open Scope R_scope.

(** *** An enemy out of reach *)

(** An enemy that is 100 or more above the player when the enemy block
    moves it does not reach the player in a step of a tenth of a second or
    less. *)
Lemma far_enemy_misses dt (sc : Z) (q : Player R) (e : Enemy R) :
  (0 <= sc)%Z -> 0 <= dt <= 1 / 10 ->
  radius q = 12 -> radius e = 14 ->
  100 <= y (pos q) - y (pos e) ->
  overlaps q (moveEnemy dt (Some q) sc e) = false.
Proof.
  intros Hsc Hdt Hrq Hre Hfar.
  destruct (enemy_speed Hsc) as (Hbase & _). cbn zeta in Hbase.
  unfold overlaps, dist2, moveEnemy. cbv zeta.
  set (base := add (lit 35) (Math_min (lit 80) (mul (of_Z sc) (lit 0.03)))) in *.
  cbn [pos x y radius enemy_with set_pos set_t enemy_entity entity_body].
  rewrite Hrq, Hre.
  set (dx := sub (x (pos q)) (x (pos e))). set (dy := sub (y (pos q)) (y (pos e))).
  assert (100 <= dy) as Hdy by exact Hfar.
  destruct (len_cases dx dy) as [(_ & E2 & _) | (_ & _ & HL & HLL)]; cbn zeta in *;
    [Lra.lra|].
  set (L := or_else (Math_hypot dx dy) (lit 1)) in *.
  cbn [leb add sub mul div NumR]. apply Rleb_gt.
  assert (dy <= L) as HdL.
  { destruct (Rle_lt_dec dy L) as [H|H]; [exact H|exfalso].
    assert (L * L < dy * dy) as H1 by (apply Rmult_le_0_lt_compat; Lra.lra).
    assert (0 <= dx * dx) as H2 by Lra.nra. Lra.lra. }
  set (k := dy / L).
  assert (k * L = dy) as Hk by (unfold k; field; Lra.lra).
  assert (0 <= k <= 1) as Hk01.
  { split.
    - unfold k. apply Rlt_le, Rdiv_lt_0_compat; Lra.lra.
    - apply (Rmult_le_reg_r L); [exact HL|]. rewrite Hk. Lra.lra. }
  set (m := base * dt).
  assert (0 <= m <= 23 / 2) as Hm.
  { unfold m. split; [apply Rmult_le_pos; Lra.lra|].
    replace (23 / 2) with (115 * (1 / 10)) by Lra.lra.
    apply Rmult_le_compat; Lra.lra. }
  replace (y (pos q) - (y (pos e) + k * base * dt)) with (dy - k * m)
    by (unfold m, dy; cbn [sub NumR]; ring).
  assert (k * m <= m) as Hkm.
  { rewrite <- (Rmult_1_l m) at 2. apply Rmult_le_compat_r; Lra.lra. }
  assert (177 / 2 <= dy - k * m) as Hfar' by Lra.lra.
  set (u := x (pos q) - (x (pos e) + dx / L * base * dt)).
  set (v := dy - k * m) in *.
  assert (0 <= u * u) as Hu by Lra.nra.
  assert (177 / 2 * (177 / 2) <= v * v) as Hv by (apply Rmult_le_compat; Lra.lra).
  Lra.lra.
Qed.

End Reach.

(* ================================================================== *)
(** ** The drawing *)

Section Drawing.
Context {num : Type} {N : Number num}.
Variable Math_atan2 : num -> num -> num.

Lemma contextAfter_app (cs1 cs2 : list (Canvas num)) stack alpha :
  contextAfter (cs1 ++ cs2) stack alpha
  = contextAfter cs2 (fst (contextAfter cs1 stack alpha)) (snd (contextAfter cs1 stack alpha)).
Proof.
  revert stack alpha. induction cs1 as [|c cs1 IH]; intros stack alpha; [reflexivity|].
  destruct c; cbn [app contextAfter]; try apply IH.
  destruct stack; apply IH.
Qed.

Lemma contextAfter_particles (ps : list (Particle num)) stack :
  contextAfter (flat_map drawParticle ps) stack (lit 1) = (stack, lit 1).
Proof.
  induction ps as [|p ps IH]; [reflexivity|].
  cbn [flat_map]. rewrite contextAfter_app. cbn [drawParticle contextAfter fst snd]. exact IH.
Qed.

Lemma contextAfter_bullets (bs : list (Bullet num)) stack alpha :
  contextAfter (flat_map drawBullet bs) stack alpha = (stack, alpha).
Proof.
  induction bs as [|b bs IH]; [reflexivity|].
  cbn [flat_map]. rewrite contextAfter_app. cbn [drawBullet contextAfter fst snd]. exact IH.
Qed.

Lemma contextAfter_enemies (es : list (Enemy num)) stack alpha :
  contextAfter (flat_map drawEnemy es) stack alpha = (stack, alpha).
Proof.
  induction es as [|e es IH]; [reflexivity|].
  cbn [flat_map]. rewrite contextAfter_app.
  cbn [drawEnemy drawLimb flat_map app contextAfter fst snd]. exact IH.
Qed.

Lemma contextAfter_player (p : Player num) target stack alpha :
  contextAfter (drawPlayer Math_atan2 p target) stack alpha = (stack, alpha).
Proof. reflexivity. Qed.

(** X20.  [draw] leaves the stack of saved context states as it finds it, and
    with the alpha at 1 when it starts -- the default of a context -- the
    alpha is 1 when it ends: every frame starts from the same context. *)
Theorem draw_restores_the_context hasPattern (s : State num) stack :
  contextAfter (draw Math_atan2 hasPattern s) stack (lit 1) = (stack, lit 1).
Proof.
  unfold draw. cbn [app contextAfter].
  rewrite contextAfter_app, contextAfter_particles. cbn [fst snd app contextAfter].
  rewrite contextAfter_app, contextAfter_bullets. cbn [fst snd].
  rewrite contextAfter_app, contextAfter_enemies. cbn [fst snd].
  destruct (player s) as [p|]; [|reflexivity].
  destruct (alive p); [apply contextAfter_player | reflexivity].
Qed.

Lemma discs_app (cs1 cs2 : list (Canvas num)) : discs (cs1 ++ cs2) = discs cs1 ++ discs cs2.
Proof. unfold discs. apply flat_map_app. Qed.

Lemma discs_particles (ps : list (Particle num)) (q : Particle num) :
  In q ps -> In (x (pos q), y (pos q), lit 2) (discs (flat_map drawParticle ps)).
Proof.
  induction ps as [|p ps IH]; [contradiction|].
  intros [->|Hin]; cbn [flat_map]; rewrite discs_app; apply in_or_app.
  - left. cbn. left. reflexivity.
  - right. apply IH. exact Hin.
Qed.

Lemma discs_bullets (bs : list (Bullet num)) (b : Bullet num) :
  In b bs -> In (x (pos b), y (pos b), radius b) (discs (flat_map drawBullet bs)).
Proof.
  induction bs as [|b0 bs IH]; [contradiction|].
  intros [->|Hin]; cbn [flat_map]; rewrite discs_app; apply in_or_app.
  - left. cbn. left. reflexivity.
  - right. apply IH. exact Hin.
Qed.

Lemma discs_enemies (es : list (Enemy num)) (e : Enemy num) :
  In e es -> In (x (pos e), y (pos e), radius e) (discs (flat_map drawEnemy es)).
Proof.
  induction es as [|e0 es IH]; [contradiction|].
  intros [->|Hin]; cbn [flat_map]; rewrite discs_app; apply in_or_app.
  - left. cbn. left. reflexivity.
  - right. apply IH. exact Hin.
Qed.

Lemma no_translate_particles (ps : list (Particle num)) :
  existsb isTranslate (flat_map drawParticle ps) = false.
Proof.
  induction ps as [|p ps IH]; [reflexivity|]. cbn [flat_map]. rewrite existsb_app, IH.
  reflexivity.
Qed.

Lemma no_translate_bullets (bs : list (Bullet num)) :
  existsb isTranslate (flat_map drawBullet bs) = false.
Proof.
  induction bs as [|b bs IH]; [reflexivity|]. cbn [flat_map]. rewrite existsb_app, IH.
  reflexivity.
Qed.

Lemma no_translate_enemies (es : list (Enemy num)) :
  existsb isTranslate (flat_map drawEnemy es) = false.
Proof.
  induction es as [|e es IH]; [reflexivity|]. cbn [flat_map]. rewrite existsb_app, IH.
  reflexivity.
Qed.

(** X21.  [draw] paints a disc for every particle, every bullet and every enemy
    of the collections, whether or not its alive flag is set; the sprite
    of the player -- the only drawing under a translation -- is painted
    exactly when there is a player and it is alive. *)
Theorem draw_paints_what_is_collected hasPattern (s : State num) :
  let cs := draw Math_atan2 hasPattern s in
  (forall q, In q (particles s) -> In (x (pos q), y (pos q), lit 2) (discs cs))
  /\ (forall b, In b (bullets s) -> In (x (pos b), y (pos b), radius b) (discs cs))
  /\ (forall e, In e (enemies s) -> In (x (pos e), y (pos e), radius e) (discs cs))
  /\ (existsb isTranslate cs = true <-> exists p, player s = Some p /\ alive p = true)
  /\ (forall p, player s = Some p -> alive p = true ->
        In (translate (x (pos p)) (y (pos p))) cs).
Proof.
  cbn zeta. unfold draw.
  split; [|split; [|split; [|split]]].
  - intros q Hin. rewrite !discs_app. apply in_or_app. right.
    apply in_or_app. left. apply discs_particles. exact Hin.
  - intros b Hin. rewrite !discs_app. apply in_or_app. right.
    apply in_or_app. right. apply in_or_app. right.
    apply in_or_app. left. apply discs_bullets. exact Hin.
  - intros e Hin. rewrite !discs_app. apply in_or_app. right.
    apply in_or_app. right. apply in_or_app. right.
    apply in_or_app. right. apply in_or_app. left. apply discs_enemies. exact Hin.
  - rewrite !existsb_app, no_translate_particles, no_translate_bullets,
      no_translate_enemies.
    cbn [existsb isTranslate orb].
    destruct (player s) as [p|].
    + destruct (alive p) eqn:Ha.
      * split; [intros _; exists p; auto | reflexivity].
      * split; [discriminate | intros (p0 & [= <-] & H); congruence].
    + split; [discriminate | intros (p0 & [=] & _)].
  - intros p Hp Ha. rewrite Hp, Ha.
    apply in_or_app. right. apply in_or_app. right. apply in_or_app. right.
    apply in_or_app. right. apply in_or_app. right. cbn. right. left. reflexivity.
Qed.

End Drawing.

Section DrawingRational.
Context {host : Host}.
Variable Math_atan2 : Q -> Q -> Q.
Local Open Scope Q_scope.

Lemma alphas_app (cs1 cs2 : list (Canvas Q)) : alphas (cs1 ++ cs2) = alphas cs1 ++ alphas cs2.
Proof. unfold alphas. apply flat_map_app. Qed.

Lemma alphas_bullets (bs : list (Bullet Q)) : alphas (flat_map drawBullet bs) = [].
Proof.
  induction bs as [|b bs IH]; [reflexivity|]. cbn [flat_map]. rewrite alphas_app, IH.
  reflexivity.
Qed.

Lemma alphas_enemies (es : list (Enemy Q)) : alphas (flat_map drawEnemy es) = [].
Proof.
  induction es as [|e es IH]; [reflexivity|]. cbn [flat_map]. rewrite alphas_app, IH.
  reflexivity.
Qed.

Lemma alphas_particles (ps : list (Particle Q)) :
  alphas (flat_map drawParticle ps)
  = flat_map (fun q : Particle Q => [clamp (life q) 0 1; 1]) ps.
Proof.
  induction ps as [|p ps IH]; [reflexivity|]. cbn [flat_map]. rewrite alphas_app, IH.
  reflexivity.
Qed.

(** X22.  The only alphas that [draw] sets are, for each particle, its
    lifetime clamped to [[0, 1]], which is the lifetime itself when that
    lies in [[0, 1]], and 1 after the particle is painted. *)
Theorem draw_alpha_is_the_lifetime hasPattern (s : State Q) :
  alphas (draw Math_atan2 hasPattern s)
  = flat_map (fun q : Particle Q => [clamp (life q) 0 1; 1]) (particles s)
  /\ Forall (fun a => 0 <= a <= 1) (alphas (draw Math_atan2 hasPattern s))
  /\ (forall q : Particle Q, 0 <= life q <= 1 -> clamp (life q) 0 1 == life q).
Proof.
  assert (alphas (draw Math_atan2 hasPattern s)
          = flat_map (fun q : Particle Q => [clamp (life q) 0 1; 1]) (particles s)) as E.
  { unfold draw. rewrite !alphas_app, alphas_particles, alphas_bullets, alphas_enemies.
    cbn [alphas flat_map app].
    assert (alphas match player s with
                   | Some p => if alive p then drawPlayer Math_atan2 p (aim s) else []
                   | None => []
                   end = []) as ->.
    { destruct (player s) as [p|]; [destruct (alive p)|]; reflexivity. }
    rewrite !app_nil_r. reflexivity. }
  split; [exact E|]. split.
  - rewrite E. apply Forall_forall. intros a Hin.
    apply in_flat_map in Hin. destruct Hin as (q & _ & [<-|[<-|[]]]).
    + apply clamp_bounds. discriminate.
    + split; discriminate.
  - intros q Hq. apply clamp_inside_eq. exact Hq.
Qed.

End DrawingRational.

(* ================================================================== *)
(** ** The statements at concrete inputs *)

Module PlayMore.
Import ExactHost Session Inputs.
#[local] Existing Instance hostQ.
Local Open Scope Q_scope.

Lemma bullet_hit_rules_witness :
  let s := set_lastTime (Some 1683) (run half approach mount) in
  let s1 := beforeCollisions half 0.033 (set_time (add (time s) 0.033) s) in
  let u := update half 0.033 s in
  let b := hd touchingBullet (bullets s1) in
  let e := hd touchedEnemy (enemies s1) in
  let post := tl (enemies s1) in
  (player s = Some (mkPlayer (mkEntity (mkBody (mkVec2 240 657) (mkVec2 0 1)) 12 true)
                             180 (-33 # 20))
   /\ bullets s1 = [] ++ b :: []
   /\ bulletPass half [] (enemies s1) s1 = ([], [] ++ e :: post, s1)
   /\ fromPlayer b = true
   /\ Forall (fun e0 : Enemy Q => overlaps b e0 = false) [])
  /\ (overlaps b e = true /\ hp e = 1%Z /\ List.length post = 4%nat)
  /\ bullets u = [bullet_with (set_alive false) b]
  /\ score u = (score s1 + 100)%Z
  /\ exists e'' post',
       enemies u = e'' :: post' /\ alive e'' = false
       /\ update half 0.033 u = update half 0.033 (set_enemies post' u).
Proof.
  cbv zeta.
  set (s := set_lastTime (Some 1683) (run half approach mount)).
  set (s1 := beforeCollisions half 0.033 (set_time (add (time s) 0.033) s)).
  set (b := hd touchingBullet (bullets s1)).
  set (e := hd touchedEnemy (enemies s1)).
  set (post := tl (enemies s1)).
  assert (player s = Some (mkPlayer (mkEntity (mkBody (mkVec2 240 657) (mkVec2 0 1)) 12 true)
                                    180 (-33 # 20))) as Hp by (vm_compute; reflexivity).
  assert (bullets s1 = [] ++ b :: []) as Hb by (vm_compute; reflexivity).
  assert (bulletPass half [] (enemies s1) s1 = ([], [] ++ e :: post, s1)) as Hpass
      by (vm_compute; reflexivity).
  assert (fromPlayer b = true) as Hfrom by (vm_compute; reflexivity).
  assert (Forall (fun e0 : Enemy Q => overlaps b e0 = false) []) as Hpre by constructor.
  assert (overlaps b e = true) as Ho by (vm_compute; reflexivity).
  assert (hp e = 1%Z) as Hhp by (vm_compute; reflexivity).
  split; [repeat split; assumption|].
  split; [split; [exact Ho|]; split; [exact Hhp | vm_compute; reflexivity]|].
  destruct (@bullet_hit_rules hostQ half 0.033 s _ [] [] [] b [] post e s1
              Hp Hb Hpass Hfrom Hpre) as (_ & _ & _ & Hhit & _).
  destruct (Hhit Ho)
    as (e' & sb & bs2' & es2 & s2 & Hd & Hpass2 & Hbul & Hsc & _ & _ & H1 & _
        & pre' & e'' & post' & Eu & Hlen & _ & _ & Hdead).
  destruct (H1 Hhp) as (Ha' & Hsb).
  cbn [bulletPass] in Hpass2. injection Hpass2 as <- <- <-.
  destruct pre' as [|? ?]; [|discriminate Hlen].
  destruct (Hdead Ha') as (Ha'' & Hnext).
  split; [exact Hbul|]. split; [rewrite Hsc; exact Hsb|].
  exists e'', post'. split; [exact Eu|]. split; [exact Ha'' | apply Hnext].
Defined.

Lemma step_takes_one_life_at_most_witness :
  player started = Some newPlayer
  /\ exists k, score (update half 0.033 started) = (score started + 100 * Z.of_nat k)%Z
               /\ (k <= List.length (bullets started) + 1)%nat.
Proof.
  assert (player started = Some newPlayer) as E by (vm_compute; reflexivity).
  split; [exact E|].
  exact (proj1 (proj2 (@step_takes_one_life_at_most Q _ half 0.033 started newPlayer E))).
Defined.

Lemma halted_frames_only_record_time_witness :
  (running (mount (num := Q)) = false \/ paused (mount (num := Q)) = true
   \/ gameOver (mount (num := Q)) = true)
  /\ run half (map (fun t => Frame t) ([5] ++ [7])) mount = set_lastTime (Some 7) mount.
Proof.
  assert (running (mount (num := Q)) = false \/ paused (mount (num := Q)) = true
          \/ gameOver (mount (num := Q)) = true) as H by (left; reflexivity).
  split; [exact H|].
  exact (@halted_frames_only_record_time Q _ half [5] 7 mount H).
Defined.

Lemma key_release_undoes_press_witness :
  (isASCII "A" = true /\ isASCII "KeyA" = true /\ isASCII "a" = true)
  /\ toLowerCase "a" = toLowerCase "A" /\ toLowerCase "KeyA" = toLowerCase "KeyA"
  /\ keys (step half (KeyDown "A" "KeyA") mount) "a" = true
  /\ keys (step half (KeyUp "a" "KeyA") (step half (KeyDown "A" "KeyA") mount)) "a" = false.
Proof.
  assert (toLowerCase "a" = toLowerCase "A") as E1 by reflexivity.
  assert (toLowerCase "KeyA" = toLowerCase "KeyA") as E2 by reflexivity.
  split; [repeat split|]. split; [exact E1|]. split; [exact E2|].
  destruct (@key_release_undoes_press Q _ half "A" "KeyA" "a" "KeyA" mount
              eq_refl eq_refl eq_refl eq_refl E1 E2)
    as ((H1 & _) & (H2 & _) & _).
  split; [exact H1 | exact H2].
Defined.

Lemma toCanvas_maps_rect_to_field_witness :
  0 < DOMRect.width canvasRect /\ 0 < DOMRect.height canvasRect
  /\ x (toCanvas canvasRect (10 + 960) (20 + 1440)) == 480
  /\ y (toCanvas canvasRect (10 + 960) (20 + 1440)) == 720.
Proof.
  assert (0 < DOMRect.width canvasRect) as H1 by reflexivity.
  assert (0 < DOMRect.height canvasRect) as H2 by reflexivity.
  split; [exact H1|]. split; [exact H2|].
  exact (proj1 (proj2 (proj2 (@toCanvas_maps_rect_to_field hostQ canvasRect H1 H2)))).
Defined.

Lemma opposite_keys_cancel_witness :
  player started = Some newPlayer /\ inField (pos (newPlayer (num := Q)))
  /\ intent started = mkVec2 0 0.
Proof.
  assert (player started = Some newPlayer) as E by (vm_compute; reflexivity).
  assert (inField (pos (newPlayer (num := Q)))) as F
      by (vm_compute; repeat split; discriminate).
  split; [exact E|]. split; [exact F|].
  exact (proj1 (@opposite_keys_cancel hostQ 0.033 started newPlayer E F eq_refl eq_refl)).
Defined.

Lemma half_in_unit : forall j, 0 <= half j < 1.
Proof. intros j. split; [discriminate | reflexivity]. Defined.

Lemma wave_enters_outside_the_field_witness :
  (forall j, 0 <= half j < 1) /\ (0 <= seen_score started)%Z
  /\ exists w, enemies (spawnWave half started) = enemies started ++ w
               /\ List.length w = 5%nat.
Proof.
  assert (0 <= seen_score started)%Z as H by (vm_compute; discriminate).
  split; [exact half_in_unit|]. split; [exact H|].
  destruct (@wave_enters_outside_the_field hostQ half started half_in_unit H)
    as (w & Hw & _).
  exists w. split; [exact Hw|].
  assert (List.length (enemies (spawnWave half started)) = 5%nat) as E5
      by (vm_compute; reflexivity).
  assert (List.length (enemies started) = 0%nat) as E0 by (vm_compute; reflexivity).
  rewrite Hw, length_app, E0 in E5. exact E5.
Defined.

Lemma explosion_has_16_particles_witness :
  (forall j, 0 <= half j < 1)
  /\ exists ps, particles (emitExplosion half 240 360 "red" started)
                = particles started ++ ps
                /\ List.length ps = 16%nat.
Proof.
  split; [exact half_in_unit|].
  destruct (@explosion_has_16_particles hostQ half 240 360 "red" started half_in_unit)
    as (ps & Hps & Hlen & _).
  exists ps. split; [exact Hps | exact Hlen].
Defined.

Lemma first_frame_spawns_a_wave_witness :
  (running (mount (num := Q)) = false \/ gameOver (mount (num := Q)) = true)
  /\ spawnTimer (step half (Frame 12345) (step half ClickStart mount)) = 2.
Proof.
  assert (running (mount (num := Q)) = false \/ gameOver (mount (num := Q)) = true) as H
      by (left; reflexivity).
  split; [exact H|].
  exact (proj1 (proj2 (proj2 (proj2
           (@first_frame_spawns_a_wave hostQ half 12345 mount H))))).
Defined.

Lemma game_ends_with_a_burst_witness :
  gameOver (run half lastStand mount) = false
  /\ gameOver (step half (Frame 4290) (run half lastStand mount)) = true
  /\ exists p, player (step half (Frame 4290) (run half lastStand mount)) = Some p
               /\ alive p = false.
Proof.
  assert (gameOver (run half lastStand mount) = false) as H1 by (vm_compute; reflexivity).
  assert (gameOver (step half (Frame 4290) (run half lastStand mount)) = true) as H2
      by (vm_compute; reflexivity).
  split; [exact H1|]. split; [exact H2|].
  destruct (@game_ends_with_a_burst Q _ half (Frame 4290) (run half lastStand mount) H1 H2)
    as (now & p & rest & r & _ & Hp & Ha & _).
  exists p. split; [exact Hp | exact Ha].
Defined.

Lemma session_particles_are_alive_witness :
  (forall j, 0 <= half j < 1)
  /\ List.length (particles (run half (lastStand ++ [Frame 4290]) mount)) = 32%nat
  /\ Forall (fun q : Particle Q => 0 < life q)
            (particles (run half (lastStand ++ [Frame 4290]) mount)).
Proof.
  split; [exact half_in_unit|]. split; [vm_compute; reflexivity|].
  exact (@session_particles_are_alive hostQ half (lastStand ++ [Frame 4290]) half_in_unit).
Defined.

End PlayMore.

Module RealPlayMore.
Import RealSession RealInputs.
Local Open Scope R_scope.

Lemma watched_timer (dt : R) (k : string -> bool) :
  dt < 1 -> leb (sub (spawnTimer (set_keys k watched)) dt) (lit 0) = false.
Proof.
  intros H. cbn [leb sub NumR spawnTimer set_keys set_enemies watched calm].
  change (lit 0) with (lit (inject_Z 0)). rewrite lit_Z.
  apply Rleb_gt. Lra.lra.
Qed.

(** In [watched] a step of 10 ms that moves the player, away from the
    walls, to a place not more than 200 above the start position does not
    hit the player. *)
Lemma watched_clear (k : string -> bool) (vx vy len : R) :
  x (intent (set_keys k watched)) = vx -> y (intent (set_keys k watched)) = vy ->
  or_else (Math_hypot vx vy) (lit 1) = len ->
  15 <= 240 + vx / len * 180 * (1 / 100) <= 465 ->
  160 <= 360 + vy / len * 180 * (1 / 100) <= 705 ->
  lives (update still (1 / 100) (set_keys k watched)) = lives watched.
Proof.
  intros Hvx Hvy Hlen Hx Hy.
  apply (@lives_when_clear R _ still (1 / 100) (set_keys k watched) soldier);
    [reflexivity|].
  set (s0 := set_time (add (time (set_keys k watched)) (1 / 100)) (set_keys k watched)).
  intros q Hq.
  rewrite (enemies_beforeCollisions still (1 / 100) s0).
  rewrite (player_beforeCollisions still (1 / 100) s0) in Hq.
  set (s1 := updateBullets (1 / 100) (shoot (1 / 100) (movePlayer (1 / 100) s0))).
  destruct (early_blocks_frame (1 / 100) s0) as (He1 & Hst & _). fold s1 in He1, Hst.
  destruct (spawnEnemies_cases still (1 / 100) s1) as [(Hle & _) | (_ & _ & ->)].
  { rewrite Hst in Hle.
    change (spawnTimer s0) with (spawnTimer (set_keys k watched)) in Hle.
    rewrite (@watched_timer (1 / 100) k) in Hle; [discriminate | Lra.lra]. }
  rewrite He1, Hq.
  change (enemies s0) with [sentry]. cbn [map filter].
  assert (alive (moveEnemy (1 / 100) (Some q) (seen_score s0) sentry) = true) as ->
      by reflexivity.
  constructor; [|constructor].
  destruct (@free_move (1 / 100) s0 soldier vx vy len eq_refl Hvx Hvy Hlen)
    as (p1 & Hp1 & _ & Hy1);
    [cbn [x y pos speed soldier entity_body player_entity]; Lra.lra
    |cbn [x y pos speed soldier entity_body player_entity]; Lra.lra|].
  destruct (@player_movePlayer R _ (1 / 100) s0 soldier eq_refl)
    as (p1' & Hp1' & _ & _ & _ & Hr1).
  rewrite Hp1 in Hp1'. injection Hp1' as <-.
  rewrite (player_shoot (1 / 100) (movePlayer (1 / 100) s0) Hp1) in Hq. cbv zeta in Hq.
  assert (radius q = 12 /\ pos q = pos p1) as (Hrq & Hpq).
  { injection Hq as <-. destruct (_ && _); split; exact Hr1 || reflexivity. }
  apply far_enemy_misses; [reflexivity | Lra.lra | exact Hrq | reflexivity |].
  rewrite Hpq, Hy1. cbn [x y pos speed soldier sentry entity_body player_entity enemy_entity].
  Lra.lra.
Qed.

Lemma diagonal_not_faster_witness :
  (player watched = Some soldier /\ enemies watched = [sentry] /\ alive sentry = true)
  /\ lives (update still (1 / 100) (set_keys rightAndDown watched)) = lives watched
  /\ lives (update still (1 / 100) (set_keys rightOnly watched)) = lives watched
  /\ exists ud ua,
      player (update still (1 / 100) (set_keys rightAndDown watched)) = Some ud
      /\ player (update still (1 / 100) (set_keys rightOnly watched)) = Some ua
      /\ Math_hypot (x (pos ud) - 240) (y (pos ud) - 360) = Rabs (180 * (1 / 100))
      /\ Math_hypot (x (pos ua) - 240) (y (pos ua) - 360) = Rabs (180 * (1 / 100)).
Proof.
  destruct RealPlay.bit_values as [B1 B0].
  pose proof sqrt2_pos as Hpos.
  assert (Rabs (180 * (1 / 100)) = 18 / 10) as EA
      by (rewrite Rabs_pos_eq; Lra.lra).
  assert (x (intent (set_keys rightAndDown watched)) = 1
          /\ y (intent (set_keys rightAndDown watched)) = 1
          /\ x (intent (set_keys rightOnly watched)) = 1
          /\ y (intent (set_keys rightOnly watched)) = 0) as (I1 & I2 & I3 & I4).
  { unfold intent.
    cbn [x y keys set_keys rightAndDown rightOnly String.eqb Ascii.eqb Bool.eqb orb].
    rewrite ?B1, ?B0. cbn [sub NumR]. repeat split; Lra.lra. }
  assert (0 <= 1 / sqrt 2 <= 1) as Hs.
  { pose proof sqrt2_sqr as H2. split.
    - apply Rlt_le. apply Rdiv_lt_0_compat; Lra.lra.
    - apply (Rmult_le_reg_r (sqrt 2)); [exact Hpos|].
      replace (1 / sqrt 2 * sqrt 2) with 1 by (field; Lra.lra). Lra.nra. }
  assert (lives (update still (1 / 100) (set_keys rightAndDown watched)) = lives watched)
    as Ld by (apply (@watched_clear rightAndDown 1 1 (sqrt 2) I1 I2 len_diagonal); Lra.nra).
  assert (lives (update still (1 / 100) (set_keys rightOnly watched)) = lives watched)
    as La by (apply (@watched_clear rightOnly 1 0 1 I3 I4 len_axial); Lra.lra).
  split; [repeat split|]. split; [exact Ld|]. split; [exact La|].
  destruct (@diagonal_not_faster still (1 / 100) watched soldier rightAndDown rightOnly)
    as (pd & pa & _ & _ & _ & _ & ud & ua & Hud & Hua & Hd & Ha & _);
    try reflexivity; try assumption;
    cbn [x y pos speed soldier entity_body player_entity];
    try (rewrite EA; Lra.lra).
  exists ud, ua. split; [exact Hud|]. split; [exact Hua|].
  split; [exact (proj2 (Hd Ld)) | exact (proj2 (Ha La))].
Defined.

Lemma still_in_unit : forall j, 0 <= still j < 1.
Proof. intros j. unfold still. split; Lra.lra. Defined.

Lemma enemy_closes_in_witness :
  (0 <= 0)%Z
  /\ 35 <= add (lit 35) (Math_min (lit 80) (mul (of_Z 0) (lit 0.03))) <= 115.
Proof.
  assert (0 <= 0)%Z as H by lia.
  split; [exact H|].
  exact (proj1 (@enemy_closes_in 1 0 soldier grunt H)).
Defined.

Lemma explosion_speed_witness :
  (forall j, 0 <= still j < 1)
  /\ exists ps, particles (emitExplosion still 240 360 "red" calm) = particles calm ++ ps
                /\ List.length ps = 16%nat.
Proof.
  split; [exact still_in_unit|].
  destruct (@explosion_speed still 240 360 "red" calm still_in_unit) as (ps & Hps & Hlen & _).
  exists ps. split; [exact Hps | exact Hlen].
Defined.

End RealPlayMore.
